(** * udpmask: the session table, the idle reaper and the relay loop

    A shallow embedding of [udpmask.c]: the bounded table [map] of client
    sessions, [um_sockmap_ins], [um_sockmap_clean], [sockaddr_in_cmp],
    the [UPDATE_*] macros, the main loop [start] and the entry point
    [main], followed by the properties of the relay: what each operation of
    the table does, what the loop keeps invariant, in which order it acts,
    and what [main] checks before it starts the loop.

    C integers are integers of [Z]; where the program relies on the width of
    a type (the unsigned subtraction and the narrowing cast of
    [sockaddr_in_cmp]) the wrap-around is written out.  The table is a list
    indexed by slot number, the descriptor sets are finite sets of
    descriptor numbers, and every system call the program makes is recorded,
    in program order, in a trace. *)

From Stdlib Require Import ZArith Lia.
From stdpp Require Import base numbers strings list gmap sets.

Local Open Scope Z_scope.
#[local] Set Warnings "-clear-no-such-hyp".

(** ** Machine integers *)

(** [unsigned int] arithmetic, 32 bits: the type of [in_addr.s_addr]. *)
Definition uint32 (z : Z) : Z := z mod 2 ^ 32.

(** Conversion to [int], 32 bits, two's complement. *)
Definition sint32 (z : Z) : Z := (z + 2 ^ 31) mod 2 ^ 32 - 2 ^ 31.

(** Conversion to [long], 64 bits (LP64), two's complement. *)
Definition sint64 (z : Z) : Z := (z + 2 ^ 63) mod 2 ^ 64 - 2 ^ 63.

(** ** Data model *)

(** [struct sockaddr_in]: the three fields the program reads. *)
Record sockaddr_in := {
  sin_family : Z;   (* sa_family_t, 16 bits unsigned *)
  sin_port : Z;     (* in_port_t, 16 bits unsigned *)
  s_addr : Z        (* sin_addr.s_addr, 32 bits unsigned *)
}.

Definition sockaddr_in_wf (a : sockaddr_in) : Prop :=
  0 <= sin_family a < 2 ^ 16 /\ 0 <= sin_port a < 2 ^ 16 /\
  0 <= s_addr a < 2 ^ 32.

#[global] Instance sockaddr_in_eq_dec : EqDecision sockaddr_in.
Proof. solve_decision. Defined.

(** [struct um_sockmap], one slot of the session table. *)
Record um_sockmap := {
  in_use : Z;
  sock : Z;
  last_use : Z;
  from : sockaddr_in
}.

(** [enum um_mode], as [main] uses it. *)
Inductive um_mode := UM_MODE_NONE | UM_MODE_SERVER | UM_MODE_CLIENT.

(** The file-scope variables that [main] sets before [start] runs and that
    [start] only reads. *)
Record um_config := {
  bind_sock : Z;
  conn_addr : sockaddr_in;
  timeout : Z;
  tlimit : Z
}.

Inductive log_msg :=
| LogTimeout (t : Z)                 (* "Connection timeout %d" *)
| LogSelect (r : Z)                  (* "select() returns %d" *)
| LogNewConn (a : sockaddr_in)       (* "New connection from [%s:%hu]" *)
| LogSocketErr                       (* "socket(): %s" *)
| LogMaxClients (a : sockaddr_in)    (* "Max clients reached. Dropping ..." *)
| LogPurged (a : sockaddr_in).       (* "Purged connection from [%s:%hu]" *)

(** What the program does to the outside, in program order. *)
Inductive event :=
| EvLog (m : log_msg)
| EvTime (r : Z)
| EvSocket (r : Z)
| EvClose (fd : Z)
| EvConnect (fd : Z) (a : sockaddr_in)
| EvSelect (nfds : Z) (r : Z)
| EvRecvfrom (fd : Z) (r : Z)
| EvRecv (fd : Z) (r : Z)
| EvSend (fd : Z) (data : list Byte.byte)
| EvSendto (fd : Z) (data : list Byte.byte) (to : sockaddr_in).

(** The state [start] works on: the table [map] and [sock_fd_max] (file
    scope), [active_fd_set] (local to [start], live across iterations), and
    the two parts of the outside the properties speak about: the descriptors
    the process holds open and the trace of its calls.  The table has
    [UM_MAX_CLIENT] slots; [ARRAY_SIZE(map)] is the length of the list. *)
Record um_state := {
  map : list um_sockmap;
  sock_fd_max : Z;
  active_fd_set : gset Z;
  open_fds : gset Z;
  trace : list event
}.

Definition set_map (m : list um_sockmap) (st : um_state) : um_state :=
  {| map := m; sock_fd_max := sock_fd_max st;
     active_fd_set := active_fd_set st; open_fds := open_fds st;
     trace := trace st |}.

Definition set_sock_fd_max (v : Z) (st : um_state) : um_state :=
  {| map := map st; sock_fd_max := v;
     active_fd_set := active_fd_set st; open_fds := open_fds st;
     trace := trace st |}.

Definition set_active_fd_set (s : gset Z) (st : um_state) : um_state :=
  {| map := map st; sock_fd_max := sock_fd_max st;
     active_fd_set := s; open_fds := open_fds st;
     trace := trace st |}.

Definition set_open_fds (s : gset Z) (st : um_state) : um_state :=
  {| map := map st; sock_fd_max := sock_fd_max st;
     active_fd_set := active_fd_set st; open_fds := s;
     trace := trace st |}.

(** Append one event to the trace. *)
Definition emit (e : event) (st : um_state) : um_state :=
  {| map := map st; sock_fd_max := sock_fd_max st;
     active_fd_set := active_fd_set st; open_fds := open_fds st;
     trace := trace st ++ [e] |}.

(** [close(fd)]: the descriptor leaves the process's open set. *)
Definition sys_close (fd : Z) (st : um_state) : um_state :=
  emit (EvClose fd) (set_open_fds (open_fds st ∖ {[fd]}) st).

(** [NEW_SOCK()] returning [r]: on success the descriptor is open. *)
Definition sys_socket (r : Z) (st : um_state) : um_state :=
  emit (EvSocket r)
       (if r <? 0 then st else set_open_fds ({[r]} ∪ open_fds st) st).

Definition FD_SET (fd : Z) (st : um_state) : um_state :=
  set_active_fd_set ({[fd]} ∪ active_fd_set st) st.

Definition FD_CLR (fd : Z) (st : um_state) : um_state :=
  set_active_fd_set (active_fd_set st ∖ {[fd]}) st.

(** [for (int i = 0; i < n; i++) body], from index [i]. *)
Fixpoint for_loop {S : Type} (n i : nat) (body : nat -> S -> S) (s : S) : S :=
  match n with
  | O => s
  | Datatypes.S n' => for_loop n' (Datatypes.S i) body (body i s)
  end.

(** A slot with a field replaced. *)
Definition with_in_use (v : Z) (s : um_sockmap) : um_sockmap :=
  {| in_use := v; sock := sock s; last_use := last_use s; from := from s |}.

Definition with_last_use (v : Z) (s : um_sockmap) : um_sockmap :=
  {| in_use := in_use s; sock := sock s; last_use := v; from := from s |}.

(** [map[i].in_use] as a condition. *)
Definition active (s : um_sockmap) : bool := negb (in_use s =? 0).

(** ** sock_fd_max *)

Definition update_sock_fd_max (cfg : um_config) (st : um_state) : um_state :=
  for_loop (length (map st)) 0
    (fun i st' =>
       match map st' !! i with
       | Some s =>
           if active s && (sock_fd_max st' <? sock s)
           then set_sock_fd_max (sock s) st' else st'
       | None => st'
       end)
    (set_sock_fd_max (bind_sock cfg) st).

Definition UPDATE_SOCK_FD_MAX_ADD (fd : Z) (st : um_state) : um_state :=
  if sock_fd_max st <? fd then set_sock_fd_max fd st else st.

Definition UPDATE_SOCK_FD_MAX_RM (cfg : um_config) (fd : Z) (st : um_state)
  : um_state :=
  if sock_fd_max st <=? fd then update_sock_fd_max cfg st else st.

(** ** sockaddr_in_cmp *)

Definition sockaddr_in_cmp (a b : sockaddr_in) : Z :=
  let af_cmp := sint32 (sin_family a - sin_family b) in
  if negb (af_cmp =? 0) then af_cmp
  else
    let port_cmp := sint32 (sin_port a - sin_port b) in
    if negb (port_cmp =? 0) then port_cmp
    else
      let in_addr_cmp := sint64 (uint32 (s_addr a - s_addr b)) in
      if negb (in_addr_cmp =? 0) then sint32 in_addr_cmp
      else 0.

(** The search at the head of the listening-socket branch of [start]:
    the first slot in use whose [from] compares equal, or -1. *)
Fixpoint start_lookup_from (n i : nat) (recv_addr : sockaddr_in)
    (m : list um_sockmap) : Z :=
  match n with
  | O => -1
  | Datatypes.S n' =>
      match m !! i with
      | Some s =>
          if active s && (sockaddr_in_cmp recv_addr (from s) =? 0)
          then Z.of_nat i
          else start_lookup_from n' (Datatypes.S i) recv_addr m
      | None => -1
      end
  end.

Definition start_lookup (recv_addr : sockaddr_in) (m : list um_sockmap) : Z :=
  start_lookup_from (length m) 0 recv_addr m.

(** [map[idx].sock]. *)
Definition slot_sock (idx : nat) (st : um_state) : Z :=
  match map st !! idx with Some s => sock s | None => 0 end.

Section UdpMask.

(** [udpmask.h] and [transform.h] are not part of the translation unit:
    the value of [TIME_INVALID] and the function [transform] are taken as
    given.  [transform mode buf tlimit] is the content of the output buffer,
    [outbuflen] bytes long, that the call leaves behind. *)
Variable TIME_INVALID : Z.
Variable transform : um_mode -> list Byte.byte -> Z -> list Byte.byte.

(** ** um_sockmap *)

(** [UPDATE_LAST_USE(idx)], with [time(NULL)] returning [time_val]. *)
Definition UPDATE_LAST_USE (idx : nat) (time_val : Z) (st : um_state)
  : um_state :=
  let st := emit (EvTime time_val) st in
  if negb (time_val =? TIME_INVALID)
  then set_map (alter (with_last_use time_val) idx (map st)) st
  else st.

Definition new_slot (fd : Z) (addr : sockaddr_in) : um_sockmap :=
  {| in_use := 1; sock := fd; last_use := TIME_INVALID; from := addr |}.

(** The loop of [um_sockmap_ins]: the value of [i] when the loop is left,
    and the table. *)
Fixpoint ins_loop (n i : nat) (fd : Z) (addr : sockaddr_in)
    (m : list um_sockmap) : nat * list um_sockmap :=
  match n with
  | O => (i, m)
  | Datatypes.S n' =>
      match m !! i with
      | Some s =>
          if in_use s =? 0
          then (i, <[i := new_slot fd addr]> m)
          else ins_loop n' (Datatypes.S i) fd addr m
      | None => (i, m)
      end
  end.

Definition um_sockmap_ins (fd : Z) (addr : sockaddr_in) (st : um_state)
  : Z * um_state :=
  let '(i, m) := ins_loop (length (map st)) 0 fd addr (map st) in
  if (length (map st) <=? i)%nat
  then (-1, set_map m st)
  else (Z.of_nat i, set_map m st).

(** The condition under which [um_sockmap_clean] purges a slot.  The
    difference of the two [time_t] values is the difference of integers:
    times are seconds since the epoch, or [TIME_INVALID], and their
    difference does not overflow. *)
Definition stale (cfg : um_config) (time_val : Z) (s : um_sockmap) : bool :=
  active s &&
  ((last_use s =? TIME_INVALID) || (timeout cfg <=? time_val - last_use s)).

(** One turn of the loop of [um_sockmap_clean], on [purged] and the state. *)
Definition clean_body (cfg : um_config) (time_val : Z) (i : nat)
    (ps : Z * um_state) : Z * um_state :=
  let '(purged, st) := ps in
  match map st !! i with
  | Some s =>
      if stale cfg time_val s
      then
        let st := set_map (<[i := with_in_use 0 s]> (map st)) st in
        let st := sys_close (sock s) st in
        let st := FD_CLR (sock s) st in
        let st := UPDATE_SOCK_FD_MAX_RM cfg (sock s) st in
        let st := emit (EvLog (LogPurged (from s))) st in
        (if purged =? 0 then 1 else purged, st)
      else (purged, st)
  | None => (purged, st)
  end.

(** [um_sockmap_clean(&active_fd_set)], with [time(NULL)] returning
    [time_val] if it is called. *)
Definition um_sockmap_clean (cfg : um_config) (time_val : Z) (st : um_state)
  : Z * um_state :=
  if timeout cfg <=? 0 then (0, st)
  else
    let st := emit (EvTime time_val) st in
    for_loop (length (map st)) 0 (clean_body cfg time_val) (0, st).

(** ** The main loop *)

(** What the outside answers during one iteration of the loop of [start]. *)
Record iter_input := {
  in_select_ret : Z;                 (* select() *)
  in_read_fd_set : gset Z;           (* read_fd_set after select() *)
  in_recvfrom_ret : Z;               (* recvfrom(bind_sock, ...) *)
  in_recvfrom_buf : list Byte.byte;  (* buf after recvfrom() *)
  in_recvfrom_addr : sockaddr_in;    (* recv_addr after recvfrom() *)
  in_new_sock : Z;                   (* NEW_SOCK() *)
  in_time_reap : Z;                  (* time() in um_sockmap_clean *)
  in_time_listen : Z;                (* time() after send() *)
  in_recv : nat -> Z * list Byte.byte;   (* recv(map[i].sock, ...) and buf *)
  in_time_sess : nat -> Z;           (* time() after recv() on slot i *)
  in_signals : list Z                (* signals delivered in the iteration *)
}.

(** Lines 221-249: no slot matched [recv_addr].  The result is [sock_idx],
    [clean_up_trigged] and the state. *)
Definition new_connection (cfg : um_config) (inp : iter_input)
    (st : um_state) : Z * bool * um_state :=
  let recv_addr := in_recvfrom_addr inp in
  let st := emit (EvLog (LogNewConn recv_addr)) st in
  let tmp_sock := in_new_sock inp in
  let st := sys_socket tmp_sock st in
  if tmp_sock <? 0 then (-1, false, emit (EvLog LogSocketErr) st)
  else
    let st := snd (um_sockmap_clean cfg (in_time_reap inp) st) in
    let '(sock_idx, st) := um_sockmap_ins tmp_sock recv_addr st in
    if 0 <=? sock_idx then
      let st := FD_SET tmp_sock st in
      let st := emit (EvConnect tmp_sock (conn_addr cfg)) st in
      let st := UPDATE_SOCK_FD_MAX_ADD tmp_sock st in
      (sock_idx, true, st)
    else
      (sock_idx, true, emit (EvLog (LogMaxClients recv_addr)) st).

(** Lines 252-257: transform in place and send upstream. *)
Definition forward_upstream (mode : um_mode) (cfg : um_config)
    (inp : iter_input) (buf : list Byte.byte) (sock_idx : Z)
    (st : um_state) : um_state :=
  if 0 <=? sock_idx then
    let out := transform mode buf (tlimit cfg) in
    let st := emit (EvSend (slot_sock (Z.to_nat sock_idx) st) out) st in
    UPDATE_LAST_USE (Z.to_nat sock_idx) (in_time_listen inp) st
  else st.

(** Lines 204-259: the listening socket. *)
Definition dispatch_listen (mode : um_mode) (cfg : um_config)
    (inp : iter_input) (st : um_state) : bool * um_state :=
  if bool_decide (bind_sock cfg ∈ in_read_fd_set inp) then
    let ret := in_recvfrom_ret inp in
    let st := emit (EvRecvfrom (bind_sock cfg) ret) st in
    if 0 <? ret then
      let buf := take (Z.to_nat ret) (in_recvfrom_buf inp) in
      let sock_idx := start_lookup (in_recvfrom_addr inp) (map st) in
      let '(sock_idx, trigged, st) :=
        if sock_idx <? 0 then new_connection cfg inp st
        else (sock_idx, false, st) in
      (trigged, forward_upstream mode cfg inp buf sock_idx st)
    else (false, st)
  else (false, st).

(** Lines 261-276, one slot. *)
Definition drain_body (mode : um_mode) (cfg : um_config) (inp : iter_input)
    (i : nat) (st : um_state) : um_state :=
  match map st !! i with
  | Some s =>
      if active s && bool_decide (sock s ∈ in_read_fd_set inp) then
        let '(ret, rbuf) := in_recv inp i in
        let st := emit (EvRecv (sock s) ret) st in
        if 0 <? ret then
          let st := UPDATE_LAST_USE i (in_time_sess inp i) st in
          let out := transform mode (take (Z.to_nat ret) rbuf) (tlimit cfg) in
          emit (EvSendto (bind_sock cfg) out (from s)) st
        else st
      else st
  | None => st
  end.

Definition drain_sessions (mode : um_mode) (cfg : um_config)
    (inp : iter_input) (st : um_state) : um_state :=
  for_loop (length (map st)) 0 (drain_body mode cfg inp) st.

(** Lines 278-280. *)
Definition maintain (cfg : um_config) (inp : iter_input)
    (clean_up_trigged : bool) (st : um_state) : um_state :=
  if clean_up_trigged then st
  else snd (um_sockmap_clean cfg (in_time_reap inp) st).

(** The body of [while (!signal_term)]. *)
Definition loop_body (mode : um_mode) (cfg : um_config) (inp : iter_input)
    (st : um_state) : um_state :=
  let select_ret := in_select_ret inp in
  let st := emit (EvSelect (sock_fd_max st + 1) select_ret) st in
  if select_ret <=? 0 then emit (EvLog (LogSelect select_ret)) st
  else
    let '(clean_up_trigged, st) := dispatch_listen mode cfg inp st in
    let st := drain_sessions mode cfg inp st in
    maintain cfg inp clean_up_trigged st.

(** [sighanlder(signum)], on [signal_term]. *)
Definition SIGHUP : Z := 1.
Definition SIGINT : Z := 2.
Definition SIGTERM : Z := 15.

Definition sighanlder (signal_term : Z) (signum : Z) : Z :=
  if (signum =? SIGHUP) || (signum =? SIGINT) || (signum =? SIGTERM)
  then 1 else signal_term.

(** Lines 283-289: the clean up after the loop. *)
Definition cleanup_body (i : nat) (st : um_state) : um_state :=
  match map st !! i with
  | Some s =>
      if active s
      then sys_close (sock s) (set_map (<[i := with_in_use 0 s]> (map st)) st)
      else st
  | None => st
  end.

Definition cleanup (st : um_state) : um_state :=
  for_loop (length (map st)) 0 cleanup_body st.

(** [while (!signal_term) { ... }] followed by the clean up and
    [return 0].  The outside is a script with one entry per iteration;
    [None] when the script ends while the loop is still running. *)
Fixpoint start_loop (mode : um_mode) (cfg : um_config)
    (inputs : list iter_input) (signal_term : Z) (st : um_state)
  : option (Z * um_state) :=
  if negb (signal_term =? 0) then Some (0, cleanup st)
  else
    match inputs with
    | [] => None
    | inp :: rest =>
        start_loop mode cfg rest
          (foldl sighanlder signal_term (in_signals inp))
          (loop_body mode cfg inp st)
    end.

(** [start(mode)]. *)
Definition start (mode : um_mode) (cfg : um_config)
    (inputs : list iter_input) (signal_term : Z) (st : um_state)
  : option (Z * um_state) :=
  let st := set_active_fd_set {[bind_sock cfg]} st in
  let st := emit (EvLog (LogTimeout (timeout cfg))) st in
  let st := update_sock_fd_max cfg st in
  start_loop mode cfg inputs signal_term st.

End UdpMask.

(** * The entry point *)

(** Conversion to [uint16_t]. *)
Definition uint16 (z : Z) : Z := z mod 2 ^ 16.

(** One call of [getopt] that returns an option: the option, [optarg], and
    what the library call made in that case of the [switch] returns. *)
Inductive getopt_result :=
| Opt_m (optarg : string)
| Opt_s (optarg : string) (load_mask_ret : Z)
| Opt_l (optarg : string) (inet_pton_ret : Z) (inet_pton_addr : Z)
| Opt_p (optarg : string)
| Opt_c (optarg : string) (rh : option Z)   (* h_addr_list[0], or NULL *)
| Opt_o (optarg : string)
| Opt_t (optarg : string)
| Opt_d
| Opt_P (optarg : string)
| Opt_L (optarg : string)
| Opt_h.                                    (* 'h', '?' and the default *)

(** The calls [main] makes, in program order. *)
Inductive main_event :=
| MPerror (s : string)
| MHerror (s : string)
| MUsage
| MSocket (r : Z)
| MSignal (signum : Z)
| MFork (r : Z)
| MUmask
| MSetsid (r : Z)
| MChdir (r : Z)
| MClose (fd : Z)
| MPidfile (path : string) (opened : bool)
| MStartlog
| MLogBind (addr port : Z)
| MBind (fd : Z) (a : sockaddr_in) (r : Z)
| MLogBindErr
| MLogRemote (addr port : Z)
| MStart (mode : um_mode) (cfg : um_config)
| MUnloadMask
| MEndlog.

(** The variables the option loop of [main] writes: its locals, and the
    file-scope [timeout] and [tlimit]. *)
Record main_vars := {
  m_mode : um_mode;
  m_addr : Z;
  m_port : Z;
  m_addr_conn : Z;
  m_port_conn : Z;
  m_pidfile : option string;
  m_show_usage : Z;
  m_daemonize : Z;
  m_timeout : Z;
  m_tlimit : Z
}.

Definition with_mode (x : um_mode) (v : main_vars) : main_vars :=
  {| m_mode := x; m_addr := m_addr v; m_port := m_port v;
     m_addr_conn := m_addr_conn v; m_port_conn := m_port_conn v;
     m_pidfile := m_pidfile v; m_show_usage := m_show_usage v;
     m_daemonize := m_daemonize v; m_timeout := m_timeout v;
     m_tlimit := m_tlimit v |}.

Definition with_addr (x : Z) (v : main_vars) : main_vars :=
  {| m_mode := m_mode v; m_addr := x; m_port := m_port v;
     m_addr_conn := m_addr_conn v; m_port_conn := m_port_conn v;
     m_pidfile := m_pidfile v; m_show_usage := m_show_usage v;
     m_daemonize := m_daemonize v; m_timeout := m_timeout v;
     m_tlimit := m_tlimit v |}.

Definition with_port (x : Z) (v : main_vars) : main_vars :=
  {| m_mode := m_mode v; m_addr := m_addr v; m_port := x;
     m_addr_conn := m_addr_conn v; m_port_conn := m_port_conn v;
     m_pidfile := m_pidfile v; m_show_usage := m_show_usage v;
     m_daemonize := m_daemonize v; m_timeout := m_timeout v;
     m_tlimit := m_tlimit v |}.

Definition with_addr_conn (x : Z) (v : main_vars) : main_vars :=
  {| m_mode := m_mode v; m_addr := m_addr v; m_port := m_port v;
     m_addr_conn := x; m_port_conn := m_port_conn v;
     m_pidfile := m_pidfile v; m_show_usage := m_show_usage v;
     m_daemonize := m_daemonize v; m_timeout := m_timeout v;
     m_tlimit := m_tlimit v |}.

Definition with_port_conn (x : Z) (v : main_vars) : main_vars :=
  {| m_mode := m_mode v; m_addr := m_addr v; m_port := m_port v;
     m_addr_conn := m_addr_conn v; m_port_conn := x;
     m_pidfile := m_pidfile v; m_show_usage := m_show_usage v;
     m_daemonize := m_daemonize v; m_timeout := m_timeout v;
     m_tlimit := m_tlimit v |}.

Definition with_pidfile (x : option string) (v : main_vars) : main_vars :=
  {| m_mode := m_mode v; m_addr := m_addr v; m_port := m_port v;
     m_addr_conn := m_addr_conn v; m_port_conn := m_port_conn v;
     m_pidfile := x; m_show_usage := m_show_usage v;
     m_daemonize := m_daemonize v; m_timeout := m_timeout v;
     m_tlimit := m_tlimit v |}.

Definition with_show_usage (x : Z) (v : main_vars) : main_vars :=
  {| m_mode := m_mode v; m_addr := m_addr v; m_port := m_port v;
     m_addr_conn := m_addr_conn v; m_port_conn := m_port_conn v;
     m_pidfile := m_pidfile v; m_show_usage := x;
     m_daemonize := m_daemonize v; m_timeout := m_timeout v;
     m_tlimit := m_tlimit v |}.

Definition with_daemonize (x : Z) (v : main_vars) : main_vars :=
  {| m_mode := m_mode v; m_addr := m_addr v; m_port := m_port v;
     m_addr_conn := m_addr_conn v; m_port_conn := m_port_conn v;
     m_pidfile := m_pidfile v; m_show_usage := m_show_usage v;
     m_daemonize := x; m_timeout := m_timeout v;
     m_tlimit := m_tlimit v |}.

Definition with_timeout (x : Z) (v : main_vars) : main_vars :=
  {| m_mode := m_mode v; m_addr := m_addr v; m_port := m_port v;
     m_addr_conn := m_addr_conn v; m_port_conn := m_port_conn v;
     m_pidfile := m_pidfile v; m_show_usage := m_show_usage v;
     m_daemonize := m_daemonize v; m_timeout := x;
     m_tlimit := m_tlimit v |}.

Definition with_tlimit (x : Z) (v : main_vars) : main_vars :=
  {| m_mode := m_mode v; m_addr := m_addr v; m_port := m_port v;
     m_addr_conn := m_addr_conn v; m_port_conn := m_port_conn v;
     m_pidfile := m_pidfile v; m_show_usage := m_show_usage v;
     m_daemonize := m_daemonize v; m_timeout := m_timeout v;
     m_tlimit := x |}.

(** What the outside gives to one run of [main], followed in one process:
    the options [getopt] returns before -1, [mask_loaded] as line 393 reads
    it, the results of [NEW_SOCK], [fork], [setsid], [chdir], [fopen] and
    [bind], the signals delivered between the installation of the handlers
    and the first test of the loop, the script of the loop, and the
    descriptors open when [main] is entered. *)
Record main_input := {
  in_getopt : list getopt_result;
  in_mask_loaded : Z;
  in_bind_sock : Z;
  in_fork : Z;
  in_setsid : Z;
  in_chdir : Z;
  in_fopen : bool;
  in_bind : Z;
  in_pending : list Z;
  in_loop : list iter_input;
  in_open : gset Z
}.

(** The call of [start] that [main] makes: its arguments and the state it
    leaves. *)
Record start_call := {
  sc_mode : um_mode;
  sc_cfg : um_config;
  sc_signal_term : Z;
  sc_entry : um_state;
  sc_exit : um_state
}.

(** What [main] leaves: the value it returns, the calls it made, the
    descriptors still open, and its call of [start] if it made one. *)
Record main_result := {
  res_ret : Z;
  res_trace : list main_event;
  res_open : gset Z;
  res_start : option start_call
}.

(** A slot of the table after [memset(map, 0, sizeof(map))]. *)
Definition zero_slot : um_sockmap :=
  {| in_use := 0; sock := 0; last_use := 0;
     from := {| sin_family := 0; sin_port := 0; s_addr := 0 |} |}.

Definition STDIN_FILENO : Z := 0.
Definition STDOUT_FILENO : Z := 1.
Definition STDERR_FILENO : Z := 2.

Section Main.

(** The constants of [udpmask.h] and of the system headers, the external
    [transform], and [atoi] and [htons] of the C library. *)
Variable TIME_INVALID : Z.
Variable transform : um_mode -> list Byte.byte -> Z -> list Byte.byte.
Variables UM_TIMEOUT UM_SERVER_PORT UM_CLIENT_PORT AF_INET INADDR_ANY : Z.
Variable UM_MAX_CLIENT : nat.
Variable atoi : string -> Z.
Variable htons : Z -> Z.

(** Lines 301-312 and the initialisers of lines 23 and 25. *)
Definition main_init : main_vars :=
  {| m_mode := UM_MODE_NONE; m_addr := INADDR_ANY; m_port := 0;
     m_addr_conn := 0; m_port_conn := 0; m_pidfile := None;
     m_show_usage := 0; m_daemonize := 0; m_timeout := UM_TIMEOUT;
     m_tlimit := -1 |}.

(** Lines 317-390, one pass through the [switch]: the variables after it,
    or the call made before [goto exit]. *)
Definition main_option (o : getopt_result) (v : main_vars)
  : main_vars + main_event :=
  match o with
  | Opt_m optarg =>
      if String.eqb optarg "server" then inl (with_mode UM_MODE_SERVER v)
      else if String.eqb optarg "client" then
        inl (with_mode UM_MODE_CLIENT v)
      else inl (with_show_usage 1 v)
  | Opt_s _ r =>
      if r <? 0 then inl (with_show_usage 1 v) else inl v
  | Opt_l _ r a =>
      if r =? 0 then inl (with_show_usage 1 v)
      else if r <? 0 then inr (MPerror "inet_pton()")
      else inl (with_addr a v)
  | Opt_p optarg => inl (with_port (uint16 (atoi optarg)) v)
  | Opt_c _ rh =>
      match rh with
      | None => inr (MHerror "gethostbyname2()")
      | Some a => inl (with_addr_conn a v)
      end
  | Opt_o optarg => inl (with_port_conn (uint16 (atoi optarg)) v)
  | Opt_t optarg =>
      let r := atoi optarg in
      if 0 <=? r then inl (with_timeout r v) else inl v
  | Opt_d => inl (with_daemonize 1 v)
  | Opt_P optarg => inl (with_pidfile (Some optarg) v)
  | Opt_L optarg => inl (with_tlimit (atoi optarg) v)
  | Opt_h => inl (with_show_usage 1 v)
  end.

(** Lines 316-391. *)
Fixpoint getopt_loop (opts : list getopt_result) (v : main_vars)
  : main_vars + main_event :=
  match opts with
  | [] => inl v
  | o :: rest =>
      match main_option o v with
      | inl v' => getopt_loop rest v'
      | inr e => inr e
      end
  end.

(** Lines 499-502, the label [exit]. *)
Definition main_exit (ret bind_sock : Z) (open : gset Z)
    (tr : list main_event) (call : option start_call) : main_result :=
  {| res_ret := ret;
     res_trace := tr ++ [MClose bind_sock; MEndlog];
     res_open := open ∖ {[bind_sock]};
     res_start := call |}.

(** Lines 431-472: the descriptors and the trace of the process that goes
    on to line 474, or the value of [ret] and the trace at [goto exit]. *)
Definition main_daemonize (inp : main_input) (v : main_vars)
    (open : gset Z) (tr : list main_event)
  : (gset Z * list main_event) + (Z * list main_event) :=
  if m_daemonize v =? 0 then inl (open, tr)
  else
    let tr := tr ++ [MFork (in_fork inp)] in
    if in_fork inp <? 0 then inr (1, tr ++ [MPerror "fork()"])
    else if 0 <? in_fork inp then inr (0, tr)
    else
      let tr := tr ++ [MUmask; MSetsid (in_setsid inp)] in
      if in_setsid inp <? 0 then inr (1, tr ++ [MPerror "setsid()"])
      else
        let tr := tr ++ [MChdir (in_chdir inp)] in
        if in_chdir inp <? 0 then inr (1, tr ++ [MPerror "chdir()"])
        else
          let tr := tr ++ [MClose STDIN_FILENO; MClose STDOUT_FILENO;
                           MClose STDERR_FILENO] in
          let open :=
            open ∖ {[STDIN_FILENO]} ∖ {[STDOUT_FILENO]}
                 ∖ {[STDERR_FILENO]} in
          let pidfile :=
            match m_pidfile v with
            | None => "/var/run/udpmask.pid"%string
            | Some p => p
            end in
          inl (open, tr ++ [MPidfile pidfile (in_fopen inp)]).

(** [main], from line 296 on.  [None]: the script of the loop ends while
    [start] is still running. *)
Definition main (inp : main_input) : option main_result :=
  match getopt_loop (in_getopt inp) main_init with
  | inr e => Some (main_exit 1 (-1) (in_open inp) [e] None)
  | inl v =>
      let show_usage :=
        if (in_mask_loaded inp =? 0) || (m_port_conn v =? 0)
           || (m_addr_conn v =? 0)
        then 1 else m_show_usage v in
      let bind_sock := in_bind_sock inp in
      let tr := [MSocket bind_sock] in
      if bind_sock <? 0 then
        Some (main_exit 1 bind_sock (in_open inp)
                (tr ++ [MPerror "socket()"]) None)
      else
        let open := in_open inp ∪ {[bind_sock]} in
        let '(port, show_usage) :=
          match m_mode v with
          | UM_MODE_SERVER =>
              (if m_port v =? 0 then uint16 UM_SERVER_PORT else m_port v,
               show_usage)
          | UM_MODE_CLIENT =>
              (if m_port v =? 0 then uint16 UM_CLIENT_PORT else m_port v,
               show_usage)
          | UM_MODE_NONE => (m_port v, 1)
          end in
        if negb (show_usage =? 0) then
          Some (main_exit 1 bind_sock open (tr ++ [MUsage]) None)
        else
          let tr := tr ++ [MSignal SIGHUP; MSignal SIGINT;
                           MSignal SIGTERM] in
          match main_daemonize inp v open tr with
          | inr (ret, tr) => Some (main_exit ret bind_sock open tr None)
          | inl (open, tr) =>
              let bind_addr :=
                {| sin_family := AF_INET; sin_port := htons port;
                   s_addr := m_addr v |} in
              let tr := tr ++ [MStartlog; MLogBind (m_addr v) port;
                               MBind bind_sock bind_addr (in_bind inp)] in
              if negb (in_bind inp =? 0) then
                Some (main_exit 1 bind_sock open (tr ++ [MLogBindErr])
                        None)
              else
                let cfg :=
                  {| bind_sock := bind_sock;
                     conn_addr :=
                       {| sin_family := AF_INET;
                          sin_port := htons (m_port_conn v);
                          s_addr := m_addr_conn v |};
                     timeout := m_timeout v;
                     tlimit := m_tlimit v |} in
                let tr := tr ++ [MLogRemote (m_addr_conn v)
                                   (m_port_conn v)] in
                let signal_term := foldl sighanlder 0 (in_pending inp) in
                let st :=
                  {| map := replicate UM_MAX_CLIENT zero_slot;
                     sock_fd_max := -1;
                     active_fd_set := ∅;
                     open_fds := open;
                     trace := [] |} in
                match start TIME_INVALID transform (m_mode v) cfg
                        (in_loop inp) signal_term st with
                | None => None
                | Some (ret, st') =>
                    Some (main_exit ret bind_sock (open_fds st')
                            (tr ++ [MStart (m_mode v) cfg; MUnloadMask])
                            (Some {| sc_mode := m_mode v; sc_cfg := cfg;
                                     sc_signal_term := signal_term;
                                     sc_entry := st; sc_exit := st' |}))
                end
          end
  end.

End Main.

(** * Vocabulary of the properties *)

(** Agreement on family, port and numeric address. *)
Definition same_addr (a b : sockaddr_in) : Prop :=
  sin_family a = sin_family b /\ sin_port a = sin_port b /\
  s_addr a = s_addr b.

(** The test of the lookup loop on one slot. *)
Definition hit (a : sockaddr_in) (s : um_sockmap) : bool :=
  active s && (sockaddr_in_cmp a (from s) =? 0).

(** A slot is a match for [a]: it is in use and its stored address agrees
    with [a] on family, port and numeric address. *)
Definition matches (a : sockaddr_in) (s : um_sockmap) : Prop :=
  active s = true /\ same_addr a (from s).

(** Insert a sequence of sessions, one [um_sockmap_ins] after the other,
    collecting the values returned. *)
Fixpoint ins_all (TIME_INVALID : Z) (reqs : list (Z * sockaddr_in))
    (st : um_state) : list Z * um_state :=
  match reqs with
  | [] => ([], st)
  | (fd, addr) :: rest =>
      let '(r, st1) := um_sockmap_ins TIME_INVALID fd addr st in
      let '(rs, st2) := ins_all TIME_INVALID rest st1 in
      (r :: rs, st2)
  end.

(** ** A concrete relay *)

(** A relay with [TIME_INVALID] = -1, listening on descriptor 3, with an
    idle timeout of 5 seconds; a transform that shifts every byte up in one
    mode and down in the other. *)

Definition ex_TIME_INVALID : Z := -1.

Definition byte_succ (b : Byte.byte) : Byte.byte :=
  match Byte.of_N ((Byte.to_N b + 1) mod 256)%N with
  | Some b' => b'
  | None => b
  end.

Definition byte_pred (b : Byte.byte) : Byte.byte :=
  match Byte.of_N ((Byte.to_N b + 255) mod 256)%N with
  | Some b' => b'
  | None => b
  end.

Definition ex_transform (m : um_mode) (x : list Byte.byte) (limit : Z)
  : list Byte.byte :=
  match m with
  | UM_MODE_NONE => x
  | UM_MODE_SERVER => byte_succ <$> x
  | UM_MODE_CLIENT => byte_pred <$> x
  end.

Definition ex_remote : sockaddr_in :=
  {| sin_family := 2; sin_port := 51194; s_addr := 167772260 |}.
Definition ex_c1 : sockaddr_in :=
  {| sin_family := 2; sin_port := 40000; s_addr := 167772161 |}.
Definition ex_c2 : sockaddr_in :=
  {| sin_family := 2; sin_port := 40001; s_addr := 167772162 |}.
Definition ex_c3 : sockaddr_in :=
  {| sin_family := 2; sin_port := 40001; s_addr := 167772163 |}.

Definition ex_cfg : um_config :=
  {| bind_sock := 3; conn_addr := ex_remote; timeout := 5; tlimit := -1 |}.

Definition ex_cfg_off : um_config :=
  {| bind_sock := 3; conn_addr := ex_remote; timeout := 0; tlimit := -1 |}.

Definition ex_free : um_sockmap :=
  {| in_use := 0; sock := 0; last_use := 0;
     from := {| sin_family := 0; sin_port := 0; s_addr := 0 |} |}.

(** A session of [ex_c1] last used at time 10 and one of [ex_c2] last used
    at time 98, in a table of three slots. *)
Definition ex_old : um_sockmap :=
  {| in_use := 1; sock := 5; last_use := 10; from := ex_c1 |}.
Definition ex_recent : um_sockmap :=
  {| in_use := 1; sock := 6; last_use := 98; from := ex_c2 |}.

Definition ex_st : um_state :=
  {| map := [ex_old; ex_recent; ex_free]; sock_fd_max := 6;
     active_fd_set := {[3; 5; 6]}; open_fds := {[0; 1; 2; 3; 5; 6]};
     trace := [] |}.

(** A table of one slot, taken by a session of [ex_c1] used at time 99. *)
Definition ex_full : um_state :=
  {| map := [{| in_use := 1; sock := 5; last_use := 99; from := ex_c1 |}];
     sock_fd_max := 5; active_fd_set := {[3; 5]};
     open_fds := {[0; 1; 2; 3; 5]}; trace := [] |}.

(** The same with the session last used at time 10. *)
Definition ex_full_old : um_state :=
  {| map := [ex_old]; sock_fd_max := 5; active_fd_set := {[3; 5]};
     open_fds := {[0; 1; 2; 3; 5]}; trace := [] |}.

Definition ex_payload : list Byte.byte := [Byte.x68; Byte.x69; Byte.xff].

(** An iteration at time 100: one datagram from [ex_c3] on the listening
    socket, [NEW_SOCK()] returns 7, no session socket is readable. *)
Definition ex_inp : iter_input :=
  {| in_select_ret := 1; in_read_fd_set := {[3]};
     in_recvfrom_ret := 3; in_recvfrom_buf := ex_payload;
     in_recvfrom_addr := ex_c3; in_new_sock := 7;
     in_time_reap := 100; in_time_listen := 100;
     in_recv := fun _ => (0, []); in_time_sess := fun _ => 100;
     in_signals := [] |}.


(** The reply to the datagram of [ex_inp]: the remote sends back, on
    session socket 7, the three bytes it received. *)
Definition ex_inp_echo : iter_input :=
  {| in_select_ret := 1; in_read_fd_set := {[7]};
     in_recvfrom_ret := 0; in_recvfrom_buf := [];
     in_recvfrom_addr := ex_c3; in_new_sock := -1;
     in_time_reap := 101; in_time_listen := 101;
     in_recv := fun _ => (3, [Byte.x69; Byte.x6a; Byte.x00]);
     in_time_sess := fun _ => 101;
     in_signals := [] |}.

(** The relay as [start] finds it: two free slots, descriptors 0 to 3
    open. *)
Definition ex_init : um_state :=
  {| map := [ex_free; ex_free]; sock_fd_max := -1; active_fd_set := ∅;
     open_fds := {[0; 1; 2; 3]}; trace := [] |}.

(** A second datagram of [ex_c2], which has a session in [ex_st]. *)
Definition ex_inp_known : iter_input :=
  {| in_select_ret := 1; in_read_fd_set := {[3]};
     in_recvfrom_ret := 3; in_recvfrom_buf := ex_payload;
     in_recvfrom_addr := ex_c2; in_new_sock := -1;
     in_time_reap := 100; in_time_listen := 100;
     in_recv := fun _ => (0, []); in_time_sess := fun _ => 100;
     in_signals := [] |}.

(** An iteration in which [select] is interrupted by [SIGTERM]. *)
Definition ex_inp_term : iter_input :=
  {| in_select_ret := -1; in_read_fd_set := ∅;
     in_recvfrom_ret := 0; in_recvfrom_buf := [];
     in_recvfrom_addr := ex_c3; in_new_sock := -1;
     in_time_reap := 102; in_time_listen := 102;
     in_recv := fun _ => (0, []); in_time_sess := fun _ => 102;
     in_signals := [SIGTERM] |}.

(** A run of three iterations: a datagram of a new client, the reply of the
    remote, the signal. *)
Definition ex_run : list iter_input := [ex_inp; ex_inp_echo; ex_inp_term].

(** Two addresses whose numeric parts are 2^31 apart. *)
Definition ex_far : sockaddr_in :=
  {| sin_family := 2; sin_port := 40000; s_addr := 2147483649 |}.
Definition ex_near : sockaddr_in :=
  {| sin_family := 2; sin_port := 40000; s_addr := 1 |}.

(** [atoi] on an optional minus sign followed by decimal digits, and
    [htons] on a little-endian host. *)
Definition ex_digit (c : Ascii.ascii) : option Z :=
  let n := Z.of_N (Ascii.N_of_ascii c) in
  if (48 <=? n) && (n <=? 57) then Some (n - 48) else None.

Fixpoint ex_digits (acc : Z) (s : string) : Z :=
  match s with
  | EmptyString => acc
  | String c s' =>
      match ex_digit c with
      | Some d => ex_digits (acc * 10 + d) s'
      | None => acc
      end
  end.

Definition ex_atoi (s : string) : Z :=
  match s with
  | String c s' =>
      if (Ascii.N_of_ascii c =? 45)%N   (* the minus sign *)
      then - ex_digits 0 s' else ex_digits 0 s
  | EmptyString => 0
  end.

Definition ex_htons (p : Z) : Z := (p mod 256) * 256 + p / 256.

(** [udpmask -m server -s secret -c 10.0.0.100 -o 51194 -t -3 -t 5], started
    with the standard descriptors open, running [ex_run]. *)
Definition ex_main_inp : main_input :=
  {| in_getopt := [Opt_m "server"; Opt_s "secret" 0;
                   Opt_c "10.0.0.100" (Some 167772260); Opt_o "51194";
                   Opt_t "-3"; Opt_t "5"];
     in_mask_loaded := 1;
     in_bind_sock := 3;
     in_fork := 0; in_setsid := 0; in_chdir := 0; in_fopen := true;
     in_bind := 0;
     in_pending := [];
     in_loop := ex_run;
     in_open := {[0; 1; 2]} |}.

(** The same with [-h] added. *)
Definition ex_main_inp_help : main_input :=
  {| in_getopt := in_getopt ex_main_inp ++ [Opt_h];
     in_mask_loaded := 1;
     in_bind_sock := 3;
     in_fork := 0; in_setsid := 0; in_chdir := 0; in_fopen := true;
     in_bind := 0;
     in_pending := [];
     in_loop := ex_run;
     in_open := {[0; 1; 2]} |}.

(** [main] with a default timeout of 300, default ports 51194 and 61194,
    [AF_INET] 2, [INADDR_ANY] 0 and a table of two slots. *)
Definition ex_main : main_input -> option main_result :=
  main ex_TIME_INVALID ex_transform 300 51194 61194 2 0 2 ex_atoi ex_htons.

(** The command line of [ex_main_inp] with [-p 65536] in front. *)
Definition ex_main_inp_port : main_input :=
  {| in_getopt := Opt_p "65536" :: in_getopt ex_main_inp;
     in_mask_loaded := 1;
     in_bind_sock := 3;
     in_fork := 0; in_setsid := 0; in_chdir := 0; in_fopen := true;
     in_bind := 0;
     in_pending := [];
     in_loop := ex_run;
     in_open := {[0; 1; 2]} |}.

Section Properties.

Variable TIME_INVALID : Z.
Variable transform : um_mode -> list Byte.byte -> Z -> list Byte.byte.

(** The slot after the reaper has looked at it. *)
Definition reap_slot (cfg : um_config) (time_val : Z) (s : um_sockmap)
  : um_sockmap :=
  if stale TIME_INVALID cfg time_val s then with_in_use 0 s else s.

(** The slots the reaper purges, in table order. *)
Definition stale_slots (cfg : um_config) (time_val : Z)
    (m : list um_sockmap) : list um_sockmap :=
  filter (fun s => stale TIME_INVALID cfg time_val s = true) m.

(** What purging them shows to the outside. *)
Definition purge_events (l : list um_sockmap) : list event :=
  l ≫= (fun s => [EvClose (sock s); EvLog (LogPurged (from s))]).

Definition socks_of (l : list um_sockmap) : gset Z :=
  list_to_set (sock <$> l).

Definition purged_flag (l : list um_sockmap) : Z :=
  match l with [] => 0 | _ :: _ => 1 end.

(** A slot after the clean up at the end of [start]. *)
Definition free_slot (s : um_sockmap) : um_sockmap :=
  if active s then with_in_use 0 s else s.

Definition active_slots (m : list um_sockmap) : list um_sockmap :=
  filter (fun s => active s = true) m.

(** Two sessions in use with different client addresses sit in different
    slots and hold different sockets, and one client address has at most
    one session in use. *)
Definition table_inv (m : list um_sockmap) : Prop :=
  forall i j si sj,
    m !! i = Some si -> m !! j = Some sj ->
    in_use si <> 0 -> in_use sj <> 0 ->
    (from si <> from sj -> i <> j /\ sock si <> sock sj) /\
    (from si = from sj -> i = j).

(** The same, slot by slot. *)
Definition sessions_distinct (m : list um_sockmap) : Prop :=
  forall i j si sj,
    m !! i = Some si -> m !! j = Some sj ->
    in_use si <> 0 -> in_use sj <> 0 -> i <> j ->
    from si <> from sj /\ sock si <> sock sj.

(** The sockets of the sessions in use are open descriptors. *)
Definition socks_open (st : um_state) : Prop :=
  forall i s, map st !! i = Some s -> in_use s <> 0 -> sock s ∈ open_fds st.

Definition Inv (st : um_state) : Prop :=
  table_inv (map st) /\ socks_open st.

(** What [NEW_SOCK()] may return: an error, or a descriptor that was not
    open. *)
Definition fresh_sock (st : um_state) (inp : iter_input) : Prop :=
  in_new_sock inp < 0 \/ in_new_sock inp ∉ open_fds st.

(** Every session in use of [m'] is the session of [m] in the same slot. *)
Definition sub_sessions (m m' : list um_sockmap) : Prop :=
  forall j s', m' !! j = Some s' -> in_use s' <> 0 ->
    exists s, m !! j = Some s /\ in_use s <> 0 /\
              sock s = sock s' /\ from s = from s'.

(** No slot of the table, in use or free, stores a descriptor of [L]. *)
Definition unreferenced (L : gset Z) (m : list um_sockmap) : Prop :=
  forall j s, m !! j = Some s -> sock s ∉ L.

(** The descriptors of [L] are open, are not in the descriptor set given to
    [select], and are stored in no slot; and the descriptor set holds open
    descriptors only. *)
Definition Frame (L : gset Z) (st : um_state) : Prop :=
  active_fd_set st ⊆ open_fds st /\
  L ⊆ open_fds st /\
  L ## active_fd_set st /\
  unreferenced L (map st).

(** The outside keeps its promise about [NEW_SOCK()] in every iteration of
    the run of the loop on [inputs]. *)
Fixpoint env_fresh (mode : um_mode) (cfg : um_config)
    (inputs : list iter_input) (signal_term : Z) (st : um_state) : Prop :=
  match inputs with
  | [] => True
  | inp :: rest =>
      signal_term = 0 ->
      fresh_sock st inp /\
      env_fresh mode cfg rest
        (foldl sighanlder signal_term (in_signals inp))
        (loop_body TIME_INVALID transform mode cfg inp st)
  end.

(** What a call of the reaper shows to the outside. *)
Definition reap_events (cfg : um_config) (time_val : Z)
    (m : list um_sockmap) : list event :=
  if timeout cfg <=? 0 then []
  else EvTime time_val :: purge_events (stale_slots cfg time_val m).

(** The table after a call of the reaper. *)
Definition reap_table (cfg : um_config) (time_val : Z)
    (m : list um_sockmap) : list um_sockmap :=
  if timeout cfg <=? 0 then m else reap_slot cfg time_val <$> m.

(** [um_sockmap_ins] on the table alone. *)
Definition ins_table (fd : Z) (addr : sockaddr_in) (m : list um_sockmap)
  : Z * list um_sockmap :=
  let '(i, m') := ins_loop TIME_INVALID (length m) 0 fd addr m in
  (if (length m <=? i)%nat then -1 else Z.of_nat i, m').

(** An event of a purge: the [close] and the log line of the reaper. *)
Definition is_purge (e : event) : bool :=
  match e with
  | EvClose _ => true
  | EvLog (LogPurged _) => true
  | _ => false
  end.

Definition is_socket (e : event) : bool :=
  match e with EvSocket _ => true | _ => false end.

(** In a trace, every purge comes before every creation of a socket. *)
Definition purge_before_socket (tr : list event) : Prop :=
  forall i j e e', tr !! i = Some e -> tr !! j = Some e' ->
    is_socket e = true -> is_purge e' = true -> (j < i)%nat.

(** In a trace, every purge comes after every creation of a socket. *)
Definition socket_before_purge (tr : list event) : Prop :=
  forall i j e e', tr !! i = Some e -> tr !! j = Some e' ->
    is_socket e = true -> is_purge e' = true -> (i < j)%nat.

(** The events of lines 221-249 after the log line and [NEW_SOCK()]. *)
Definition after_socket (cfg : um_config) (inp : iter_input)
    (m : list um_sockmap) : list event :=
  let tmp := in_new_sock inp in
  let addr := in_recvfrom_addr inp in
  if tmp <? 0 then [EvLog LogSocketErr]
  else
    reap_events cfg (in_time_reap inp) m ++
    [if 0 <=? fst (ins_table tmp addr (reap_table cfg (in_time_reap inp) m))
     then EvConnect tmp (conn_addr cfg)
     else EvLog (LogMaxClients addr)].


(** The events of lines 262-275 for slot [i] holding [s]. *)
Definition drain_slot_events (mode : um_mode) (cfg : um_config)
    (inp : iter_input) (i : nat) (s : um_sockmap) : list event :=
  if active s && bool_decide (sock s ∈ in_read_fd_set inp) then
    let '(ret, rbuf) := in_recv inp i in
    EvRecv (sock s) ret ::
    (if 0 <? ret then
       [EvTime (in_time_sess inp i);
        EvSendto (bind_sock cfg)
          (transform mode (take (Z.to_nat ret) rbuf) (tlimit cfg)) (from s)]
     else [])
  else [].

Fixpoint drain_events_from (mode : um_mode) (cfg : um_config)
    (inp : iter_input) (i : nat) (l : list um_sockmap) : list event :=
  match l with
  | [] => []
  | s :: l' =>
      drain_slot_events mode cfg inp i s ++
      drain_events_from mode cfg inp (Datatypes.S i) l'
  end.


(** [fd] is the socket of a session in use. *)
Definition session_sock (st : um_state) (fd : Z) : Prop :=
  exists j s, map st !! j = Some s /\ in_use s <> 0 /\ sock s = fd.

(** [sock_fd_max] is the largest of the listening socket and the sockets of
    the sessions in use. *)
Definition fd_max_exact (cfg : um_config) (st : um_state) : Prop :=
  bind_sock cfg <= sock_fd_max st /\
  (forall fd, session_sock st fd -> fd <= sock_fd_max st) /\
  (sock_fd_max st = bind_sock cfg \/ session_sock st (sock_fd_max st)).

(** The descriptor set given to [select] holds the listening socket and
    the sockets of the sessions in use, and nothing else. *)
Definition registered (cfg : um_config) (st : um_state) : Prop :=
  forall fd, fd ∈ active_fd_set st <->
             fd = bind_sock cfg \/ session_sock st fd.

(** The state of the loop is sound: sessions are distinct and their sockets
    open, the listening socket is open and is the socket of no session, the
    descriptor set and [sock_fd_max] are up to date. *)
Definition Sound (cfg : um_config) (st : um_state) : Prop :=
  Inv st /\
  bind_sock cfg ∈ open_fds st /\
  ~ session_sock st (bind_sock cfg) /\
  registered cfg st /\
  fd_max_exact cfg st.

(** The state at the top of iteration [n] of the loop of [start], when the
    loop gets that far: [signal_term] was clear at every test up to and
    including that of iteration [n]. *)
Fixpoint loop_state_at (mode : um_mode) (cfg : um_config) (n : nat)
    (inputs : list iter_input) (signal_term : Z) (st : um_state)
  : option um_state :=
  if negb (signal_term =? 0) then None
  else
    match n with
    | O => Some st
    | Datatypes.S n' =>
        match inputs with
        | [] => None
        | inp :: rest =>
            loop_state_at mode cfg n' rest
              (foldl sighanlder signal_term (in_signals inp))
              (loop_body TIME_INVALID transform mode cfg inp st)
        end
    end.

(** The state in which [start] enters its loop. *)
Definition start_entry (cfg : um_config) (st : um_state) : um_state :=
  update_sock_fd_max cfg
    (emit (EvLog (LogTimeout (timeout cfg)))
       (set_active_fd_set {[bind_sock cfg]} st)).

(** The descriptors of [K] are open and none is the socket of a session in
    use. *)
Definition Kept (K : gset Z) (st : um_state) : Prop :=
  K ⊆ open_fds st /\ forall fd, session_sock st fd -> fd ∉ K.

(** The signals on which [sighanlder] sets [signal_term]. *)
Definition is_term_signal (signum : Z) : bool :=
  (signum =? SIGHUP) || (signum =? SIGINT) || (signum =? SIGTERM).

(** Slot [i] holding [s] after lines 262-275. *)
Definition drain_slot (inp : iter_input) (i : nat) (s : um_sockmap)
  : um_sockmap :=
  if active s && bool_decide (sock s ∈ in_read_fd_set inp) then
    if (0 <? fst (in_recv inp i)) &&
       negb (in_time_sess inp i =? TIME_INVALID)
    then with_last_use (in_time_sess inp i) s
    else s
  else s.

(** The open descriptors after the calls of a trace, from the open set [O]:
    [NEW_SOCK()] returning a descriptor opens it, [close] of an open
    descriptor closes it, and [close] of a descriptor that is not open is
    an error ([None]). *)
Fixpoint replay (O : gset Z) (tr : list event) : option (gset Z) :=
  match tr with
  | [] => Some O
  | EvSocket r :: tr' => replay (if r <? 0 then O else {[r]} ∪ O) tr'
  | EvClose fd :: tr' =>
      if bool_decide (fd ∈ O) then replay (O ∖ {[fd]}) tr' else None
  | _ :: tr' => replay O tr'
  end.

(** An event that opens or closes a descriptor. *)
Definition is_fd_event (e : event) : bool :=
  match e with EvSocket _ | EvClose _ => true | _ => false end.

(** [st'] comes after [st]: its trace extends that of [st], every [close]
    of the extension is of a descriptor open at that point, and the open
    descriptors of [st'] are those the extension leaves. *)
Definition follows (st st' : um_state) : Prop :=
  exists new, trace st' = trace st ++ new /\
              replay (open_fds st) new = Some (open_fds st').

(** An option that neither asks for the usage text nor ends [main]: a mode
    that is [server] or [client], a mask that [load_mask] took, a listening
    address that [inet_pton] parsed, a remote host that resolved. *)
Definition opt_accepted (o : getopt_result) : bool :=
  match o with
  | Opt_m optarg => String.eqb optarg "server" || String.eqb optarg "client"
  | Opt_s _ r => 0 <=? r
  | Opt_l _ r _ => 0 <? r
  | Opt_c _ rh => bool_decide (is_Some rh)
  | Opt_h => false
  | _ => true
  end.

(** The three descriptors the daemon closes. *)
Definition std_fds : gset Z :=
  {[STDIN_FILENO; STDOUT_FILENO; STDERR_FILENO]}.

(** The listening port [main] falls back on, by mode. *)
Definition default_port (UM_SERVER_PORT UM_CLIENT_PORT : Z) (mode : um_mode)
  : Z :=
  match mode with
  | UM_MODE_SERVER => uint16 UM_SERVER_PORT
  | UM_MODE_CLIENT => uint16 UM_CLIENT_PORT
  | UM_MODE_NONE => 0
  end.

(** * Properties *)

(** ** Loops *)

(** The invariant rule for [for_loop]. *)
Lemma for_loop_inv {S : Type} (P : nat -> S -> Prop) (body : nat -> S -> S) :
  forall (n i : nat) (s : S),
    P i s ->
    (forall j t, (i <= j < i + n)%nat -> P j t -> P (Datatypes.S j) (body j t)) ->
    P (i + n)%nat (for_loop n i body s).
Proof.
  induction n as [|n IH]; intros i s Hs Hstep; simpl.
  - by rewrite Nat.add_0_r.
  - replace (i + Datatypes.S n)%nat with (Datatypes.S i + n)%nat by lia.
    apply IH.
    + apply Hstep; [lia | done].
    + intros j t Hj. apply Hstep. lia.
Qed.

(** ** Machine integers *)

Lemma sint32_small (z : Z) : - 2 ^ 31 <= z < 2 ^ 31 -> sint32 z = z.
Proof.
  unfold sint32. change (2 ^ 31) with 2147483648.
  change (2 ^ 32) with 4294967296. intros H.
  rewrite Z.mod_small by lia. lia.
Qed.

Lemma sint64_small (z : Z) : - 2 ^ 63 <= z < 2 ^ 63 -> sint64 z = z.
Proof.
  unfold sint64. change (2 ^ 63) with 9223372036854775808.
  change (2 ^ 64) with 18446744073709551616. intros H.
  rewrite Z.mod_small by lia. lia.
Qed.

Lemma uint32_range (z : Z) : 0 <= uint32 z < 2 ^ 32.
Proof. unfold uint32. apply Z.mod_pos_bound. done. Qed.

Lemma uint32_sub_zero (x y : Z) :
  0 <= x < 2 ^ 32 -> 0 <= y < 2 ^ 32 -> (uint32 (x - y) = 0 <-> x = y).
Proof.
  unfold uint32. change (2 ^ 32) with 4294967296. intros Hx Hy.
  Z.to_euclidean_division_equations. lia.
Qed.

Lemma sint32_uint32_zero (d : Z) :
  0 <= d < 2 ^ 32 -> (sint32 d = 0 <-> d = 0).
Proof.
  unfold sint32. change (2 ^ 31) with 2147483648.
  change (2 ^ 32) with 4294967296. intros Hd.
  Z.to_euclidean_division_equations. lia.
Qed.

(** ** Address comparison and lookup *)

Lemma same_addr_eq (a b : sockaddr_in) : same_addr a b <-> a = b.
Proof.
  split; [| by intros ->].
  destruct a, b; unfold same_addr; simpl. intros (-> & -> & ->). done.
Qed.

Lemma sockaddr_in_cmp_refl (a : sockaddr_in) : sockaddr_in_cmp a a = 0.
Proof.
  unfold sockaddr_in_cmp. rewrite !Z.sub_diag. reflexivity.
Qed.

Lemma sockaddr_in_cmp_zero (a b : sockaddr_in) :
  sockaddr_in_wf a -> sockaddr_in_wf b ->
  (sockaddr_in_cmp a b = 0 <-> same_addr a b).
Proof.
  intros (Hf1 & Hp1 & Ha1) (Hf2 & Hp2 & Ha2).
  split.
  - unfold sockaddr_in_cmp, same_addr.
    change (2 ^ 16) with 65536 in *.
    rewrite (sint32_small (sin_family a - sin_family b))
      by (change (2 ^ 31) with 2147483648; lia).
    rewrite (sint32_small (sin_port a - sin_port b))
      by (change (2 ^ 31) with 2147483648; lia).
    pose proof (uint32_range (s_addr a - s_addr b)) as Hr.
    rewrite (sint64_small (uint32 (s_addr a - s_addr b)))
      by (change (2 ^ 63) with 9223372036854775808;
          change (2 ^ 32) with 4294967296 in Hr; lia).
    destruct (Z.eqb_spec (sin_family a - sin_family b) 0) as [E1|E1];
      simpl; [| by intros ?].
    destruct (Z.eqb_spec (sin_port a - sin_port b) 0) as [E2|E2];
      simpl; [| by intros ?].
    destruct (Z.eqb_spec (uint32 (s_addr a - s_addr b)) 0) as [E3|E3]; simpl.
    + intros _.
      assert (s_addr a = s_addr b) by (by apply uint32_sub_zero).
      lia.
    + intros H0. destruct E3. by apply sint32_uint32_zero.
  - intros H. apply same_addr_eq in H. subst b. apply sockaddr_in_cmp_refl.
Qed.

Lemma start_lookup_from_spec (a : sockaddr_in) (m : list um_sockmap) :
  forall (n i : nat),
    (start_lookup_from n i a m = -1 /\
     forall j s, (i <= j < i + n)%nat -> m !! j = Some s -> hit a s = false)
    \/
    (exists k s, start_lookup_from n i a m = Z.of_nat k /\
       (i <= k < i + n)%nat /\ m !! k = Some s /\ hit a s = true /\
       forall j s', (i <= j < k)%nat -> m !! j = Some s' -> hit a s' = false).
Proof.
  induction n as [|n IH]; intros i; simpl.
  - left. split; [done |]. intros j s Hj. lia.
  - destruct (m !! i) as [s|] eqn:Hi.
    + fold (hit a s). destruct (hit a s) eqn:Hh.
      * right. exists i, s. repeat split; try done; try lia.
        all: intros j s' Hj; lia.
      * destruct (IH (Datatypes.S i)) as [[Hr Hall] | (k & s' & Hr & Hk & Hmk & Hhit & Hall)].
        -- left. split; [done |]. intros j s' Hj Hmj.
           destruct (decide (j = i)) as [-> | Hne].
           ++ congruence.
           ++ apply (Hall j); [lia | done].
        -- right. exists k, s'. split; [done |]. split; [lia |].
           split; [done |]. split; [done |].
           intros j s'' Hj Hmj.
           destruct (decide (j = i)) as [-> | Hne].
           ++ congruence.
           ++ apply (Hall j); [lia | done].
    + left. split; [done |]. intros j s Hj Hmj.
      apply lookup_lt_Some in Hmj. apply lookup_ge_None in Hi. lia.
Qed.

Lemma start_lookup_spec (a : sockaddr_in) (m : list um_sockmap) :
  (start_lookup a m = -1 /\
   forall j s, m !! j = Some s -> hit a s = false)
  \/
  (exists k s, start_lookup a m = Z.of_nat k /\
     m !! k = Some s /\ hit a s = true /\
     forall j s', (j < k)%nat -> m !! j = Some s' -> hit a s' = false).
Proof.
  unfold start_lookup.
  destruct (start_lookup_from_spec a m (length m) 0)
    as [[Hr Hall] | (k & s & Hr & Hk & Hmk & Hhit & Hall)].
  - left. split; [done |]. intros j s Hmj. apply (Hall j); [| done].
    apply lookup_lt_Some in Hmj. lia.
  - right. exists k, s. split; [done |]. split; [done |]. split; [done |].
    intros j s' Hj. apply Hall. lia.
Qed.

Lemma hit_matches (a : sockaddr_in) (s : um_sockmap) :
  sockaddr_in_wf a -> sockaddr_in_wf (from s) ->
  (hit a s = true <-> matches a s).
Proof.
  intros Ha Hs. unfold hit, matches.
  rewrite andb_true_iff, Z.eqb_eq, (sockaddr_in_cmp_zero a (from s)) by done.
  done.
Qed.

Lemma hit_false_matches (a : sockaddr_in) (s : um_sockmap) :
  sockaddr_in_wf a -> sockaddr_in_wf (from s) ->
  (hit a s = false <-> ~ matches a s).
Proof.
  intros Ha Hs. rewrite <- (hit_matches a s) by done.
  destruct (hit a s); split; try done; intros H; by destruct H.
Qed.

(** C5: the lookup of [start] returns the lowest slot in use whose stored
    address agrees with the queried one on family, port and numeric address,
    and -1 exactly when no slot in use agrees on all three; [sockaddr_in_cmp]
    is 0 exactly when the three components are equal. *)
Theorem lookup_first_exact_match (a : sockaddr_in) (m : list um_sockmap) :
  sockaddr_in_wf a ->
  Forall (fun s => sockaddr_in_wf (from s)) m ->
  (forall b, sockaddr_in_wf b -> (sockaddr_in_cmp a b = 0 <-> same_addr a b)) /\
  (start_lookup a m = -1 <->
     forall j s, m !! j = Some s -> ~ matches a s) /\
  (forall k : nat,
     start_lookup a m = Z.of_nat k <->
       (exists s, m !! k = Some s /\ matches a s) /\
       (forall j s', (j < k)%nat -> m !! j = Some s' -> ~ matches a s')) /\
  (start_lookup a m = -1 \/
   exists k : nat, (k < length m)%nat /\ start_lookup a m = Z.of_nat k).
Proof.
  intros Ha Hm.
  assert (Hwf : forall j s, m !! j = Some s -> sockaddr_in_wf (from s)).
  { intros j s Hj. by apply (Forall_lookup_1 _ _ _ _ Hm Hj). }
  split; [intros b Hb; by apply sockaddr_in_cmp_zero |].
  destruct (start_lookup_spec a m)
    as [[Hr Hall] | (k & s & Hr & Hmk & Hhit & Hall)].
  - split; [| split].
    + split; [| done]. intros _ j s Hj.
      apply hit_false_matches; eauto.
    + intros k. split; [lia |].
      intros [(s & Hk & Hs) _]. exfalso.
      apply (hit_false_matches a s); eauto.
    + by left.
  - assert (Hs : matches a s) by (apply hit_matches; eauto).
    split; [| split].
    + split; [lia |]. intros Hnone. exfalso. by apply (Hnone k s).
    + intros k'. split.
      * intros Hk'. assert (k' = k) as -> by lia.
        split; [by exists s |].
        intros j s' Hj Hmj. apply hit_false_matches; eauto.
      * intros [(s' & Hk' & Hs') Hfirst].
        destruct (Nat.lt_trichotomy k k') as [Hlt | [-> | Hgt]].
        -- exfalso. by apply (Hfirst k s).
        -- done.
        -- exfalso. apply (hit_false_matches a s'); eauto.
    + right. exists k. split; [by apply lookup_lt_Some in Hmk | done].
Qed.

(** ** Insertion *)

Lemma ins_loop_spec (fd : Z) (addr : sockaddr_in) (m : list um_sockmap) :
  forall (n i : nat),
    (i + n <= length m)%nat ->
    (ins_loop TIME_INVALID n i fd addr m = ((i + n)%nat, m) /\
     forall j s, (i <= j < i + n)%nat -> m !! j = Some s -> in_use s <> 0)
    \/
    (exists k s, (i <= k < i + n)%nat /\ m !! k = Some s /\ in_use s = 0 /\
       (forall j s', (i <= j < k)%nat -> m !! j = Some s' -> in_use s' <> 0) /\
       ins_loop TIME_INVALID n i fd addr m =
         (k, <[k := new_slot TIME_INVALID fd addr]> m)).
Proof.
  induction n as [|n IH]; intros i Hlen; simpl.
  - left. rewrite Nat.add_0_r. split; [done |]. intros j s Hj. lia.
  - destruct (m !! i) as [s|] eqn:Hi.
    + destruct (Z.eqb_spec (in_use s) 0) as [E|E].
      * right. exists i, s. split; [lia |]. split; [done |]. split; [done |].
        split; [| done]. intros j s' Hj. lia.
      * destruct (IH (Datatypes.S i)) as [[Hr Hall] | (k & s' & Hk & Hmk & Hfree & Hall & Hr)];
          [lia | |].
        -- left. rewrite Hr. split; [f_equal; lia |].
           intros j s' Hj Hmj. destruct (decide (j = i)) as [-> | Hne].
           ++ congruence.
           ++ apply (Hall j); [lia | done].
        -- right. exists k, s'. split; [lia |]. split; [done |].
           split; [done |]. split; [| done].
           intros j s'' Hj Hmj. destruct (decide (j = i)) as [-> | Hne].
           ++ congruence.
           ++ apply (Hall j); [lia | done].
    + apply lookup_ge_None in Hi. lia.
Qed.

(** What one call of [um_sockmap_ins] does, by cases on the table. *)
Lemma um_sockmap_ins_spec (fd : Z) (addr : sockaddr_in) (st : um_state) :
  (um_sockmap_ins TIME_INVALID fd addr st = (-1, st) /\
   forall j s, map st !! j = Some s -> in_use s <> 0)
  \/
  (exists k s, map st !! k = Some s /\ in_use s = 0 /\
     (forall j s', (j < k)%nat -> map st !! j = Some s' -> in_use s' <> 0) /\
     um_sockmap_ins TIME_INVALID fd addr st =
       (Z.of_nat k,
        set_map (<[k := new_slot TIME_INVALID fd addr]> (map st)) st)).
Proof.
  unfold um_sockmap_ins.
  destruct (ins_loop_spec fd addr (map st) (length (map st)) 0)
    as [[Hr Hall] | (k & s & Hk & Hmk & Hfree & Hall & Hr)]; [lia | |].
  - left. rewrite Hr. simpl. rewrite Nat.leb_refl.
    split; [by destruct st |].
    intros j s Hj. apply (Hall j); [| done].
    apply lookup_lt_Some in Hj. lia.
  - right. exists k, s. rewrite Hr.
    destruct (Nat.leb_spec (length (map st)) k) as [Hle | Hlt]; [lia |].
    split; [done |]. split; [done |]. split; [| done].
    intros j s' Hj. apply Hall. lia.
Qed.

(** Inserting into a table whose slots in use are a prefix. *)
Lemma um_sockmap_ins_prefix (fd : Z) (addr : sockaddr_in) (st : um_state)
    (used rest : list um_sockmap) (s0 : um_sockmap) :
  map st = used ++ s0 :: rest ->
  Forall (fun s => in_use s <> 0) used ->
  in_use s0 = 0 ->
  um_sockmap_ins TIME_INVALID fd addr st =
    (Z.of_nat (length used),
     set_map (used ++ new_slot TIME_INVALID fd addr :: rest) st).
Proof.
  intros Hm Hused Hfree.
  destruct (um_sockmap_ins_spec fd addr st)
    as [[_ Hall] | (k & s & Hmk & Hs & Hall & Hr)].
  - exfalso. apply (Hall (length used) s0); [| done].
    rewrite Hm. by rewrite list_lookup_middle.
  - assert (k = length used) as ->.
    { destruct (Nat.lt_trichotomy k (length used)) as [Hlt | [-> | Hgt]].
      - exfalso. rewrite Hm, lookup_app_l in Hmk by done.
        by apply (Forall_lookup_1 _ _ _ _ Hused Hmk).
      - done.
      - exfalso. apply (Hall (length used) s0); [done | | done].
        rewrite Hm. by rewrite list_lookup_middle. }
    rewrite Hr. f_equal. f_equal. rewrite Hm.
    rewrite insert_app_r_alt by lia. by rewrite Nat.sub_diag.
Qed.

Lemma um_sockmap_ins_full (fd : Z) (addr : sockaddr_in) (st : um_state) :
  Forall (fun s => in_use s <> 0) (map st) ->
  um_sockmap_ins TIME_INVALID fd addr st = (-1, st).
Proof.
  intros Hfull.
  destruct (um_sockmap_ins_spec fd addr st)
    as [[Hr _] | (k & s & Hmk & Hs & _)]; [done |].
  exfalso. by apply (Forall_lookup_1 _ _ _ _ Hfull Hmk).
Qed.

Lemma set_map_set_map (m m' : list um_sockmap) (st : um_state) :
  set_map m (set_map m' st) = set_map m st.
Proof. done. Qed.

Lemma new_slot_in_use (fd : Z) (addr : sockaddr_in) :
  in_use (new_slot TIME_INVALID fd addr) <> 0.
Proof. done. Qed.

Lemma ins_all_prefix (reqs : list (Z * sockaddr_in)) :
  forall (used free : list um_sockmap) (st : um_state),
    map st = used ++ free ->
    Forall (fun s => in_use s <> 0) used ->
    Forall (fun s => in_use s = 0) free ->
    (length reqs <= length free)%nat ->
    ins_all TIME_INVALID reqs st =
      (Z.of_nat <$> seq (length used) (length reqs),
       set_map (used ++ (uncurry (new_slot TIME_INVALID) <$> reqs)
                  ++ drop (length reqs) free) st).
Proof.
  induction reqs as [|[fd addr] reqs IH]; intros used free st Hm Hused Hfree Hlen.
  - simpl. rewrite drop_0, <- Hm. by destruct st.
  - destruct free as [|s0 free]; [simpl in Hlen; lia |].
    apply Forall_cons in Hfree as [Hs0 Hfree].
    simpl. rewrite (um_sockmap_ins_prefix fd addr st used free s0) by done.
    rewrite (IH (used ++ [new_slot TIME_INVALID fd addr]) free).
    + rewrite length_app. simpl. rewrite Nat.add_1_r.
      rewrite set_map_set_map. by rewrite <- !app_assoc.
    + simpl. by rewrite <- app_assoc.
    + apply Forall_app. split; [done |].
      apply Forall_cons. split; [apply new_slot_in_use | done].
    + done.
    + simpl in Hlen. lia.
Qed.

Lemma ins_all_app (reqs1 reqs2 : list (Z * sockaddr_in)) (st : um_state) :
  ins_all TIME_INVALID (reqs1 ++ reqs2) st =
    let '(rs1, st1) := ins_all TIME_INVALID reqs1 st in
    let '(rs2, st2) := ins_all TIME_INVALID reqs2 st1 in
    (rs1 ++ rs2, st2).
Proof.
  revert st. induction reqs1 as [|[fd addr] reqs1 IH]; intros st; simpl.
  - by destruct (ins_all TIME_INVALID reqs2 st).
  - destruct (um_sockmap_ins TIME_INVALID fd addr st) as [r st1].
    rewrite IH.
    destruct (ins_all TIME_INVALID reqs1 st1) as [rs1 st1'].
    by destruct (ins_all TIME_INVALID reqs2 st1').
Qed.

(** C4: [um_sockmap_ins] takes the first free slot in table order, makes it
    a slot in use holding the socket and the address with [last_use] the
    sentinel, and changes no other slot; with no free slot it returns -1 and
    changes nothing.  Hence [capacity + 1] insertions into a table of
    [capacity] free slots succeed in slots 0 .. capacity-1 and fail on the
    last one, and the table then holds the first [capacity] sessions. *)
Theorem ins_first_free_or_full :
  (forall (fd : Z) (addr : sockaddr_in) (st : um_state),
     (um_sockmap_ins TIME_INVALID fd addr st = (-1, st) /\
      forall j s, map st !! j = Some s -> in_use s <> 0)
     \/
     (exists (k : nat) (s : um_sockmap) (st' : um_state),
        um_sockmap_ins TIME_INVALID fd addr st = (Z.of_nat k, st') /\
        map st !! k = Some s /\ in_use s = 0 /\
        (forall j s', (j < k)%nat -> map st !! j = Some s' -> in_use s' <> 0) /\
        map st' !! k =
          Some {| in_use := 1; sock := fd; last_use := TIME_INVALID;
                  from := addr |} /\
        (forall j, j <> k -> map st' !! j = map st !! j) /\
        length (map st') = length (map st) /\
        sock_fd_max st' = sock_fd_max st /\
        active_fd_set st' = active_fd_set st /\
        open_fds st' = open_fds st /\ trace st' = trace st)) /\
  (forall (capacity : nat) (reqs : list (Z * sockaddr_in)) (st : um_state),
     length (map st) = capacity ->
     Forall (fun s => in_use s = 0) (map st) ->
     length reqs = Datatypes.S capacity ->
     ins_all TIME_INVALID reqs st =
       ((Z.of_nat <$> seq 0 capacity) ++ [-1],
        set_map (uncurry (new_slot TIME_INVALID) <$> take capacity reqs) st)).
Proof.
  split.
  - intros fd addr st.
    destruct (um_sockmap_ins_spec fd addr st)
      as [H | (k & s & Hmk & Hs & Hall & Hr)]; [by left |].
    right. exists k, s. eexists. split; [exact Hr |].
    split; [done |]. split; [done |]. split; [done |]. simpl.
    split; [apply list_lookup_insert_eq; by apply lookup_lt_Some in Hmk |].
    split; [intros j Hj; by apply list_lookup_insert_ne |].
    split; [apply length_insert | done].
  - intros capacity reqs st Hcap Hfree Hlen.
    rewrite <- (take_drop capacity reqs) at 1.
    rewrite ins_all_app.
    assert (Htake : length (take capacity reqs) = capacity)
      by (rewrite length_take; lia).
    rewrite (ins_all_prefix (take capacity reqs) [] (map st) st);
      [| done | done | done | lia].
    rewrite Htake. simpl.
    rewrite (drop_ge (map st)) by lia. rewrite app_nil_r.
    destruct (drop capacity reqs) as [|[fd addr] tl] eqn:Hd.
    { apply (f_equal length) in Hd. rewrite length_drop in Hd.
      simpl in Hd. lia. }
    assert (tl = []) as ->.
    { apply (f_equal length) in Hd. rewrite length_drop in Hd.
      simpl in Hd. destruct tl; [done | simpl in Hd; lia]. }
    simpl. rewrite um_sockmap_ins_full; [done |]. simpl.
    apply Forall_fmap, Forall_forall. intros [fd' addr'] _. done.
Qed.

(** ** Touch *)

(** C8: [UPDATE_LAST_USE(idx)] on a slot of the table stores the time in
    [last_use] of that slot when [time()] returns a valid time, leaves
    [last_use] as it is when [time()] returns [TIME_INVALID], and in both
    cases changes no other field and no other slot. *)
Theorem touch_sets_last_use_only (idx : nat) (time_val : Z) (st : um_state)
    (s : um_sockmap) :
  map st !! idx = Some s ->
  let st' := UPDATE_LAST_USE TIME_INVALID idx time_val st in
  (time_val <> TIME_INVALID ->
     map st' !! idx =
       Some {| in_use := in_use s; sock := sock s; last_use := time_val;
               from := from s |}) /\
  (time_val = TIME_INVALID -> map st' = map st) /\
  (forall j, j <> idx -> map st' !! j = map st !! j) /\
  length (map st') = length (map st) /\
  sock_fd_max st' = sock_fd_max st /\
  active_fd_set st' = active_fd_set st /\
  open_fds st' = open_fds st /\
  trace st' = trace st ++ [EvTime time_val].
Proof.
  intros Hs st'. subst st'. unfold UPDATE_LAST_USE.
  destruct (Z.eqb_spec time_val TIME_INVALID) as [E|E]; simpl.
  - split; [intros H; by destruct H |]. split_and!; done.
  - split.
    { intros _. rewrite list_lookup_alter_eq, Hs. done. }
    split; [intros H; by destruct E |].
    split.
    { intros j Hj. by rewrite list_lookup_alter_ne. }
    split; [apply length_alter |]. split_and!; done.
Qed.

(** ** The reaper *)

Lemma update_sock_fd_max_frame (cfg : um_config) (st : um_state) :
  map (update_sock_fd_max cfg st) = map st /\
  active_fd_set (update_sock_fd_max cfg st) = active_fd_set st /\
  open_fds (update_sock_fd_max cfg st) = open_fds st /\
  trace (update_sock_fd_max cfg st) = trace st.
Proof.
  unfold update_sock_fd_max.
  apply (for_loop_inv
    (fun _ t => map t = map st /\ active_fd_set t = active_fd_set st /\
                open_fds t = open_fds st /\ trace t = trace st)).
  - done.
  - intros j t _ IH. destruct (map t !! j) as [s|]; [| done].
    destruct (active s && (sock_fd_max t <? sock s)); done.
Qed.

Lemma UPDATE_SOCK_FD_MAX_RM_frame (cfg : um_config) (fd : Z) (st : um_state) :
  map (UPDATE_SOCK_FD_MAX_RM cfg fd st) = map st /\
  active_fd_set (UPDATE_SOCK_FD_MAX_RM cfg fd st) = active_fd_set st /\
  open_fds (UPDATE_SOCK_FD_MAX_RM cfg fd st) = open_fds st /\
  trace (UPDATE_SOCK_FD_MAX_RM cfg fd st) = trace st.
Proof.
  unfold UPDATE_SOCK_FD_MAX_RM.
  destruct (sock_fd_max st <=? fd); [apply update_sock_fd_max_frame | done].
Qed.

Lemma stale_iff (cfg : um_config) (time_val : Z) (s : um_sockmap) :
  stale TIME_INVALID cfg time_val s = true <->
  in_use s <> 0 /\
  (last_use s = TIME_INVALID \/ time_val - last_use s >= timeout cfg).
Proof.
  unfold stale, active.
  rewrite andb_true_iff, negb_true_iff, orb_true_iff, Z.eqb_neq, Z.eqb_eq,
    Z.leb_le.
  lia.
Qed.

Lemma reap_slot_not_stale (cfg : um_config) (time_val : Z) (s : um_sockmap) :
  stale TIME_INVALID cfg time_val (reap_slot cfg time_val s) = false.
Proof.
  unfold reap_slot. destruct (stale TIME_INVALID cfg time_val s) eqn:E; done.
Qed.

Lemma stale_slots_snoc (cfg : um_config) (time_val : Z)
    (l : list um_sockmap) (s : um_sockmap) :
  stale_slots cfg time_val (l ++ [s]) =
    stale_slots cfg time_val l ++
      (if stale TIME_INVALID cfg time_val s then [s] else []).
Proof.
  unfold stale_slots. rewrite filter_app. f_equal.
  destruct (stale TIME_INVALID cfg time_val s) eqn:E.
  - by rewrite filter_cons_True.
  - rewrite filter_cons_False; [done | congruence].
Qed.

Lemma purge_events_app (l1 l2 : list um_sockmap) :
  purge_events (l1 ++ l2) = purge_events l1 ++ purge_events l2.
Proof. unfold purge_events. apply bind_app. Qed.

Lemma socks_of_snoc (l : list um_sockmap) (s : um_sockmap) :
  socks_of (l ++ [s]) = socks_of l ∪ {[sock s]}.
Proof.
  unfold socks_of. rewrite fmap_app, list_to_set_app_L. simpl.
  by rewrite union_empty_r_L.
Qed.

Lemma purged_flag_snoc (l : list um_sockmap) (s : um_sockmap) :
  purged_flag (l ++ [s]) = 1.
Proof. by destruct l. Qed.

Lemma purged_flag_step (l : list um_sockmap) :
  (if purged_flag l =? 0 then 1 else purged_flag l) = 1.
Proof. by destruct l. Qed.

(** The loop of [um_sockmap_clean], from a table [m]. *)
Lemma clean_loop_spec (cfg : um_config) (time_val : Z) (st0 : um_state) :
  let m := map st0 in
  let r := for_loop (length m) 0 (clean_body TIME_INVALID cfg time_val)
             (0, st0) in
  map (snd r) = reap_slot cfg time_val <$> m /\
  trace (snd r) =
    trace st0 ++ purge_events (stale_slots cfg time_val m) /\
  open_fds (snd r) = open_fds st0 ∖ socks_of (stale_slots cfg time_val m) /\
  active_fd_set (snd r) =
    active_fd_set st0 ∖ socks_of (stale_slots cfg time_val m) /\
  fst r = purged_flag (stale_slots cfg time_val m).
Proof.
  intros m r.
  pose (P := fun (i : nat) (ps : Z * um_state) =>
    (forall j, map (snd ps) !! j =
       if decide (j < i)%nat then reap_slot cfg time_val <$> m !! j
       else m !! j) /\
    trace (snd ps) =
      trace st0 ++ purge_events (stale_slots cfg time_val (take i m)) /\
    open_fds (snd ps) =
      open_fds st0 ∖ socks_of (stale_slots cfg time_val (take i m)) /\
    active_fd_set (snd ps) =
      active_fd_set st0 ∖ socks_of (stale_slots cfg time_val (take i m)) /\
    fst ps = purged_flag (stale_slots cfg time_val (take i m))).
  assert (HP : P (0 + length m)%nat r).
  { apply for_loop_inv.
    - unfold P. simpl. split; [done |]. rewrite app_nil_r.
      split; [done |]. split; [set_solver |]. split; [set_solver | done].
    - intros j [p t] Hj (Hmap & Htr & Hopen & Hact & Hp). simpl in *.
      assert (Hmj : map t !! j = m !! j).
      { rewrite Hmap. destruct (decide (j < j)%nat); [lia | done]. }
      destruct (m !! j) as [s|] eqn:Hs; [| apply lookup_ge_None in Hs; lia].
      assert (Htake : take (Datatypes.S j) m = take j m ++ [s])
        by (by apply take_S_r).
      unfold P, clean_body. rewrite Hmj, Htake, stale_slots_snoc.
      destruct (stale TIME_INVALID cfg time_val s) eqn:Hst.
      + destruct (UPDATE_SOCK_FD_MAX_RM_frame cfg (sock s)
          (FD_CLR (sock s) (sys_close (sock s)
             (set_map (<[j:=with_in_use 0 s]> (map t)) t))))
          as (Fm & Fa & Fo & Ft).
        simpl. rewrite Fm, Fa, Fo, Ft. simpl.
        split.
        { intros k. destruct (decide (k = j)) as [-> | Hne].
          - rewrite list_lookup_insert_eq
              by (apply lookup_lt_is_Some; rewrite Hmj; eauto).
            destruct (decide (j < Datatypes.S j)%nat); [| lia].
            rewrite Hs. simpl. unfold reap_slot. by rewrite Hst.
          - rewrite list_lookup_insert_ne by done. rewrite Hmap.
            destruct (decide (k < j)%nat), (decide (k < Datatypes.S j)%nat);
              try done; lia. }
        rewrite purge_events_app, socks_of_snoc, Htr, Hopen, Hact, Hp.
        split; [by rewrite <- !app_assoc |].
        split; [set_solver |]. split; [set_solver |].
        rewrite purged_flag_snoc. apply purged_flag_step.
      + simpl. rewrite app_nil_r.
        split; [| done].
        intros k. rewrite Hmap.
        destruct (decide (k = j)) as [-> | Hne].
        * destruct (decide (j < j)%nat); [lia |].
          destruct (decide (j < Datatypes.S j)%nat); [| lia].
          rewrite Hs. simpl. unfold reap_slot. by rewrite Hst.
        * destruct (decide (k < j)%nat), (decide (k < Datatypes.S j)%nat);
            try done; lia. }
  destruct HP as (Hmap & Htr & Hopen & Hact & Hp). simpl in *.
  rewrite firstn_all in *.
  split; [| done].
  apply list_eq. intros j. rewrite Hmap, list_lookup_fmap.
  destruct (decide (j < length m)%nat) as [Hlt | Hge]; [done |].
  rewrite lookup_ge_None_2 by lia. done.
Qed.

Lemma um_sockmap_clean_off (cfg : um_config) (time_val : Z) (st : um_state) :
  timeout cfg <= 0 ->
  um_sockmap_clean TIME_INVALID cfg time_val st = (0, st).
Proof.
  intros H. unfold um_sockmap_clean.
  destruct (Z.leb_spec (timeout cfg) 0); [done | lia].
Qed.

Lemma um_sockmap_clean_on (cfg : um_config) (time_val : Z) (st : um_state) :
  0 < timeout cfg ->
  let r := um_sockmap_clean TIME_INVALID cfg time_val st in
  map (snd r) = reap_slot cfg time_val <$> map st /\
  trace (snd r) =
    trace st ++
      EvTime time_val :: purge_events (stale_slots cfg time_val (map st)) /\
  open_fds (snd r) =
    open_fds st ∖ socks_of (stale_slots cfg time_val (map st)) /\
  active_fd_set (snd r) =
    active_fd_set st ∖ socks_of (stale_slots cfg time_val (map st)) /\
  fst r = purged_flag (stale_slots cfg time_val (map st)).
Proof.
  intros H r. subst r. unfold um_sockmap_clean.
  destruct (Z.leb_spec (timeout cfg) 0); [lia |].
  destruct (clean_loop_spec cfg time_val (emit (EvTime time_val) st))
    as (Hm & Ht & Ho & Ha & Hp).
  simpl in *. rewrite Hm, Ht, Ho, Ha, Hp. rewrite <- app_assoc. done.
Qed.

(** With no stale slot the loop of the reaper changes nothing. *)
Lemma clean_loop_none (cfg : um_config) (time_val : Z) (st0 : um_state) :
  (forall j s, map st0 !! j = Some s ->
     stale TIME_INVALID cfg time_val s = false) ->
  for_loop (length (map st0)) 0 (clean_body TIME_INVALID cfg time_val)
    (0, st0) = (0, st0).
Proof.
  intros Hnone.
  apply (for_loop_inv (fun _ ps => ps = (0, st0))); [done |].
  intros j ps _ ->. unfold clean_body.
  destruct (map st0 !! j) as [s|] eqn:Hs; [| done].
  by rewrite (Hnone j s Hs).
Qed.

Lemma elem_of_stale_slots (cfg : um_config) (time_val : Z)
    (m : list um_sockmap) (s : um_sockmap) :
  s ∈ stale_slots cfg time_val m <->
  s ∈ m /\ in_use s <> 0 /\
  (last_use s = TIME_INVALID \/ time_val - last_use s >= timeout cfg).
Proof.
  unfold stale_slots. rewrite list_elem_of_filter, stale_iff. tauto.
Qed.

Lemma purged_flag_one (l : list um_sockmap) :
  purged_flag l = 1 <-> exists s, s ∈ l.
Proof.
  destruct l as [|s l]; simpl.
  - split; [done |]. intros [s Hs]. by apply not_elem_of_nil in Hs.
  - split; [| done]. intros _. exists s. apply list_elem_of_here.
Qed.

(** C1: with a timeout of 0 (or less) [um_sockmap_clean] changes nothing and
    returns 0.  With a positive timeout it frees exactly the slots in use
    whose [last_use] is the sentinel or at least [timeout] seconds old,
    closes the socket of each and clears it from the descriptor set, leaves
    every other slot as it is, and returns 1 exactly when it freed a slot.
    A session just inserted, its [last_use] still the sentinel, is freed by
    the next call whatever the positive timeout. *)
Theorem reap_purges_exactly_stale (cfg : um_config) (time_val : Z)
    (st : um_state) :
  (timeout cfg <= 0 ->
     um_sockmap_clean TIME_INVALID cfg time_val st = (0, st)) /\
  (0 < timeout cfg ->
     let r := um_sockmap_clean TIME_INVALID cfg time_val st in
     let expired := fun s : um_sockmap =>
       in_use s <> 0 /\
       (last_use s = TIME_INVALID \/
        time_val - last_use s >= timeout cfg) in
     (forall j s, map st !! j = Some s ->
        (expired s ->
           map (snd r) !! j =
             Some {| in_use := 0; sock := sock s; last_use := last_use s;
                     from := from s |}) /\
        (~ expired s -> map (snd r) !! j = Some s)) /\
     length (map (snd r)) = length (map st) /\
     (forall s, s ∈ stale_slots cfg time_val (map st) <->
                s ∈ map st /\ expired s) /\
     trace (snd r) =
       trace st ++
         EvTime time_val :: purge_events (stale_slots cfg time_val (map st)) /\
     open_fds (snd r) =
       open_fds st ∖ socks_of (stale_slots cfg time_val (map st)) /\
     active_fd_set (snd r) =
       active_fd_set st ∖ socks_of (stale_slots cfg time_val (map st)) /\
     (fst r = 1 <-> exists s, s ∈ map st /\ expired s) /\
     (fst r = 0 \/ fst r = 1)) /\
  (0 < timeout cfg ->
     forall (fd : Z) (addr : sockaddr_in) (k : nat) (st1 : um_state),
       um_sockmap_ins TIME_INVALID fd addr st = (Z.of_nat k, st1) ->
       let r := um_sockmap_clean TIME_INVALID cfg time_val st1 in
       map (snd r) !! k =
         Some {| in_use := 0; sock := fd; last_use := TIME_INVALID;
                 from := addr |} /\
       fst r = 1 /\
       EvClose fd ∈ trace (snd r) /\
       fd ∉ active_fd_set (snd r)).
Proof.
  split; [apply um_sockmap_clean_off |].
  split.
  - intros Hpos r expired.
    destruct (um_sockmap_clean_on cfg time_val st Hpos)
      as (Hm & Ht & Ho & Ha & Hp).
    fold r in Hm, Ht, Ho, Ha, Hp.
    split.
    { intros j s Hs. rewrite Hm, list_lookup_fmap, Hs. simpl.
      unfold reap_slot, expired.
      destruct (stale TIME_INVALID cfg time_val s) eqn:Hst.
      - split; [done |]. intros Hn. destruct Hn. by apply stale_iff.
      - split; [| done]. intros He. apply stale_iff in He. congruence. }
    split; [by rewrite Hm, length_fmap |].
    split; [intros s; apply elem_of_stale_slots |].
    split; [done |]. split; [done |]. split; [done |].
    split.
    { rewrite Hp, purged_flag_one.
      split; intros [s Hs]; exists s; by apply elem_of_stale_slots. }
    rewrite Hp. destruct (stale_slots cfg time_val (map st)); [by left | by right].
  - intros Hpos fd addr k st1 Hins r.
    destruct (um_sockmap_ins_spec fd addr st)
      as [[Hr _] | (k' & s & Hmk & Hs & Hall & Hr)].
    { rewrite Hr in Hins. injection Hins as Hk _. lia. }
    rewrite Hr in Hins. injection Hins as Hk <-.
    apply Nat2Z.inj in Hk. subst k'.
    destruct (um_sockmap_clean_on cfg time_val
      (set_map (<[k:=new_slot TIME_INVALID fd addr]> (map st)) st) Hpos)
      as (Hm & Ht & Ho & Ha & Hp).
    fold r in Hm, Ht, Ho, Ha, Hp. simpl in Hm, Ht, Ho, Ha, Hp.
    assert (Hk : <[k:=new_slot TIME_INVALID fd addr]> (map st) !! k =
                 Some (new_slot TIME_INVALID fd addr)).
    { apply list_lookup_insert_eq. by apply lookup_lt_Some in Hmk. }
    assert (Hst : stale TIME_INVALID cfg time_val
                    (new_slot TIME_INVALID fd addr) = true).
    { unfold stale. simpl. by rewrite Z.eqb_refl. }
    assert (Hin : new_slot TIME_INVALID fd addr ∈
              stale_slots cfg time_val
                (<[k:=new_slot TIME_INVALID fd addr]> (map st))).
    { unfold stale_slots. apply list_elem_of_filter. split; [done |].
      by apply list_elem_of_lookup_2 in Hk. }
    split.
    { rewrite Hm, list_lookup_fmap, Hk. simpl. unfold reap_slot.
      by rewrite Hst. }
    split.
    { rewrite Hp. apply purged_flag_one. eauto. }
    split.
    { rewrite Ht. apply elem_of_app. right. apply elem_of_cons. right.
      unfold purge_events. apply list_elem_of_bind.
      eexists. split; [| exact Hin]. simpl. apply list_elem_of_here. }
    rewrite Ha. apply not_elem_of_difference. right.
    unfold socks_of. apply elem_of_list_to_set, list_elem_of_fmap.
    eexists. split; [| exact Hin]. done.
Qed.

(** C7: a second call of [um_sockmap_clean] at the same time, with nothing
    in between, purges nothing: it returns 0 and leaves the table, the
    descriptor set, [sock_fd_max] and the open descriptors as the first call
    left them; all it does is ask for the time again when the timeout is
    positive. *)
Theorem reap_twice_purges_nothing (cfg : um_config) (time_val : Z)
    (st : um_state) :
  let r1 := um_sockmap_clean TIME_INVALID cfg time_val st in
  let r2 := um_sockmap_clean TIME_INVALID cfg time_val (snd r1) in
  fst r2 = 0 /\
  map (snd r2) = map (snd r1) /\
  active_fd_set (snd r2) = active_fd_set (snd r1) /\
  sock_fd_max (snd r2) = sock_fd_max (snd r1) /\
  open_fds (snd r2) = open_fds (snd r1) /\
  trace (snd r2) =
    trace (snd r1) ++ (if timeout cfg <=? 0 then [] else [EvTime time_val]).
Proof.
  intros r1 r2. subst r2.
  destruct (Z.leb_spec (timeout cfg) 0) as [Hoff | Hon].
  - rewrite (um_sockmap_clean_off cfg time_val (snd r1) Hoff). simpl.
    rewrite app_nil_r. done.
  - destruct (um_sockmap_clean_on cfg time_val st Hon) as (Hm & _).
    fold r1 in Hm.
    unfold um_sockmap_clean at 1 2 3 4 5 6.
    destruct (Z.leb_spec (timeout cfg) 0); [lia |].
    rewrite (clean_loop_none cfg time_val (emit (EvTime time_val) (snd r1))).
    + done.
    + intros j s. simpl. rewrite Hm, list_lookup_fmap.
      destruct (map st !! j) as [s0|]; [| done]. simpl.
      intros [= <-]. apply reap_slot_not_stale.
Qed.

(** ** Shutdown *)

Lemma active_slots_snoc (l : list um_sockmap) (s : um_sockmap) :
  active_slots (l ++ [s]) = active_slots l ++ (if active s then [s] else []).
Proof.
  unfold active_slots. rewrite filter_app. f_equal.
  destruct (active s) eqn:E.
  - by rewrite filter_cons_True.
  - rewrite filter_cons_False; [done | congruence].
Qed.

Lemma free_slot_in_use (s : um_sockmap) : in_use (free_slot s) = 0.
Proof.
  unfold free_slot, active.
  destruct (Z.eqb_spec (in_use s) 0) as [E|E]; simpl; done.
Qed.

Lemma cleanup_spec (st : um_state) :
  map (cleanup st) = free_slot <$> map st /\
  trace (cleanup st) =
    trace st ++ (EvClose <$> (sock <$> active_slots (map st))) /\
  open_fds (cleanup st) = open_fds st ∖ socks_of (active_slots (map st)) /\
  active_fd_set (cleanup st) = active_fd_set st /\
  sock_fd_max (cleanup st) = sock_fd_max st.
Proof.
  set (m := map st).
  pose (P := fun (i : nat) (t : um_state) =>
    (forall j, map t !! j =
       if decide (j < i)%nat then free_slot <$> m !! j else m !! j) /\
    trace t = trace st ++ (EvClose <$> (sock <$> active_slots (take i m))) /\
    open_fds t = open_fds st ∖ socks_of (active_slots (take i m)) /\
    active_fd_set t = active_fd_set st /\
    sock_fd_max t = sock_fd_max st).
  assert (HP : P (0 + length m)%nat (cleanup st)).
  { unfold cleanup. apply (for_loop_inv P).
    - unfold P. simpl. split; [done |]. rewrite app_nil_r.
      split; [done |]. split; [set_solver | done].
    - intros j t Hj (Hmap & Htr & Hopen & Hact & Hmax).
      assert (Hmj : map t !! j = m !! j).
      { rewrite Hmap. destruct (decide (j < j)%nat); [lia | done]. }
      destruct (m !! j) as [s|] eqn:Hs;
        [| apply lookup_ge_None in Hs; unfold m in *; lia].
      assert (Htake : take (Datatypes.S j) m = take j m ++ [s])
        by (by apply take_S_r).
      unfold P, cleanup_body. rewrite Hmj, Htake, active_slots_snoc.
      destruct (active s) eqn:Hst.
      + simpl. split.
        { intros k. destruct (decide (k = j)) as [-> | Hne].
          - rewrite list_lookup_insert_eq
              by (apply lookup_lt_is_Some; rewrite Hmj; eauto).
            destruct (decide (j < Datatypes.S j)%nat); [| lia].
            rewrite Hs. simpl. unfold free_slot. by rewrite Hst.
          - rewrite list_lookup_insert_ne by done. rewrite Hmap.
            destruct (decide (k < j)%nat), (decide (k < Datatypes.S j)%nat);
              try done; lia. }
        rewrite socks_of_snoc, !fmap_app, Htr, Hopen. simpl.
        split; [by rewrite <- !app_assoc |].
        split; [set_solver | done].
      + simpl. rewrite app_nil_r.
        split; [| done].
        intros k. rewrite Hmap.
        destruct (decide (k = j)) as [-> | Hne].
        * destruct (decide (j < j)%nat); [lia |].
          destruct (decide (j < Datatypes.S j)%nat); [| lia].
          rewrite Hs. simpl. unfold free_slot. by rewrite Hst.
        * destruct (decide (k < j)%nat), (decide (k < Datatypes.S j)%nat);
            try done; lia. }
  destruct HP as (Hmap & Htr & Hopen & Hact & Hmax). simpl in *.
  rewrite firstn_all in *.
  split; [| done].
  apply list_eq. intros j. rewrite Hmap, list_lookup_fmap.
  destruct (decide (j < length m)%nat) as [Hlt | Hge]; [done |].
  rewrite lookup_ge_None_2 by lia. done.
Qed.

Lemma sighanlder_term (signal_term signum : Z) :
  signum = SIGHUP \/ signum = SIGINT \/ signum = SIGTERM ->
  sighanlder signal_term signum = 1.
Proof. intros [-> | [-> | ->]]; done. Qed.

(** C9: when [signal_term] is set at the top of an iteration, the loop
    consumes nothing more from the outside: [start] closes the socket of
    every slot in use, leaves every slot free and returns 0.  A signal that
    arrives during an iteration lets that iteration finish first. *)
Theorem shutdown_closes_all_returns_zero (mode : um_mode) (cfg : um_config)
    (inputs : list iter_input) (signal_term : Z) (st : um_state) :
  signal_term <> 0 ->
  start_loop TIME_INVALID transform mode cfg inputs signal_term st =
    Some (0, cleanup st) /\
  (forall s, s ∈ map (cleanup st) -> in_use s = 0) /\
  map (cleanup st) = free_slot <$> map st /\
  trace (cleanup st) =
    trace st ++ (EvClose <$> (sock <$> active_slots (map st))) /\
  (forall s, s ∈ map st -> in_use s <> 0 -> EvClose (sock s) ∈ trace (cleanup st)) /\
  open_fds (cleanup st) = open_fds st ∖ socks_of (active_slots (map st)) /\
  (exists st0, map st0 = map st /\
     start TIME_INVALID transform mode cfg inputs signal_term st =
       Some (0, cleanup st0)) /\
  (forall (inp : iter_input) (signum : Z),
     signum = SIGHUP \/ signum = SIGINT \/ signum = SIGTERM ->
     signum ∈ in_signals inp ->
     start_loop TIME_INVALID transform mode cfg (inp :: inputs) 0 st =
       Some (0, cleanup (loop_body TIME_INVALID transform mode cfg inp st))).
Proof.
  intros Hterm.
  destruct (cleanup_spec st) as (Hm & Ht & Ho & _).
  split.
  { destruct inputs; simpl; destruct (Z.eqb_spec signal_term 0); done. }
  split.
  { intros s. rewrite Hm. intros Hs. apply list_elem_of_fmap in Hs.
    destruct Hs as (s0 & -> & _). apply free_slot_in_use. }
  split; [done |]. split; [done |].
  split.
  { intros s Hs Hin. rewrite Ht. apply elem_of_app. right.
    apply list_elem_of_fmap. exists (sock s). split; [done |].
    apply list_elem_of_fmap. exists s. split; [done |].
    unfold active_slots. apply list_elem_of_filter. split; [| done].
    unfold active. by destruct (Z.eqb_spec (in_use s) 0). }
  split; [done |].
  split.
  { eexists. split; [| unfold start; destruct inputs; simpl;
                       destruct (Z.eqb_spec signal_term 0); done].
    by destruct (update_sock_fd_max_frame cfg
         (emit (EvLog (LogTimeout (timeout cfg)))
            (set_active_fd_set {[bind_sock cfg]} st))) as (Hm0 & _). }
  intros inp signum Hsig Hin. simpl.
  assert (Hset : foldl sighanlder 0 (in_signals inp) <> 0).
  { assert (Hgen : forall l v, (v <> 0 \/ signum ∈ l) ->
                     foldl sighanlder v l <> 0).
    { induction l as [|x l IH]; intros v [Hv | Hl]; simpl.
      - done.
      - by apply not_elem_of_nil in Hl.
      - apply IH. left. unfold sighanlder.
        destruct ((x =? SIGHUP) || (x =? SIGINT) || (x =? SIGTERM)); done.
      - apply elem_of_cons in Hl as [<- | Hl].
        + apply IH. left. by rewrite sighanlder_term.
        + apply IH. by right. }
    apply Hgen. by right. }
  destruct inputs; simpl;
    destruct (Z.eqb_spec (foldl sighanlder 0 (in_signals inp)) 0); done.
Qed.

(** ** Distinct sessions *)

Lemma table_inv_distinct (m : list um_sockmap) :
  table_inv m <-> sessions_distinct m.
Proof.
  split.
  - intros H i j si sj Hi Hj Ai Aj Hne.
    destruct (H i j si sj Hi Hj Ai Aj) as [Hd He].
    assert (from si <> from sj) by (intros E; by apply Hne, He).
    split; [done |]. by apply Hd.
  - intros H i j si sj Hi Hj Ai Aj. split.
    + intros Hf.
      assert (i <> j) by (intros ->; congruence).
      split; [done |]. by apply (H i j si sj).
    + intros Hf. destruct (decide (i = j)) as [-> | Hne]; [done |].
      destruct (H i j si sj Hi Hj Ai Aj Hne) as [Hd _]. done.
Qed.

Lemma sub_sessions_refl (m : list um_sockmap) : sub_sessions m m.
Proof. intros j s Hj Hs. by exists s. Qed.

Lemma sub_sessions_trans (m1 m2 m3 : list um_sockmap) :
  sub_sessions m1 m2 -> sub_sessions m2 m3 -> sub_sessions m1 m3.
Proof.
  intros H12 H23 j s3 Hj Hs.
  destruct (H23 j s3 Hj Hs) as (s2 & Hj2 & Hs2 & E1 & E2).
  destruct (H12 j s2 Hj2 Hs2) as (s1 & Hj1 & Hs1 & E3 & E4).
  exists s1. split; [done |]. split; [done |]. split; congruence.
Qed.

Lemma sessions_distinct_sub (m m' : list um_sockmap) :
  sessions_distinct m -> sub_sessions m m' -> sessions_distinct m'.
Proof.
  intros H Hsub i j si sj Hi Hj Ai Aj Hne.
  destruct (Hsub i si Hi Ai) as (ti & Hti & Ati & Es & Ef).
  destruct (Hsub j sj Hj Aj) as (tj & Htj & Atj & Es' & Ef').
  rewrite <- Es, <- Ef, <- Es', <- Ef'. by apply (H i j).
Qed.

Lemma Inv_sub (st st' : um_state) :
  Inv st -> sub_sessions (map st) (map st') ->
  (forall j s s', map st !! j = Some s -> in_use s <> 0 ->
     map st' !! j = Some s' -> in_use s' <> 0 -> sock s ∈ open_fds st') ->
  Inv st'.
Proof.
  intros [Ht Ho] Hsub Hopen. split.
  - apply table_inv_distinct.
    apply (sessions_distinct_sub (map st)); [by apply table_inv_distinct | done].
  - intros j s' Hj Hs'.
    destruct (Hsub j s' Hj Hs') as (s & Hsj & Hs & Es & _).
    rewrite <- Es. by apply (Hopen j s s').
Qed.

(** States that agree on the table and on the open descriptors. *)
Lemma Inv_same (st st' : um_state) :
  map st' = map st -> open_fds st' = open_fds st -> Inv st -> Inv st'.
Proof.
  intros Hm Ho [Ht Hs]. split.
  - by rewrite Hm.
  - intros j s. rewrite Hm, Ho. apply Hs.
Qed.

Lemma sub_sessions_alter_last_use (m : list um_sockmap) (idx : nat) (v : Z) :
  sub_sessions m (alter (with_last_use v) idx m).
Proof.
  intros j s' Hj Hs'.
  destruct (decide (idx = j)) as [-> | Hne].
  - rewrite list_lookup_alter_eq in Hj.
    destruct (m !! j) as [s|] eqn:E; [| done].
    simpl in Hj. injection Hj as <-. by exists s.
  - rewrite list_lookup_alter_ne in Hj by done. by exists s'.
Qed.

Lemma UPDATE_LAST_USE_frame (idx : nat) (time_val : Z) (st : um_state) :
  let st' := UPDATE_LAST_USE TIME_INVALID idx time_val st in
  sub_sessions (map st) (map st') /\
  sub_sessions (map st') (map st) /\
  (sock <$> map st') = (sock <$> map st) /\
  open_fds st' = open_fds st /\
  active_fd_set st' = active_fd_set st /\
  trace st' = trace st ++ [EvTime time_val].
Proof.
  unfold UPDATE_LAST_USE.
  destruct (negb (time_val =? TIME_INVALID)); simpl.
  - split; [apply sub_sessions_alter_last_use |].
    split.
    { intros j s Hj Hs.
      destruct (decide (idx = j)) as [-> | Hne].
      - exists (with_last_use time_val s).
        rewrite list_lookup_alter_eq, Hj. done.
      - exists s. by rewrite list_lookup_alter_ne. }
    split; [| done].
    apply list_eq. intros j. rewrite !list_lookup_fmap.
    destruct (decide (idx = j)) as [-> | Hne].
    + rewrite list_lookup_alter_eq. by destruct (map st !! j).
    + by rewrite list_lookup_alter_ne.
  - split; [apply sub_sessions_refl |]. split; [apply sub_sessions_refl |].
    done.
Qed.

Lemma UPDATE_LAST_USE_Inv (idx : nat) (time_val : Z) (st : um_state) :
  Inv st -> Inv (UPDATE_LAST_USE TIME_INVALID idx time_val st).
Proof.
  intros HI.
  destruct (UPDATE_LAST_USE_frame idx time_val st) as (Hs & _ & _ & Ho & _).
  apply (Inv_sub st); [done | done |].
  intros j s s' Hj Aj _ _. rewrite Ho. by apply (proj2 HI j).
Qed.

Lemma sub_sessions_reap (cfg : um_config) (time_val : Z)
    (m : list um_sockmap) :
  sub_sessions m (reap_slot cfg time_val <$> m).
Proof.
  intros j s' Hj Hs'. rewrite list_lookup_fmap in Hj.
  destruct (m !! j) as [s|] eqn:E; [| done].
  simpl in Hj. injection Hj as <-. exists s. split; [done |].
  unfold reap_slot in *.
  destruct (stale TIME_INVALID cfg time_val s); [done | done].
Qed.

Lemma um_sockmap_clean_sub (cfg : um_config) (time_val : Z) (st : um_state) :
  sub_sessions (map st)
    (map (snd (um_sockmap_clean TIME_INVALID cfg time_val st))).
Proof.
  destruct (Z.leb_spec (timeout cfg) 0) as [Hoff | Hon].
  - rewrite um_sockmap_clean_off by done. apply sub_sessions_refl.
  - destruct (um_sockmap_clean_on cfg time_val st Hon) as (Hm & _).
    rewrite Hm. apply sub_sessions_reap.
Qed.

(** The reaper keeps the invariant. *)
Lemma um_sockmap_clean_Inv (cfg : um_config) (time_val : Z) (st : um_state) :
  Inv st -> Inv (snd (um_sockmap_clean TIME_INVALID cfg time_val st)).
Proof.
  intros HI.
  destruct (Z.leb_spec (timeout cfg) 0) as [Hoff | Hon].
  { by rewrite um_sockmap_clean_off. }
  destruct (um_sockmap_clean_on cfg time_val st Hon) as (Hm & _ & Ho & _).
  apply (Inv_sub st); [done | rewrite Hm; apply sub_sessions_reap |].
  intros j s s' Hj Aj Hj' Aj'. rewrite Ho.
  apply elem_of_difference. split; [by apply (proj2 HI j) |].
  unfold socks_of. rewrite elem_of_list_to_set, list_elem_of_fmap.
  intros (t & Est & Ht).
  apply elem_of_stale_slots in Ht as (Hin & At & Hexp).
  apply list_elem_of_lookup in Hin as [k Hk].
  rewrite Hm, list_lookup_fmap, Hj in Hj'. simpl in Hj'.
  injection Hj' as <-.
  destruct (decide (j = k)) as [-> | Hne].
  - assert (s = t) as -> by congruence.
    unfold reap_slot in Aj'.
    assert (Hst : stale TIME_INVALID cfg time_val t = true)
      by (by apply stale_iff).
    rewrite Hst in Aj'. by simpl in Aj'.
  - destruct HI as [HT _]. apply table_inv_distinct in HT.
    destruct (HT j k s t Hj Hk Aj At Hne) as [_ Hs]. done.
Qed.

Lemma UPDATE_SOCK_FD_MAX_ADD_frame (fd : Z) (st : um_state) :
  map (UPDATE_SOCK_FD_MAX_ADD fd st) = map st /\
  active_fd_set (UPDATE_SOCK_FD_MAX_ADD fd st) = active_fd_set st /\
  open_fds (UPDATE_SOCK_FD_MAX_ADD fd st) = open_fds st /\
  trace (UPDATE_SOCK_FD_MAX_ADD fd st) = trace st.
Proof. unfold UPDATE_SOCK_FD_MAX_ADD. by destruct (sock_fd_max st <? fd). Qed.

Lemma emit_Inv (e : event) (st : um_state) : Inv st -> Inv (emit e st).
Proof. by apply Inv_same. Qed.

(** The reaper closes only sockets of sessions in use. *)
Lemma um_sockmap_clean_keeps_open (cfg : um_config) (time_val : Z)
    (st : um_state) (fd : Z) :
  fd ∈ open_fds st ->
  (forall j s, map st !! j = Some s -> in_use s <> 0 -> sock s <> fd) ->
  fd ∈ open_fds (snd (um_sockmap_clean TIME_INVALID cfg time_val st)).
Proof.
  intros Hfd Hne.
  destruct (Z.leb_spec (timeout cfg) 0) as [Hoff | Hon].
  { by rewrite um_sockmap_clean_off. }
  destruct (um_sockmap_clean_on cfg time_val st Hon) as (_ & _ & Ho & _).
  rewrite Ho. apply elem_of_difference. split; [done |].
  unfold socks_of. rewrite elem_of_list_to_set, list_elem_of_fmap.
  intros (t & Est & Ht).
  apply elem_of_stale_slots in Ht as (Hin & At & _).
  apply list_elem_of_lookup in Hin as [k Hk].
  by apply (Hne k t).
Qed.

Lemma um_sockmap_clean_shrinks (cfg : um_config) (time_val : Z)
    (st : um_state) :
  open_fds (snd (um_sockmap_clean TIME_INVALID cfg time_val st)) ⊆ open_fds st /\
  active_fd_set (snd (um_sockmap_clean TIME_INVALID cfg time_val st))
    ⊆ active_fd_set st.
Proof.
  destruct (Z.leb_spec (timeout cfg) 0) as [Hoff | Hon].
  { by rewrite um_sockmap_clean_off. }
  destruct (um_sockmap_clean_on cfg time_val st Hon) as (_ & _ & Ho & Ha & _).
  rewrite Ho, Ha. set_solver.
Qed.

(** Insertion of an open socket that no session holds, for an address that
    no session has, keeps the invariant. *)
Lemma um_sockmap_ins_Inv (fd : Z) (addr : sockaddr_in) (st : um_state) :
  Inv st ->
  fd ∈ open_fds st ->
  (forall j s, map st !! j = Some s -> in_use s <> 0 ->
     sock s <> fd /\ from s <> addr) ->
  Inv (snd (um_sockmap_ins TIME_INVALID fd addr st)).
Proof.
  intros [HT HO] Hfd Hnew.
  destruct (um_sockmap_ins_spec fd addr st)
    as [[Hr _] | (k & s & Hmk & Hs & _ & Hr)]; rewrite Hr; simpl.
  { done. }
  assert (Hk : (k < length (map st))%nat) by (by apply lookup_lt_Some in Hmk).
  apply table_inv_distinct in HT.
  split.
  - apply table_inv_distinct.
    intros i j si sj Hi Hj Ai Aj Hne. simpl in Hi, Hj.
    destruct (decide (i = k)) as [-> | Hik];
      destruct (decide (j = k)) as [-> | Hjk]; try done.
    + rewrite list_lookup_insert_eq in Hi by done.
      rewrite list_lookup_insert_ne in Hj by done.
      injection Hi as <-. simpl.
      destruct (Hnew j sj Hj Aj) as [H1 H2]. split; congruence.
    + rewrite list_lookup_insert_ne in Hi by done.
      rewrite list_lookup_insert_eq in Hj by done.
      injection Hj as <-. simpl.
      destruct (Hnew i si Hi Ai) as [H1 H2]. split; congruence.
    + rewrite list_lookup_insert_ne in Hi by done.
      rewrite list_lookup_insert_ne in Hj by done.
      by apply (HT i j).
  - intros j s' Hj Aj. simpl in Hj |- *.
    destruct (decide (j = k)) as [-> | Hjk].
    + rewrite list_lookup_insert_eq in Hj by done. by injection Hj as <-.
    + rewrite list_lookup_insert_ne in Hj by done. by apply (HO j).
Qed.

Lemma um_sockmap_ins_frame (fd : Z) (addr : sockaddr_in) (st : um_state) :
  let st' := snd (um_sockmap_ins TIME_INVALID fd addr st) in
  open_fds st' = open_fds st /\ active_fd_set st' = active_fd_set st /\
  trace st' = trace st /\ sock_fd_max st' = sock_fd_max st.
Proof.
  destruct (um_sockmap_ins_spec fd addr st)
    as [[Hr _] | (k & s & _ & _ & _ & Hr)]; simpl; rewrite Hr; done.
Qed.

Lemma hit_false_from (a : sockaddr_in) (s : um_sockmap) :
  hit a s = false -> in_use s <> 0 -> from s <> a.
Proof.
  unfold hit, active. intros Hh Hs E. subst a.
  rewrite sockaddr_in_cmp_refl in Hh.
  destruct (Z.eqb_spec (in_use s) 0); done.
Qed.

(** Lines 221-249 keep the invariant. *)
Lemma new_connection_Inv (cfg : um_config) (inp : iter_input)
    (st : um_state) :
  Inv st -> fresh_sock st inp ->
  (forall j s, map st !! j = Some s -> hit (in_recvfrom_addr inp) s = false) ->
  Inv (snd (new_connection TIME_INVALID cfg inp st)).
Proof.
  intros HI Hfresh Hmiss. unfold new_connection, fresh_sock in *.
  remember (in_new_sock inp) as tmp eqn:Etmp.
  set (st1 := emit (EvLog (LogNewConn (in_recvfrom_addr inp))) st).
  destruct (Z.ltb_spec tmp 0) as [Hneg | Hpos].
  { simpl. unfold sys_socket.
    destruct (Z.ltb_spec tmp 0); [| lia]. by apply emit_Inv, emit_Inv. }
  destruct Hfresh as [Hf | Hf]; [lia |].
  set (st2 := sys_socket tmp st1).
  assert (Hm2 : map st2 = map st).
  { unfold st2, sys_socket. by destruct (tmp <? 0). }
  assert (Ho2 : open_fds st2 = {[tmp]} ∪ open_fds st).
  { unfold st2, sys_socket. destruct (Z.ltb_spec tmp 0); [lia | done]. }
  assert (HI2 : Inv st2).
  { destruct HI as [HT HO]. split; [by rewrite Hm2 |].
    intros j s. rewrite Hm2, Ho2. intros Hj Aj.
    apply elem_of_union. right. by apply (HO j). }
  assert (Hne : forall j s, map st2 !! j = Some s -> in_use s <> 0 ->
                  sock s <> tmp).
  { intros j s. rewrite Hm2. intros Hj Aj E.
    apply Hf. rewrite <- E. by apply (proj2 HI j). }
  set (st3 := snd (um_sockmap_clean TIME_INVALID cfg (in_time_reap inp) st2)).
  assert (HI3 : Inv st3) by (by apply um_sockmap_clean_Inv).
  assert (Hopen3 : tmp ∈ open_fds st3).
  { apply um_sockmap_clean_keeps_open; [| done]. rewrite Ho2. set_solver. }
  assert (Hnew3 : forall j s, map st3 !! j = Some s -> in_use s <> 0 ->
                    sock s <> tmp /\ from s <> in_recvfrom_addr inp).
  { intros j s Hj Aj.
    destruct (um_sockmap_clean_sub cfg (in_time_reap inp) st2 j s Hj Aj)
      as (s0 & Hj0 & A0 & Es & Ef).
    rewrite <- Es, <- Ef. split; [by apply (Hne j) |].
    apply hit_false_from; [| done]. apply (Hmiss j). by rewrite <- Hm2. }
  pose proof (um_sockmap_ins_Inv tmp (in_recvfrom_addr inp) st3
                HI3 Hopen3 Hnew3) as HI4.
  destruct (um_sockmap_ins TIME_INVALID tmp (in_recvfrom_addr inp) st3)
    as [sock_idx st4] eqn:Hins.
  simpl in HI4.
  destruct (0 <=? sock_idx); simpl.
  - destruct (UPDATE_SOCK_FD_MAX_ADD_frame tmp
      (emit (EvConnect tmp (conn_addr cfg)) (FD_SET tmp st4)))
      as (Fm & _ & Fo & _).
    eapply Inv_same; [exact Fm | exact Fo |]. by apply emit_Inv.
  - by apply emit_Inv.
Qed.

Lemma forward_upstream_Inv (mode : um_mode) (cfg : um_config)
    (inp : iter_input) (buf : list Byte.byte) (sock_idx : Z)
    (st : um_state) :
  Inv st ->
  Inv (forward_upstream TIME_INVALID transform mode cfg inp buf sock_idx st).
Proof.
  intros HI. unfold forward_upstream.
  destruct (0 <=? sock_idx); [| done].
  by apply UPDATE_LAST_USE_Inv, emit_Inv.
Qed.

(** The listening-socket branch keeps the invariant. *)
Lemma dispatch_listen_Inv (mode : um_mode) (cfg : um_config)
    (inp : iter_input) (st : um_state) :
  Inv st -> fresh_sock st inp ->
  Inv (snd (dispatch_listen TIME_INVALID transform mode cfg inp st)).
Proof.
  intros HI Hfresh. unfold dispatch_listen.
  destruct (bool_decide (bind_sock cfg ∈ in_read_fd_set inp)); [| done].
  destruct (0 <? in_recvfrom_ret inp); [| by apply emit_Inv].
  set (st1 := emit (EvRecvfrom (bind_sock cfg) (in_recvfrom_ret inp)) st).
  destruct (start_lookup_spec (in_recvfrom_addr inp) (map st1))
    as [[Hr Hall] | (k & s & Hr & _)]; rewrite Hr.
  - change (-1 <? 0) with true. cbv iota.
    pose proof (new_connection_Inv cfg inp st1) as HN.
    destruct (new_connection TIME_INVALID cfg inp st1) as [[idx trig] st2].
    simpl. apply forward_upstream_Inv. apply HN; [by apply emit_Inv | done | done].
  - destruct (Z.ltb_spec (Z.of_nat k) 0) as [Hlt | _]; [lia |].
    simpl. apply forward_upstream_Inv. by apply emit_Inv.
Qed.

Lemma drain_body_Inv (mode : um_mode) (cfg : um_config) (inp : iter_input)
    (i : nat) (st : um_state) :
  Inv st -> Inv (drain_body TIME_INVALID transform mode cfg inp i st).
Proof.
  intros HI. unfold drain_body.
  destruct (map st !! i) as [s|]; [| done].
  destruct (active s && bool_decide (sock s ∈ in_read_fd_set inp)); [| done].
  destruct (in_recv inp i) as [ret rbuf].
  destruct (0 <? ret); [| by apply emit_Inv].
  by apply emit_Inv, UPDATE_LAST_USE_Inv, emit_Inv.
Qed.

Lemma drain_sessions_Inv (mode : um_mode) (cfg : um_config)
    (inp : iter_input) (st : um_state) :
  Inv st -> Inv (drain_sessions TIME_INVALID transform mode cfg inp st).
Proof.
  intros HI. unfold drain_sessions.
  apply (for_loop_inv (fun _ t => Inv t)); [done |].
  intros j t _. apply drain_body_Inv.
Qed.

Lemma maintain_Inv (cfg : um_config) (inp : iter_input) (trigged : bool)
    (st : um_state) :
  Inv st -> Inv (maintain TIME_INVALID cfg inp trigged st).
Proof.
  intros HI. unfold maintain. destruct trigged; [done |].
  by apply um_sockmap_clean_Inv.
Qed.

Lemma loop_body_Inv (mode : um_mode) (cfg : um_config) (inp : iter_input)
    (st : um_state) :
  Inv st -> fresh_sock st inp ->
  Inv (loop_body TIME_INVALID transform mode cfg inp st).
Proof.
  intros HI Hfresh. unfold loop_body.
  destruct (in_select_ret inp <=? 0); [by apply emit_Inv, emit_Inv |].
  pose proof (dispatch_listen_Inv mode cfg inp
    (emit (EvSelect (sock_fd_max st + 1) (in_select_ret inp)) st)) as HD.
  destruct (dispatch_listen TIME_INVALID transform mode cfg inp
    (emit (EvSelect (sock_fd_max st + 1) (in_select_ret inp)) st))
    as [trigged st1].
  apply maintain_Inv, drain_sessions_Inv, HD; [by apply emit_Inv | done].
Qed.

(** A table of free slots, as [main] leaves it before [start]. *)
Lemma all_free_Inv (st : um_state) :
  Forall (fun s => in_use s = 0) (map st) -> Inv st.
Proof.
  intros Hfree. split.
  - intros i j si sj Hi Hj Ai.
    by rewrite (Forall_lookup_1 _ _ _ _ Hfree Hi) in Ai.
  - intros j s Hj Aj. by rewrite (Forall_lookup_1 _ _ _ _ Hfree Hj) in Aj.
Qed.

Lemma cleanup_Inv (st : um_state) : Inv (cleanup st).
Proof.
  destruct (cleanup_spec st) as (Hm & _).
  assert (Hfree : forall j s, map (cleanup st) !! j = Some s -> in_use s = 0).
  { intros j s. rewrite Hm, list_lookup_fmap.
    destruct (map st !! j); [| done]. simpl. intros [= <-].
    apply free_slot_in_use. }
  split.
  - intros i j si sj Hi Hj Ai. by rewrite (Hfree i si Hi) in Ai.
  - intros j s Hj Aj. by rewrite (Hfree j s Hj) in Aj.
Qed.

(** C3: the listening-socket branch, the drain of the session sockets, the
    reaper, the clean up at shutdown and a whole iteration of the loop all
    keep the invariant: sessions in use with different client addresses sit
    in different slots and hold different sockets, and no client address
    has two sessions in use.  The invariant is carried together with the
    fact that the sockets of the sessions in use are open, and [NEW_SOCK()]
    is taken to return an error or a descriptor that was not open. *)
Theorem distinct_sessions_preserved (mode : um_mode) (cfg : um_config)
    (inp : iter_input) (st : um_state) :
  table_inv (map st) -> socks_open st -> fresh_sock st inp ->
  let listen := snd (dispatch_listen TIME_INVALID transform mode cfg inp st) in
  let drain := drain_sessions TIME_INVALID transform mode cfg inp st in
  let reap := fun time_val =>
    snd (um_sockmap_clean TIME_INVALID cfg time_val st) in
  let iter := loop_body TIME_INVALID transform mode cfg inp st in
  (table_inv (map listen) /\ socks_open listen) /\
  (table_inv (map drain) /\ socks_open drain) /\
  (forall time_val,
     table_inv (map (reap time_val)) /\ socks_open (reap time_val)) /\
  (table_inv (map (cleanup st)) /\ socks_open (cleanup st)) /\
  (table_inv (map iter) /\ socks_open iter).
Proof.
  intros HT HO Hfresh. simpl.
  assert (HI : Inv st) by done.
  split; [by apply dispatch_listen_Inv |].
  split; [by apply drain_sessions_Inv |].
  split; [intros time_val; by apply um_sockmap_clean_Inv |].
  split; [apply cleanup_Inv |].
  by apply loop_body_Inv.
Qed.

(** ** Descriptors that nothing refers to *)

Lemma Frame_same (L : gset Z) (st st' : um_state) :
  (sock <$> map st') = (sock <$> map st) ->
  open_fds st' = open_fds st ->
  active_fd_set st' = active_fd_set st ->
  Frame L st -> Frame L st'.
Proof.
  intros Hm Ho Ha (F1 & F2 & F3 & F4). unfold Frame.
  rewrite Ho, Ha. split; [done |]. split; [done |]. split; [done |].
  intros j s' Hj.
  assert (Hs : (sock <$> map st') !! j = Some (sock s'))
    by (by rewrite list_lookup_fmap, Hj).
  rewrite Hm, list_lookup_fmap in Hs.
  destruct (map st !! j) as [s|] eqn:E; [| done].
  simpl in Hs. injection Hs as <-. by apply (F4 j).
Qed.

Lemma emit_Frame (L : gset Z) (e : event) (st : um_state) :
  Frame L st -> Frame L (emit e st).
Proof. by apply Frame_same. Qed.

Lemma UPDATE_LAST_USE_Frame (L : gset Z) (idx : nat) (time_val : Z)
    (st : um_state) :
  Frame L st -> Frame L (UPDATE_LAST_USE TIME_INVALID idx time_val st).
Proof.
  destruct (UPDATE_LAST_USE_frame idx time_val st) as (_ & _ & Hs & Ho & Ha & _).
  by apply Frame_same.
Qed.

Lemma reap_slot_socks (cfg : um_config) (time_val : Z) (m : list um_sockmap) :
  (sock <$> (reap_slot cfg time_val <$> m)) = (sock <$> m).
Proof.
  rewrite <- list_fmap_compose. apply list_fmap_ext.
  intros _ s _. simpl. unfold reap_slot.
  by destruct (stale TIME_INVALID cfg time_val s).
Qed.

Lemma um_sockmap_clean_socks (cfg : um_config) (time_val : Z)
    (st : um_state) :
  (sock <$> map (snd (um_sockmap_clean TIME_INVALID cfg time_val st))) =
  (sock <$> map st).
Proof.
  destruct (Z.leb_spec (timeout cfg) 0) as [Hoff | Hon].
  { by rewrite um_sockmap_clean_off. }
  destruct (um_sockmap_clean_on cfg time_val st Hon) as (Hm & _).
  rewrite Hm. apply reap_slot_socks.
Qed.

Lemma socks_of_stale_in_table (cfg : um_config) (time_val : Z)
    (m : list um_sockmap) (fd : Z) :
  fd ∈ socks_of (stale_slots cfg time_val m) ->
  exists j s, m !! j = Some s /\ in_use s <> 0 /\ sock s = fd.
Proof.
  unfold socks_of. rewrite elem_of_list_to_set, list_elem_of_fmap.
  intros (t & -> & Ht).
  apply elem_of_stale_slots in Ht as (Hin & At & _).
  apply list_elem_of_lookup in Hin as [k Hk]. by exists k, t.
Qed.

Lemma um_sockmap_clean_Frame (L : gset Z) (cfg : um_config) (time_val : Z)
    (st : um_state) :
  Frame L st ->
  Frame L (snd (um_sockmap_clean TIME_INVALID cfg time_val st)).
Proof.
  intros (F1 & F2 & F3 & F4).
  destruct (Z.leb_spec (timeout cfg) 0) as [Hoff | Hon].
  { by rewrite um_sockmap_clean_off. }
  destruct (um_sockmap_clean_on cfg time_val st Hon) as (Hm & _ & Ho & Ha & _).
  unfold Frame. rewrite Ho, Ha.
  split; [set_solver |].
  split.
  { intros fd Hfd. apply elem_of_difference. split; [by apply F2 |].
    intros Hin. apply socks_of_stale_in_table in Hin as (j & s & Hj & _ & <-).
    by apply (F4 j s). }
  split; [set_solver |].
  intros j s' Hj. rewrite Hm, list_lookup_fmap in Hj.
  destruct (map st !! j) as [s|] eqn:E; [| done].
  simpl in Hj. injection Hj as <-.
  unfold reap_slot.
  destruct (stale TIME_INVALID cfg time_val s); simpl; by apply (F4 j s).
Qed.

(** The shape of the state in the two outcomes of [um_sockmap_ins]. *)
Lemma um_sockmap_ins_cases (fd : Z) (addr : sockaddr_in) (st : um_state) :
  (um_sockmap_ins TIME_INVALID fd addr st = (-1, st) /\
   forall j s, map st !! j = Some s -> in_use s <> 0)
  \/
  (exists k : nat, (k < length (map st))%nat /\
     um_sockmap_ins TIME_INVALID fd addr st =
       (Z.of_nat k,
        set_map (<[k := new_slot TIME_INVALID fd addr]> (map st)) st)).
Proof.
  destruct (um_sockmap_ins_spec fd addr st)
    as [H | (k & s & Hmk & _ & _ & Hr)]; [by left |].
  right. exists k. split; [by apply lookup_lt_Some in Hmk | done].
Qed.

Lemma unreferenced_insert (L : gset Z) (m : list um_sockmap) (k : nat)
    (s : um_sockmap) :
  unreferenced L m -> sock s ∉ L -> unreferenced L (<[k := s]> m).
Proof.
  intros Hu Hs j s' Hj.
  destruct (decide (k = j)) as [-> | Hne].
  - destruct (decide (j < length m)%nat).
    + rewrite list_lookup_insert_eq in Hj by done. by injection Hj as <-.
    + rewrite list_insert_ge in Hj by lia. by apply (Hu j).
  - rewrite list_lookup_insert_ne in Hj by done. by apply (Hu j).
Qed.

(** Lines 221-249, on the descriptors: the new socket, when it is created
    and inserted, joins the descriptor set; when it is created and the
    insertion fails, it joins the descriptors that nothing refers to. *)
Lemma new_connection_Frame (L : gset Z) (cfg : um_config) (inp : iter_input)
    (st : um_state) :
  Inv st -> Frame L st -> fresh_sock st inp ->
  let r := new_connection TIME_INVALID cfg inp st in
  (in_new_sock inp < 0 -> fst (fst r) = -1 /\ Frame L (snd r)) /\
  (0 <= in_new_sock inp -> 0 <= fst (fst r) -> Frame L (snd r)) /\
  (0 <= in_new_sock inp -> fst (fst r) < 0 ->
     Frame (L ∪ {[in_new_sock inp]}) (snd r)).
Proof.
  intros HI HF Hfresh. unfold new_connection, fresh_sock in *.
  remember (in_new_sock inp) as tmp eqn:Etmp.
  set (st1 := emit (EvLog (LogNewConn (in_recvfrom_addr inp))) st).
  destruct (Z.ltb_spec tmp 0) as [Hneg | Hpos].
  { simpl. split; [| split; intros; lia]. intros _. split; [done |].
    unfold sys_socket. destruct (Z.ltb_spec tmp 0); [| lia].
    by apply emit_Frame, emit_Frame, emit_Frame. }
  destruct Hfresh as [Hf | Hf]; [lia |].
  split; [intros; lia |].
  set (st2 := sys_socket tmp st1).
  assert (Hm2 : map st2 = map st).
  { unfold st2, sys_socket. by destruct (tmp <? 0). }
  assert (Ho2 : open_fds st2 = {[tmp]} ∪ open_fds st).
  { unfold st2, sys_socket. destruct (Z.ltb_spec tmp 0); [lia | done]. }
  assert (Ha2 : active_fd_set st2 = active_fd_set st).
  { unfold st2, sys_socket. by destruct (tmp <? 0). }
  destruct HF as (F1 & F2 & F3 & F4).
  assert (HtL : tmp ∉ L) by set_solver.
  assert (HF2 : Frame L st2).
  { unfold Frame. rewrite Hm2, Ho2, Ha2.
    split; [set_solver |]. split; [set_solver |]. done. }
  set (st3 := snd (um_sockmap_clean TIME_INVALID cfg (in_time_reap inp) st2)).
  assert (HF3 : Frame L st3) by (by apply um_sockmap_clean_Frame).
  assert (Hopen3 : tmp ∈ open_fds st3).
  { apply um_sockmap_clean_keeps_open; [rewrite Ho2; set_solver |].
    intros j s. rewrite Hm2. intros Hj Aj E.
    apply Hf. rewrite <- E. by apply (proj2 HI j). }
  assert (Hact3 : tmp ∉ active_fd_set st3).
  { intros Hin.
    apply (proj2 (um_sockmap_clean_shrinks cfg (in_time_reap inp) st2)) in Hin.
    rewrite Ha2 in Hin. apply Hf. by apply F1. }
  destruct HF3 as (G1 & G2 & G3 & G4).
  destruct (um_sockmap_ins_cases tmp (in_recvfrom_addr inp) st3)
    as [[Hr Hfull] | (k & Hk & Hr)]; rewrite Hr.
  - (* the table is full: the socket is left as it is *)
    change (0 <=? -1) with false. cbv iota. simpl.
    split; [intros; lia |]. intros _ _.
    unfold Frame. split; [done |].
    split; [set_solver |]. split; [set_solver |].
    intros j s Hj. simpl in Hj.
    apply not_elem_of_union. split; [by apply (G4 j) |].
    apply not_elem_of_singleton. intros E.
    assert (Hs3 : (sock <$> map st3) !! j = Some (sock s))
      by (by rewrite list_lookup_fmap, Hj).
    unfold st3 in Hs3. rewrite um_sockmap_clean_socks, Hm2 in Hs3.
    rewrite list_lookup_fmap in Hs3.
    destruct (map st !! j) as [s0|] eqn:E0; [| done].
    simpl in Hs3. injection Hs3 as Es.
    destruct (um_sockmap_clean_sub cfg (in_time_reap inp) st2 j s Hj
                (Hfull j s Hj)) as (s1 & Hj1 & A1 & _).
    rewrite Hm2, E0 in Hj1. injection Hj1 as <-.
    apply Hf. rewrite <- E, <- Es. by apply (proj2 HI j).
  - destruct (Z.leb_spec 0 (Z.of_nat k)) as [_ | Hlt]; [| lia]. simpl.
    split; [| intros; lia]. intros _ _.
    destruct (UPDATE_SOCK_FD_MAX_ADD_frame tmp
      (emit (EvConnect tmp (conn_addr cfg))
         (FD_SET tmp
            (set_map (<[k:=new_slot TIME_INVALID tmp (in_recvfrom_addr inp)]>
                        (map st3)) st3))))
      as (Fm & Fa & Fo & _).
    unfold Frame. rewrite Fm, Fa, Fo. simpl.
    split; [set_solver |]. split; [done |]. split; [set_solver |].
    by apply unreferenced_insert.
Qed.

Lemma Frame_weaken (L L' : gset Z) (st : um_state) :
  L ⊆ L' -> Frame L' st -> Frame L st.
Proof.
  intros Hsub (F1 & F2 & F3 & F4).
  split; [done |]. split; [set_solver |]. split; [set_solver |].
  intros j s Hj Hin. apply (F4 j s Hj). by apply Hsub.
Qed.

Lemma new_connection_Frame_any (L : gset Z) (cfg : um_config)
    (inp : iter_input) (st : um_state) :
  Inv st -> Frame L st -> fresh_sock st inp ->
  Frame L (snd (new_connection TIME_INVALID cfg inp st)).
Proof.
  intros HI HF Hfresh.
  destruct (new_connection_Frame L cfg inp st HI HF Hfresh) as (H1 & H2 & H3).
  destruct (Z.lt_ge_cases (in_new_sock inp) 0) as [Hneg | Hpos].
  - by apply H1.
  - destruct (Z.lt_ge_cases
      (fst (fst (new_connection TIME_INVALID cfg inp st))) 0) as [Hrej | Hok].
    + apply (Frame_weaken L (L ∪ {[in_new_sock inp]})); [set_solver |].
      by apply H3.
    + by apply H2.
Qed.

Lemma forward_upstream_Frame (L : gset Z) (mode : um_mode) (cfg : um_config)
    (inp : iter_input) (buf : list Byte.byte) (sock_idx : Z)
    (st : um_state) :
  Frame L st ->
  Frame L (forward_upstream TIME_INVALID transform mode cfg inp buf sock_idx st).
Proof.
  intros HF. unfold forward_upstream.
  destruct (0 <=? sock_idx); [| done].
  by apply UPDATE_LAST_USE_Frame, emit_Frame.
Qed.

Lemma dispatch_listen_Frame (L : gset Z) (mode : um_mode) (cfg : um_config)
    (inp : iter_input) (st : um_state) :
  Inv st -> Frame L st -> fresh_sock st inp ->
  Frame L (snd (dispatch_listen TIME_INVALID transform mode cfg inp st)).
Proof.
  intros HI HF Hfresh. unfold dispatch_listen.
  destruct (bool_decide (bind_sock cfg ∈ in_read_fd_set inp)); [| done].
  destruct (0 <? in_recvfrom_ret inp); [| by apply emit_Frame].
  set (st1 := emit (EvRecvfrom (bind_sock cfg) (in_recvfrom_ret inp)) st).
  destruct (start_lookup (in_recvfrom_addr inp) (map st1) <? 0).
  - pose proof (new_connection_Frame_any L cfg inp st1) as HN.
    destruct (new_connection TIME_INVALID cfg inp st1) as [[idx trig] st2].
    simpl. apply forward_upstream_Frame.
    apply HN; [by apply emit_Inv | by apply emit_Frame | done].
  - simpl. apply forward_upstream_Frame. by apply emit_Frame.
Qed.

Lemma drain_body_Frame (L : gset Z) (mode : um_mode) (cfg : um_config)
    (inp : iter_input) (i : nat) (st : um_state) :
  Frame L st -> Frame L (drain_body TIME_INVALID transform mode cfg inp i st).
Proof.
  intros HF. unfold drain_body.
  destruct (map st !! i) as [s|]; [| done].
  destruct (active s && bool_decide (sock s ∈ in_read_fd_set inp)); [| done].
  destruct (in_recv inp i) as [ret rbuf].
  destruct (0 <? ret); [| by apply emit_Frame].
  by apply emit_Frame, UPDATE_LAST_USE_Frame, emit_Frame.
Qed.

Lemma drain_sessions_Frame (L : gset Z) (mode : um_mode) (cfg : um_config)
    (inp : iter_input) (st : um_state) :
  Frame L st -> Frame L (drain_sessions TIME_INVALID transform mode cfg inp st).
Proof.
  intros HF. unfold drain_sessions.
  apply (for_loop_inv (fun _ t => Frame L t)); [done |].
  intros j t _. apply drain_body_Frame.
Qed.

Lemma maintain_Frame (L : gset Z) (cfg : um_config) (inp : iter_input)
    (trigged : bool) (st : um_state) :
  Frame L st -> Frame L (maintain TIME_INVALID cfg inp trigged st).
Proof.
  intros HF. unfold maintain. destruct trigged; [done |].
  by apply um_sockmap_clean_Frame.
Qed.

Lemma loop_body_Frame (L : gset Z) (mode : um_mode) (cfg : um_config)
    (inp : iter_input) (st : um_state) :
  Inv st -> Frame L st -> fresh_sock st inp ->
  Frame L (loop_body TIME_INVALID transform mode cfg inp st).
Proof.
  intros HI HF Hfresh. unfold loop_body.
  destruct (in_select_ret inp <=? 0); [by apply emit_Frame, emit_Frame |].
  pose proof (dispatch_listen_Frame L mode cfg inp
    (emit (EvSelect (sock_fd_max st + 1) (in_select_ret inp)) st)) as HD.
  destruct (dispatch_listen TIME_INVALID transform mode cfg inp
    (emit (EvSelect (sock_fd_max st + 1) (in_select_ret inp)) st))
    as [trigged st1].
  apply maintain_Frame, drain_sessions_Frame, HD;
    [by apply emit_Inv | by apply emit_Frame | done].
Qed.

(** The clean up at shutdown closes sockets of the table only. *)
Lemma cleanup_Frame (L : gset Z) (st : um_state) :
  Frame L st ->
  L ⊆ open_fds (cleanup st) /\ unreferenced L (map (cleanup st)).
Proof.
  intros (F1 & F2 & F3 & F4).
  destruct (cleanup_spec st) as (Hm & _ & Ho & _).
  rewrite Hm, Ho. split.
  - intros fd Hfd. apply elem_of_difference. split; [by apply F2 |].
    unfold socks_of. rewrite elem_of_list_to_set, list_elem_of_fmap.
    intros (t & -> & Ht). unfold active_slots in Ht.
    apply list_elem_of_filter in Ht as [_ Hin].
    apply list_elem_of_lookup in Hin as [k Hk]. by apply (F4 k t).
  - intros j s' Hj. rewrite list_lookup_fmap in Hj.
    destruct (map st !! j) as [s|] eqn:E; [| done].
    simpl in Hj. injection Hj as <-. unfold free_slot.
    destruct (active s); simpl; by apply (F4 j s).
Qed.

(** The state in which [start] enters its loop, coming from the table of
    free slots and the open listening socket that [main] leaves. *)
Lemma start_entry_Inv_Frame (cfg : um_config) (st : um_state) :
  Forall (fun s => in_use s = 0) (map st) ->
  bind_sock cfg ∈ open_fds st ->
  let st0 := update_sock_fd_max cfg
               (emit (EvLog (LogTimeout (timeout cfg)))
                  (set_active_fd_set {[bind_sock cfg]} st)) in
  Inv st0 /\ Frame ∅ st0.
Proof.
  intros Hfree Hbind st0.
  destruct (update_sock_fd_max_frame cfg
    (emit (EvLog (LogTimeout (timeout cfg)))
       (set_active_fd_set {[bind_sock cfg]} st))) as (Hm & Ha & Ho & _).
  fold st0 in Hm, Ha, Ho. simpl in Hm, Ha, Ho.
  split.
  - apply all_free_Inv. by rewrite Hm.
  - unfold Frame. rewrite Ha, Ho.
    split; [set_solver |]. split; [set_solver |]. split; [set_solver |].
    intros j s _. set_solver.
Qed.

(** Descriptors that nothing refers to stay open up to the return of
    [start]. *)
Lemma start_loop_Frame (L : gset Z) (mode : um_mode) (cfg : um_config)
    (inputs : list iter_input) :
  forall (signal_term : Z) (st : um_state) (r : Z) (st' : um_state),
    Inv st -> Frame L st ->
    env_fresh mode cfg inputs signal_term st ->
    start_loop TIME_INVALID transform mode cfg inputs signal_term st =
      Some (r, st') ->
    L ⊆ open_fds st' /\ unreferenced L (map st').
Proof.
  induction inputs as [|inp rest IH]; intros sig st r st' HI HF Henv Hrun;
    simpl in Hrun.
  - destruct (negb (sig =? 0)); [| done].
    injection Hrun as _ <-. by apply cleanup_Frame.
  - destruct (Z.eqb_spec sig 0) as [E | E]; simpl in Hrun.
    + destruct (Henv E) as [Hf Hrest].
      apply (IH _ _ r st' (loop_body_Inv mode cfg inp st HI Hf)
               (loop_body_Frame L mode cfg inp st HI HF Hf) Hrest Hrun).
    + injection Hrun as _ <-. by apply cleanup_Frame.
Qed.

Lemma um_sockmap_clean_map (cfg : um_config) (time_val : Z) (st : um_state) :
  map (snd (um_sockmap_clean TIME_INVALID cfg time_val st)) =
    if timeout cfg <=? 0 then map st else reap_slot cfg time_val <$> map st.
Proof.
  destruct (Z.leb_spec (timeout cfg) 0) as [Hoff | Hon].
  - by rewrite um_sockmap_clean_off.
  - by destruct (um_sockmap_clean_on cfg time_val st Hon) as (Hm & _).
Qed.

Lemma um_sockmap_clean_map_ext (cfg : um_config) (time_val : Z)
    (st st' : um_state) :
  map st = map st' ->
  map (snd (um_sockmap_clean TIME_INVALID cfg time_val st)) =
  map (snd (um_sockmap_clean TIME_INVALID cfg time_val st')).
Proof. intros E. by rewrite !um_sockmap_clean_map, E. Qed.

Lemma sys_socket_map (r : Z) (st : um_state) : map (sys_socket r st) = map st.
Proof. unfold sys_socket. by destruct (r <? 0). Qed.

(** Lines 221-249 when the socket is created and the table is full after
    the reaper has run. *)
Lemma new_connection_rejected (cfg : um_config) (inp : iter_input)
    (st : um_state) :
  0 <= in_new_sock inp ->
  (forall j s,
     map (snd (um_sockmap_clean TIME_INVALID cfg (in_time_reap inp) st)) !! j
       = Some s -> in_use s <> 0) ->
  new_connection TIME_INVALID cfg inp st =
    (-1, true,
     emit (EvLog (LogMaxClients (in_recvfrom_addr inp)))
       (snd (um_sockmap_clean TIME_INVALID cfg (in_time_reap inp)
          (sys_socket (in_new_sock inp)
             (emit (EvLog (LogNewConn (in_recvfrom_addr inp))) st))))).
Proof.
  intros Hpos Hfull. unfold new_connection.
  destruct (Z.ltb_spec (in_new_sock inp) 0) as [Hneg | _]; [lia |].
  rewrite um_sockmap_ins_full; [done |].
  apply Forall_lookup. intros j s Hj. apply (Hfull j s).
  rewrite <- Hj. f_equal. apply um_sockmap_clean_map_ext.
  by rewrite sys_socket_map.
Qed.

(** C10: in an iteration that receives a datagram from a new address,
    creates the socket and finds the table full, the new descriptor is not
    closed, is not put in the descriptor set and is stored in no slot; it
    is added to the descriptors that nothing refers to, and these stay open
    in every later iteration and through the clean up, up to the return of
    [start]. *)
Theorem rejected_socket_leaks (L : gset Z) (mode : um_mode) (cfg : um_config)
    (inp : iter_input) (st : um_state) :
  Inv st -> Frame L st ->
  0 < in_select_ret inp ->
  bind_sock cfg ∈ in_read_fd_set inp ->
  0 < in_recvfrom_ret inp ->
  start_lookup (in_recvfrom_addr inp) (map st) = -1 ->
  0 <= in_new_sock inp ->
  in_new_sock inp ∉ open_fds st ->
  (forall j s,
     map (snd (um_sockmap_clean TIME_INVALID cfg (in_time_reap inp) st)) !! j
       = Some s -> in_use s <> 0) ->
  let fd := in_new_sock inp in
  let st' := loop_body TIME_INVALID transform mode cfg inp st in
  (fd ∈ open_fds st' /\ (fd ∉ active_fd_set st') /\
   forall j s, map st' !! j = Some s -> sock s <> fd) /\
  (fd ∉ L) /\
  (bind_sock cfg ∈ active_fd_set st -> fd <> bind_sock cfg) /\
  Inv st' /\ Frame (L ∪ {[fd]}) st' /\
  (forall (inputs : list iter_input) (signal_term r : Z) (st'' : um_state),
     env_fresh mode cfg inputs signal_term st' ->
     start_loop TIME_INVALID transform mode cfg inputs signal_term st' =
       Some (r, st'') ->
     fd ∈ open_fds st'' /\
     (forall j s, map st'' !! j = Some s -> sock s <> fd) /\
     L ⊆ open_fds st'').
Proof.
  intros HI HF Hsel Hbind Hret Hmiss Hpos Hnew Hfull fd st'.
  assert (Hfresh : fresh_sock st inp) by (by right).
  assert (HI' : Inv st') by (by apply loop_body_Inv).
  assert (HF' : Frame (L ∪ {[fd]}) st').
  { unfold st', loop_body.
    destruct (Z.leb_spec (in_select_ret inp) 0) as [Hle | _]; [lia |].
    set (st0 := emit (EvSelect (sock_fd_max st + 1) (in_select_ret inp)) st).
    unfold dispatch_listen.
    rewrite bool_decide_eq_true_2 by done.
    destruct (Z.ltb_spec 0 (in_recvfrom_ret inp)) as [_ | Hle]; [| lia].
    set (st1 := emit (EvRecvfrom (bind_sock cfg) (in_recvfrom_ret inp)) st0).
    change (map st1) with (map st). rewrite Hmiss.
    change (-1 <? 0) with true. cbv iota.
    assert (HI1 : Inv st1) by (by apply emit_Inv, emit_Inv).
    assert (HF1 : Frame L st1) by (by apply emit_Frame, emit_Frame).
    assert (Hfresh1 : fresh_sock st1 inp) by (by right).
    destruct (new_connection_Frame L cfg inp st1 HI1 HF1 Hfresh1)
      as (_ & _ & Hrej).
    assert (Hfull1 : forall j s,
      map (snd (um_sockmap_clean TIME_INVALID cfg (in_time_reap inp) st1)) !! j
        = Some s -> in_use s <> 0).
    { intros j s Hj. apply (Hfull j s). rewrite <- Hj. f_equal.
      by apply um_sockmap_clean_map_ext. }
    rewrite (new_connection_rejected cfg inp st1 Hpos Hfull1) in *.
    simpl in Hrej.
    unfold forward_upstream. change (0 <=? -1) with false. cbv iota.
    unfold maintain.
    apply drain_sessions_Frame. apply Hrej; [done | lia]. }
  assert (HfdL : fd ∉ L).
  { intros Hin. apply Hnew. by apply (proj1 (proj2 HF)). }
  destruct HF' as (F1 & F2 & F3 & F4).
  split.
  { split; [apply F2; set_solver |].
    split; [set_solver |].
    intros j s Hj E. apply (F4 j s Hj). set_solver. }
  split; [done |].
  split.
  { intros Hb E. apply Hnew. unfold fd in E. rewrite E.
    by apply (proj1 HF). }
  split; [done |]. split; [done |].
  intros inputs sig r st'' Henv Hrun.
  destruct (start_loop_Frame (L ∪ {[fd]}) mode cfg inputs sig st' r st''
              HI' (conj F1 (conj F2 (conj F3 F4))) Henv Hrun) as [Ho Hu].
  split; [apply Ho; set_solver |].
  split; [| set_solver].
  intros j s Hj E. apply (Hu j s Hj). set_solver.
Qed.

(** ** The order of socket creation, reaping and insertion *)

Lemma um_sockmap_ins_table (fd : Z) (addr : sockaddr_in) (st : um_state) :
  um_sockmap_ins TIME_INVALID fd addr st =
    (fst (ins_table fd addr (map st)),
     set_map (snd (ins_table fd addr (map st))) st).
Proof.
  unfold um_sockmap_ins, ins_table.
  destruct (ins_loop TIME_INVALID (length (map st)) 0 fd addr (map st))
    as [i m'].
  by destruct (length (map st) <=? i)%nat.
Qed.

Lemma um_sockmap_clean_trace (cfg : um_config) (time_val : Z)
    (st : um_state) :
  trace (snd (um_sockmap_clean TIME_INVALID cfg time_val st)) =
    trace st ++ reap_events cfg time_val (map st).
Proof.
  unfold reap_events.
  destruct (Z.leb_spec (timeout cfg) 0) as [Hoff | Hon].
  - rewrite um_sockmap_clean_off by done. by rewrite app_nil_r.
  - by destruct (um_sockmap_clean_on cfg time_val st Hon) as (_ & Ht & _).
Qed.

Lemma reap_events_no_socket (cfg : um_config) (time_val : Z)
    (m : list um_sockmap) (e : event) :
  e ∈ reap_events cfg time_val m -> is_socket e = false.
Proof.
  unfold reap_events. destruct (timeout cfg <=? 0).
  { intros H. by apply not_elem_of_nil in H. }
  intros H. apply elem_of_cons in H as [-> | H]; [done |].
  unfold purge_events in H. apply list_elem_of_bind in H as (s & He & _).
  apply elem_of_cons in He as [-> | He]; [done |].
  apply elem_of_cons in He as [-> | He]; [done |].
  by apply not_elem_of_nil in He.
Qed.

Lemma new_connection_spec (cfg : um_config) (inp : iter_input)
    (st : um_state) :
  let tmp := in_new_sock inp in
  let addr := in_recvfrom_addr inp in
  let r := new_connection TIME_INVALID cfg inp st in
  let ins := ins_table tmp addr (reap_table cfg (in_time_reap inp) (map st)) in
  trace (snd r) =
    trace st ++ [EvLog (LogNewConn addr); EvSocket tmp] ++
      after_socket cfg inp (map st) /\
  fst (fst r) = (if tmp <? 0 then -1 else fst ins) /\
  snd (fst r) = negb (tmp <? 0) /\
  map (snd r) = (if tmp <? 0 then map st else snd ins).
Proof.
  intros tmp addr r ins. subst r. unfold new_connection, after_socket.
  fold tmp addr.
  destruct (Z.ltb_spec tmp 0) as [Hneg | Hpos].
  { simpl. unfold sys_socket. destruct (Z.ltb_spec tmp 0); [| lia].
    simpl. by rewrite <- !app_assoc. }
  set (st2 := sys_socket tmp (emit (EvLog (LogNewConn addr)) st)).
  assert (Hm2 : map st2 = map st) by (unfold st2; by rewrite sys_socket_map).
  assert (Ht2 : trace st2 = trace st ++ [EvLog (LogNewConn addr); EvSocket tmp]).
  { unfold st2, sys_socket. destruct (tmp <? 0); simpl; by rewrite <- app_assoc. }
  set (st3 := snd (um_sockmap_clean TIME_INVALID cfg (in_time_reap inp) st2)).
  assert (Hm3 : map st3 = reap_table cfg (in_time_reap inp) (map st)).
  { unfold st3, reap_table. by rewrite um_sockmap_clean_map, Hm2. }
  assert (Ht3 : trace st3 =
    trace st ++ [EvLog (LogNewConn addr); EvSocket tmp] ++
      reap_events cfg (in_time_reap inp) (map st)).
  { unfold st3. rewrite um_sockmap_clean_trace, Ht2, Hm2.
    by rewrite <- app_assoc. }
  rewrite um_sockmap_ins_table, Hm3. fold ins.
  destruct (0 <=? fst ins); simpl.
  - destruct (UPDATE_SOCK_FD_MAX_ADD_frame tmp
      (emit (EvConnect tmp (conn_addr cfg))
         (FD_SET tmp (set_map (snd ins) st3)))) as (Fm & _ & _ & Ft).
    rewrite Fm, Ft. simpl. rewrite Ht3.
    split; [by rewrite <- !app_assoc | done].
  - rewrite Ht3. split; [by rewrite <- !app_assoc | done].
Qed.

Lemma after_socket_no_socket (cfg : um_config) (inp : iter_input)
    (m : list um_sockmap) (e : event) :
  e ∈ after_socket cfg inp m -> is_socket e = false.
Proof.
  unfold after_socket. destruct (in_new_sock inp <? 0).
  { intros H. apply elem_of_cons in H as [-> | H]; [done |].
    by apply not_elem_of_nil in H. }
  intros H. apply elem_of_app in H as [H | H].
  { by apply reap_events_no_socket in H. }
  apply elem_of_cons in H as [-> | H]; [| by apply not_elem_of_nil in H].
  by destruct (0 <=? _).
Qed.

(** C2, as the program has it: for a datagram from an address without a
    session, [NEW_SOCK()] is called first.  If it fails, the reaper is not
    run at that point and the table is left alone.  If it succeeds, the
    reaper runs next, after the creation of the socket, and the insertion
    is then attempted on the table the reaper left. *)
Theorem socket_then_reap_then_insert (mode : um_mode) (cfg : um_config)
    (inp : iter_input) (st : um_state) :
  let tmp := in_new_sock inp in
  let addr := in_recvfrom_addr inp in
  let r := new_connection TIME_INVALID cfg inp st in
  let reaped := reap_table cfg (in_time_reap inp) (map st) in
  let ins := ins_table tmp addr reaped in
  let new := [EvLog (LogNewConn addr); EvSocket tmp] ++
             after_socket cfg inp (map st) in
  trace (snd r) = trace st ++ new /\
  socket_before_purge new /\
  (tmp < 0 ->
     new = [EvLog (LogNewConn addr); EvSocket tmp; EvLog LogSocketErr] /\
     fst r = (-1, false) /\ map (snd r) = map st) /\
  (0 <= tmp ->
     new = [EvLog (LogNewConn addr); EvSocket tmp] ++
           reap_events cfg (in_time_reap inp) (map st) ++
           [if 0 <=? fst ins then EvConnect tmp (conn_addr cfg)
            else EvLog (LogMaxClients addr)] /\
     fst r = (fst ins, true) /\ map (snd r) = snd ins) /\
  (bind_sock cfg ∈ in_read_fd_set inp ->
   0 < in_recvfrom_ret inp ->
   start_lookup addr (map st) = -1 ->
   let st1 := emit (EvRecvfrom (bind_sock cfg) (in_recvfrom_ret inp)) st in
   let r1 := new_connection TIME_INVALID cfg inp st1 in
   dispatch_listen TIME_INVALID transform mode cfg inp st =
     (snd (fst r1),
      forward_upstream TIME_INVALID transform mode cfg inp
        (take (Z.to_nat (in_recvfrom_ret inp)) (in_recvfrom_buf inp))
        (fst (fst r1)) (snd r1))).
Proof.
  intros tmp addr r reaped ins new.
  destruct (new_connection_spec cfg inp st) as (Ht & Hi & Hg & Hm).
  fold tmp addr r reaped ins in Ht, Hi, Hg, Hm.
  split; [done |].
  split.
  { intros i j e e' Hi' Hj' Hs Hp. unfold new in *.
    assert (i = 1%nat) as ->.
    { destruct i as [|[|i]]; simpl in Hi'.
      - injection Hi' as <-. done.
      - done.
      - apply list_elem_of_lookup_2, after_socket_no_socket in Hi'.
        congruence. }
    destruct j as [|[|j]]; simpl in Hj'.
    - injection Hj' as <-. done.
    - injection Hj' as <-. done.
    - lia. }
  split.
  { intros Hneg. unfold new, after_socket. fold tmp.
    destruct (Z.ltb_spec tmp 0) as [_ | Hge]; [| lia].
    split; [done |]. split; [| done].
    destruct r as [[a b] c]. simpl in *. by rewrite Hi, Hg. }
  split.
  { intros Hpos. unfold new, after_socket. fold tmp addr reaped ins.
    destruct (Z.ltb_spec tmp 0) as [Hlt | _]; [lia |].
    split; [done |]. split; [| done].
    destruct r as [[a b] c]. simpl in *. by rewrite Hi, Hg. }
  intros Hbind Hret Hmiss st1 r1. unfold dispatch_listen.
  rewrite bool_decide_eq_true_2 by done.
  destruct (Z.ltb_spec 0 (in_recvfrom_ret inp)) as [_ | Hle]; [| lia].
  change (map (emit (EvRecvfrom (bind_sock cfg) (in_recvfrom_ret inp)) st))
    with (map st).
  fold addr. rewrite Hmiss. change (-1 <? 0) with true. cbv iota.
  fold st1. fold r1. by destruct r1 as [[a b] c].
Qed.

(** ** Relaying *)





Lemma ins_table_cases (fd : Z) (addr : sockaddr_in) (m : list um_sockmap) :
  (fst (ins_table fd addr m) = -1 /\ snd (ins_table fd addr m) = m)
  \/
  (exists k : nat, (k < length m)%nat /\
     fst (ins_table fd addr m) = Z.of_nat k /\
     snd (ins_table fd addr m) = <[k := new_slot TIME_INVALID fd addr]> m).
Proof.
  pose (st := {| map := m; sock_fd_max := 0; active_fd_set := ∅;
                 open_fds := ∅; trace := [] |}).
  pose proof (um_sockmap_ins_table fd addr st) as Ht.
  destruct (um_sockmap_ins_cases fd addr st)
    as [[Hr _] | (k & Hk & Hr)]; rewrite Hr in Ht;
    injection Ht as H1 H2; simpl in *.
  - left. by rewrite <- H1, <- H2.
  - right. exists k. by rewrite <- H1, <- H2.
Qed.

Lemma ins_table_spec (fd : Z) (addr : sockaddr_in) (m : list um_sockmap) :
  (fst (ins_table fd addr m) = -1 /\ snd (ins_table fd addr m) = m /\
   forall j s, m !! j = Some s -> in_use s <> 0)
  \/
  (exists k s, m !! k = Some s /\ in_use s = 0 /\
     (forall j s', (j < k)%nat -> m !! j = Some s' -> in_use s' <> 0) /\
     fst (ins_table fd addr m) = Z.of_nat k /\
     snd (ins_table fd addr m) = <[k := new_slot TIME_INVALID fd addr]> m).
Proof.
  pose (st := {| map := m; sock_fd_max := 0; active_fd_set := ∅;
                 open_fds := ∅; trace := [] |}).
  pose proof (um_sockmap_ins_table fd addr st) as Ht.
  destruct (um_sockmap_ins_spec fd addr st)
    as [[Hr Hfull] | (k & s & Hk & Hfree & Hfirst & Hr)]; rewrite Hr in Ht;
    injection Ht as H1 H2; simpl in *.
  - left. by rewrite <- H1, <- H2.
  - right. exists k, s. by rewrite <- H1, <- H2.
Qed.



Lemma drain_body_spec (mode : um_mode) (cfg : um_config) (inp : iter_input)
    (i : nat) (s : um_sockmap) (st : um_state) :
  map st !! i = Some s ->
  let st' := drain_body TIME_INVALID transform mode cfg inp i st in
  trace st' = trace st ++ drain_slot_events mode cfg inp i s /\
  length (map st') = length (map st) /\
  drop (Datatypes.S i) (map st') = drop (Datatypes.S i) (map st).
Proof.
  intros Hs. unfold drain_body, drain_slot_events. rewrite Hs.
  destruct (active s && bool_decide (sock s ∈ in_read_fd_set inp));
    [| by rewrite app_nil_r].
  destruct (in_recv inp i) as [ret rbuf].
  destruct (0 <? ret); [| done].
  unfold UPDATE_LAST_USE.
  destruct (negb (in_time_sess inp i =? TIME_INVALID)); simpl.
  - split; [by rewrite <- !app_assoc |].
    split; [apply length_alter |]. apply drop_alter_lt. lia.
  - split; [by rewrite <- !app_assoc | done].
Qed.

Lemma drain_loop_trace (mode : um_mode) (cfg : um_config) (inp : iter_input) :
  forall (l : list um_sockmap) (i : nat) (st : um_state),
    drop i (map st) = l ->
    trace (for_loop (length l) i
             (drain_body TIME_INVALID transform mode cfg inp) st) =
      trace st ++ drain_events_from mode cfg inp i l.
Proof.
  induction l as [|s l IH]; intros i st Hd; simpl.
  - by rewrite app_nil_r.
  - assert (Hs : map st !! i = Some s).
    { rewrite <- (Nat.add_0_r i), <- lookup_drop, Hd. done. }
    destruct (drain_body_spec mode cfg inp i s st Hs) as (Ht & _ & Hdrop).
    rewrite IH.
    + rewrite Ht. by rewrite <- app_assoc.
    + rewrite Hdrop.
      replace (Datatypes.S i) with (i + 1)%nat by lia.
      by rewrite <- drop_drop, Hd.
Qed.

Lemma drain_sessions_trace (mode : um_mode) (cfg : um_config)
    (inp : iter_input) (st : um_state) :
  trace (drain_sessions TIME_INVALID transform mode cfg inp st) =
    trace st ++ drain_events_from mode cfg inp 0 (map st).
Proof. unfold drain_sessions. by apply drain_loop_trace. Qed.




(** ** sock_fd_max and the descriptor set *)

(** The loop of [update_sock_fd_max], as an invariant. *)
Lemma update_sock_fd_max_exact (cfg : um_config) (st : um_state) :
  fd_max_exact cfg (update_sock_fd_max cfg st).
Proof.
  unfold update_sock_fd_max.
  pose (P := fun (i : nat) (t : um_state) =>
    map t = map st /\
    bind_sock cfg <= sock_fd_max t /\
    (forall j s, (j < i)%nat -> map st !! j = Some s -> in_use s <> 0 ->
       sock s <= sock_fd_max t) /\
    (sock_fd_max t = bind_sock cfg \/ session_sock st (sock_fd_max t))).
  assert (HP : P (0 + length (map st))%nat
    (for_loop (length (map st)) 0
       (fun i st' =>
          match map st' !! i with
          | Some s =>
              if active s && (sock_fd_max st' <? sock s)
              then set_sock_fd_max (sock s) st' else st'
          | None => st'
          end)
       (set_sock_fd_max (bind_sock cfg) st))).
  { apply (for_loop_inv P).
    - unfold P. simpl. split; [done |]. split; [lia |].
      split; [intros; lia | by left].
    - intros j t Hj (Hm & Hb & Hle & Hat). unfold P. rewrite Hm.
      destruct (map st !! j) as [s|] eqn:Hs.
      2: { split; [done |]. split; [done |]. split; [| done].
           intros k s Hk Hks. apply lookup_ge_None in Hs.
           apply lookup_lt_Some in Hks. lia. }
      unfold active.
      destruct (Z.eqb_spec (in_use s) 0) as [E0 | E0]; simpl.
      { split; [done |]. split; [done |]. split; [| done].
        intros k s' Hk Hks Hin.
        destruct (decide (k = j)) as [-> | Hne]; [congruence |].
        apply (Hle k); [lia | done | done]. }
      destruct (Z.ltb_spec (sock_fd_max t) (sock s)) as [Hlt | Hge]; simpl.
      + split; [done |]. split; [lia |]. split.
        * intros k s' Hk Hks Hin.
          destruct (decide (k = j)) as [-> | Hne].
          -- assert (s' = s) as -> by congruence. lia.
          -- assert (sock s' <= sock_fd_max t)
               by (apply (Hle k); [lia | done | done]).
             lia.
        * right. by exists j, s.
      + split; [done |]. split; [done |]. split; [| done].
        intros k s' Hk Hks Hin.
        destruct (decide (k = j)) as [-> | Hne].
        * assert (s' = s) as -> by congruence. lia.
        * apply (Hle k); [lia | done | done]. }
  destruct HP as (Hm & Hb & Hle & Hat).
  split; [done |]. split.
  - intros fd (j & s & Hj & Hin & <-). rewrite Hm in Hj.
    apply (Hle j s); [| done | done]. apply lookup_lt_Some in Hj. lia.
  - destruct Hat as [Hat | (j & s & Hj & Hin & Hs)]; [by left |].
    right. exists j, s. by rewrite Hm.
Qed.

Lemma session_sock_sub (st st' : um_state) (fd : Z) :
  sub_sessions (map st) (map st') ->
  session_sock st' fd -> session_sock st fd.
Proof.
  intros Hsub (j & s' & Hj & Hin & Hs).
  destruct (Hsub j s' Hj Hin) as (s & Hj0 & Hin0 & Es & _).
  exists j, s. split; [done |]. split; [done | congruence].
Qed.

Lemma UPDATE_LAST_USE_sock_fd_max (idx : nat) (time_val : Z) (st : um_state) :
  sock_fd_max (UPDATE_LAST_USE TIME_INVALID idx time_val st) = sock_fd_max st.
Proof.
  unfold UPDATE_LAST_USE. by destruct (negb (time_val =? TIME_INVALID)).
Qed.

(** States with the same sessions in use, descriptor sets and
    [sock_fd_max]. *)
Lemma Sound_same (cfg : um_config) (st st' : um_state) :
  sub_sessions (map st) (map st') ->
  sub_sessions (map st') (map st) ->
  open_fds st' = open_fds st ->
  active_fd_set st' = active_fd_set st ->
  sock_fd_max st' = sock_fd_max st ->
  Sound cfg st -> Sound cfg st'.
Proof.
  intros H1 H2 Ho Ha Hx (HI & Hb & Hnb & Hr & Hm).
  assert (Hss : forall fd, session_sock st' fd <-> session_sock st fd).
  { intros fd. split; by apply session_sock_sub. }
  split.
  { apply (Inv_sub st); [done | done |].
    intros j s s' Hj Hin _ _. rewrite Ho. by apply (proj2 HI j). }
  split; [by rewrite Ho |].
  split; [by rewrite Hss |].
  split.
  { intros fd. rewrite Ha, Hss. apply Hr. }
  destruct Hm as (M1 & M2 & M3). unfold fd_max_exact. rewrite Hx.
  split; [done |]. split.
  - intros fd Hfd. apply M2. by apply Hss.
  - destruct M3 as [M3 | M3]; [by left | right; by apply Hss].
Qed.

Lemma emit_Sound (cfg : um_config) (e : event) (st : um_state) :
  Sound cfg st -> Sound cfg (emit e st).
Proof.
  apply Sound_same; try done; apply sub_sessions_refl.
Qed.

Lemma UPDATE_LAST_USE_Sound (cfg : um_config) (idx : nat) (time_val : Z)
    (st : um_state) :
  Sound cfg st -> Sound cfg (UPDATE_LAST_USE TIME_INVALID idx time_val st).
Proof.
  destruct (UPDATE_LAST_USE_frame idx time_val st)
    as (H1 & H2 & _ & Ho & Ha & _).
  apply Sound_same; try done. apply UPDATE_LAST_USE_sock_fd_max.
Qed.

Lemma fd_max_exact_same (cfg : um_config) (st st' : um_state) :
  map st' = map st -> sock_fd_max st' = sock_fd_max st ->
  fd_max_exact cfg st -> fd_max_exact cfg st'.
Proof.
  intros Hm Hx. unfold fd_max_exact, session_sock. by rewrite Hm, Hx.
Qed.

(** One turn of the loop of the reaper keeps [sock_fd_max] exact. *)
Lemma clean_body_fd_max (cfg : um_config) (time_val : Z) (i : nat)
    (ps : Z * um_state) :
  fd_max_exact cfg (snd ps) ->
  fd_max_exact cfg (snd (clean_body TIME_INVALID cfg time_val i ps)).
Proof.
  destruct ps as [p t]. simpl. intros (M1 & M2 & M3). unfold clean_body.
  destruct (map t !! i) as [s|] eqn:Hs; [| done].
  destruct (stale TIME_INVALID cfg time_val s) eqn:Hst; [| done].
  simpl. unfold UPDATE_SOCK_FD_MAX_RM.
  set (t3 := FD_CLR (sock s)
       (sys_close (sock s) (set_map (<[i:=with_in_use 0 s]> (map t)) t))).
  assert (Hsub : forall fd, session_sock t3 fd ->
            session_sock t fd /\
            exists j s', map t !! j = Some s' /\ in_use s' <> 0 /\
                         sock s' = fd /\ j <> i).
  { intros fd (j & s' & Hj & Hin & Hfd). simpl in Hj.
    destruct (decide (j = i)) as [-> | Hne].
    - rewrite list_lookup_insert_eq in Hj by (by apply lookup_lt_Some in Hs).
      injection Hj as <-. by simpl in Hin.
    - rewrite list_lookup_insert_ne in Hj by done.
      split; [by exists j, s' | by exists j, s']. }
  change (sock_fd_max t3) with (sock_fd_max t).
  destruct (Z.leb_spec (sock_fd_max t) (sock s)) as [Hle | Hgt].
  - apply (fd_max_exact_same cfg (update_sock_fd_max cfg t3));
      [reflexivity | reflexivity | apply update_sock_fd_max_exact].
  - unfold fd_max_exact. simpl.
    split; [done |]. split.
    + intros fd Hfd. apply M2.
      destruct Hfd as (j & s' & Hj & Hin & Hfd).
      by apply (Hsub fd); exists j, s'.
    + destruct M3 as [M3 | (j & s' & Hj & Hin & Hfd)]; [by left |].
      right. exists j, s'. simpl.
      assert (j <> i) by (intros ->; assert (s' = s) by congruence; subst; lia).
      by rewrite list_lookup_insert_ne.
Qed.

Lemma um_sockmap_clean_fd_max (cfg : um_config) (time_val : Z)
    (st : um_state) :
  fd_max_exact cfg st ->
  fd_max_exact cfg (snd (um_sockmap_clean TIME_INVALID cfg time_val st)).
Proof.
  intros HM. unfold um_sockmap_clean.
  destruct (timeout cfg <=? 0); [done |].
  apply (for_loop_inv (fun _ ps => fd_max_exact cfg (snd ps))); [done |].
  intros j ps _. apply clean_body_fd_max.
Qed.

Lemma socks_of_stale_in_table_stale (cfg : um_config) (time_val : Z)
    (m : list um_sockmap) (fd : Z) :
  fd ∈ socks_of (stale_slots cfg time_val m) ->
  exists j s, m !! j = Some s /\ in_use s <> 0 /\
    stale TIME_INVALID cfg time_val s = true /\ sock s = fd.
Proof.
  unfold socks_of. rewrite elem_of_list_to_set, list_elem_of_fmap.
  intros (t & -> & Ht). unfold stale_slots in Ht.
  apply list_elem_of_filter in Ht as [Hst Hin].
  apply list_elem_of_lookup in Hin as [k Hk]. exists k, t.
  split; [done |]. split; [| done].
  apply stale_iff in Hst. tauto.
Qed.

(** Writing a new session with an open socket that no session holds, for
    an address that no session has, into a slot of the table. *)
Lemma insert_slot_Inv (fd : Z) (addr : sockaddr_in) (k : nat)
    (st : um_state) :
  Inv st -> (k < length (map st))%nat ->
  fd ∈ open_fds st ->
  (forall j s, map st !! j = Some s -> in_use s <> 0 ->
     sock s <> fd /\ from s <> addr) ->
  Inv (set_map (<[k := new_slot TIME_INVALID fd addr]> (map st)) st).
Proof.
  intros [HT HO] Hk Hfd Hnew.
  apply table_inv_distinct in HT.
  split.
  - apply table_inv_distinct.
    intros i j si sj Hi Hj Ai Aj Hne. simpl in Hi, Hj.
    destruct (decide (i = k)) as [-> | Hik];
      destruct (decide (j = k)) as [-> | Hjk]; try done.
    + rewrite list_lookup_insert_eq in Hi by done.
      rewrite list_lookup_insert_ne in Hj by done.
      injection Hi as <-. simpl.
      destruct (Hnew j sj Hj Aj) as [H1 H2]. split; congruence.
    + rewrite list_lookup_insert_ne in Hi by done.
      rewrite list_lookup_insert_eq in Hj by done.
      injection Hj as <-. simpl.
      destruct (Hnew i si Hi Ai) as [H1 H2]. split; congruence.
    + rewrite list_lookup_insert_ne in Hi by done.
      rewrite list_lookup_insert_ne in Hj by done.
      by apply (HT i j).
  - intros j s' Hj Aj. simpl in Hj |- *.
    destruct (decide (j = k)) as [-> | Hjk].
    + rewrite list_lookup_insert_eq in Hj by done. by injection Hj as <-.
    + rewrite list_lookup_insert_ne in Hj by done. by apply (HO j).
Qed.

Lemma session_sock_reaped (cfg : um_config) (time_val : Z) (st st' : um_state)
    (fd : Z) :
  map st' = reap_slot cfg time_val <$> map st ->
  (session_sock st' fd <->
   exists j s, map st !! j = Some s /\ in_use s <> 0 /\
     stale TIME_INVALID cfg time_val s = false /\ sock s = fd).
Proof.
  intros Hm. unfold session_sock. rewrite Hm. split.
  - intros (j & s' & Hj & Hin & Hfd). rewrite list_lookup_fmap in Hj.
    destruct (map st !! j) as [s|] eqn:Hs; [| done].
    simpl in Hj. injection Hj as <-. exists j, s. unfold reap_slot in *.
    destruct (stale TIME_INVALID cfg time_val s); [done | done].
  - intros (j & s & Hj & Hin & Hst & Hfd). exists j, s.
    rewrite list_lookup_fmap, Hj. simpl. unfold reap_slot.
    by rewrite Hst.
Qed.

(** The reaper keeps the state of the loop sound. *)
Lemma um_sockmap_clean_Sound (cfg : um_config) (time_val : Z)
    (st : um_state) :
  Sound cfg st ->
  Sound cfg (snd (um_sockmap_clean TIME_INVALID cfg time_val st)).
Proof.
  intros (HI & Hb & Hnb & Hr & Hm).
  split; [by apply um_sockmap_clean_Inv |].
  split.
  { apply um_sockmap_clean_keeps_open; [done |].
    intros j s Hj Hin E. apply Hnb. by exists j, s. }
  split.
  { intros H. apply Hnb.
    apply (session_sock_sub st _ _ (um_sockmap_clean_sub cfg time_val st) H). }
  split; [| by apply um_sockmap_clean_fd_max].
  destruct (Z.leb_spec (timeout cfg) 0) as [Hoff | Hon].
  { by rewrite um_sockmap_clean_off. }
  destruct (um_sockmap_clean_on cfg time_val st Hon) as (Hmap & _ & _ & Ha & _).
  intros fd. rewrite Ha, elem_of_difference, (Hr fd).
  rewrite (session_sock_reaped cfg time_val st _ fd Hmap).
  split.
  - intros [[-> | (j & s & Hj & Hin & Hfd)] Hns]; [by left |].
    right. exists j, s. split; [done |]. split; [done |]. split; [| done].
    destruct (stale TIME_INVALID cfg time_val s) eqn:Hst; [| done].
    exfalso. apply Hns. unfold socks_of.
    apply elem_of_list_to_set, list_elem_of_fmap. exists s. split; [done |].
    unfold stale_slots. apply list_elem_of_filter. split; [done |].
    by apply list_elem_of_lookup_2 in Hj.
  - intros [-> | (j & s & Hj & Hin & Hst & Hfd)].
    + split; [by left |]. intros Hx.
      apply socks_of_stale_in_table in Hx as (k & t & Hk & Hint & Ht).
      apply Hnb. by exists k, t.
    + split; [right; by exists j, s |]. intros Hx.
      apply socks_of_stale_in_table_stale in Hx
        as (k & t & Hk & Hint & Hstt & Ht).
      destruct (decide (j = k)) as [-> | Hne]; [congruence |].
      destruct HI as [HT _]. apply table_inv_distinct in HT.
      destruct (HT j k s t Hj Hk Hin Hint Hne) as [_ Hs]. congruence.
Qed.

(** [NEW_SOCK()] returning a descriptor that was not open. *)
Lemma sys_socket_Sound (cfg : um_config) (tmp : Z) (st : um_state) :
  Sound cfg st -> 0 <= tmp ->
  Sound cfg (sys_socket tmp st) /\
  open_fds (sys_socket tmp st) = {[tmp]} ∪ open_fds st.
Proof.
  intros (HI & Hb & Hnb & Hr & Hm) Hpos. unfold sys_socket.
  destruct (Z.ltb_spec tmp 0); [lia |]. split; [| done].
  split.
  { destruct HI as [HT HO]. split; [done |].
    intros j s Hj Hin. simpl. apply elem_of_union. right. by apply (HO j). }
  split; [simpl; set_solver |]. done.
Qed.

(** The new session: [um_sockmap_ins] succeeded, then [FD_SET] and
    [UPDATE_SOCK_FD_MAX_ADD]. *)
Lemma register_Sound (cfg : um_config) (tmp : Z) (addr : sockaddr_in)
    (k : nat) (st : um_state) (s0 : um_sockmap) :
  Sound cfg st ->
  map st !! k = Some s0 -> in_use s0 = 0 ->
  tmp ∈ open_fds st -> tmp <> bind_sock cfg ->
  (forall j s, map st !! j = Some s -> in_use s <> 0 ->
     sock s <> tmp /\ from s <> addr) ->
  Sound cfg
    (UPDATE_SOCK_FD_MAX_ADD tmp
       (emit (EvConnect tmp (conn_addr cfg))
          (FD_SET tmp
             (set_map (<[k := new_slot TIME_INVALID tmp addr]> (map st))
                st)))).
Proof.
  intros (HI & Hb & Hnb & Hr & M1 & M2 & M3) Hk Hfree Hopen Hnbind Hnew.
  assert (Hlt : (k < length (map st))%nat) by (by apply lookup_lt_Some in Hk).
  set (m' := <[k := new_slot TIME_INVALID tmp addr]> (map st)).
  set (st1 := FD_SET tmp (set_map m' st)).
  assert (Hss : forall fd, session_sock st1 fd <->
                           fd = tmp \/ session_sock st fd).
  { intros fd. unfold session_sock. simpl. split.
    - intros (j & s & Hj & Hin & Hfd). unfold m' in Hj.
      destruct (decide (j = k)) as [-> | Hne].
      + rewrite list_lookup_insert_eq in Hj by done. injection Hj as <-.
        by left.
      + rewrite list_lookup_insert_ne in Hj by done. right. by exists j, s.
    - intros [-> | (j & s & Hj & Hin & Hfd)].
      + exists k, (new_slot TIME_INVALID tmp addr). unfold m'.
        by rewrite list_lookup_insert_eq.
      + exists j, s. unfold m'.
        assert (j <> k) by (intros ->; congruence).
        by rewrite list_lookup_insert_ne. }
  destruct (UPDATE_SOCK_FD_MAX_ADD_frame tmp
              (emit (EvConnect tmp (conn_addr cfg)) st1)) as (Fm & Fa & Fo & _).
  assert (Hss' : forall fd,
    session_sock (UPDATE_SOCK_FD_MAX_ADD tmp
                    (emit (EvConnect tmp (conn_addr cfg)) st1)) fd <->
    fd = tmp \/ session_sock st fd).
  { intros fd. rewrite <- Hss. unfold session_sock. by rewrite Fm. }
  split.
  { eapply Inv_same; [exact Fm | exact Fo |].
    pose proof (insert_slot_Inv tmp addr k st HI Hlt Hopen Hnew) as HI'.
    eapply Inv_same; [| | exact HI']; done. }
  split; [by rewrite Fo |].
  split.
  { rewrite Hss'. intros [E | H]; [by apply Hnbind | by apply Hnb]. }
  split.
  { intros fd. rewrite Fa, Hss'. simpl. rewrite elem_of_union,
      elem_of_singleton, (Hr fd). tauto. }
  unfold fd_max_exact. unfold UPDATE_SOCK_FD_MAX_ADD in *. simpl in *.
  destruct (Z.ltb_spec (sock_fd_max st) tmp) as [Hlt' | Hge]; simpl.
  - split; [lia |]. split.
    + intros fd Hfd. apply Hss in Hfd as [-> | Hfd]; [lia |].
      specialize (M2 fd Hfd). lia.
    + right. apply Hss. by left.
  - split; [done |]. split.
    + intros fd Hfd. apply Hss in Hfd as [-> | Hfd]; [lia | by apply M2].
    + destruct M3 as [M3 | M3]; [by left |]. right. apply Hss. by right.
Qed.

(** Lines 221-249 keep the state of the loop sound. *)
Lemma new_connection_Sound (cfg : um_config) (inp : iter_input)
    (st : um_state) :
  Sound cfg st -> fresh_sock st inp ->
  (forall j s, map st !! j = Some s -> hit (in_recvfrom_addr inp) s = false) ->
  Sound cfg (snd (new_connection TIME_INVALID cfg inp st)).
Proof.
  intros HS Hfresh Hmiss. unfold new_connection, fresh_sock in *.
  remember (in_new_sock inp) as tmp eqn:Etmp.
  set (st1 := emit (EvLog (LogNewConn (in_recvfrom_addr inp))) st).
  assert (HS1 : Sound cfg st1) by (by apply emit_Sound).
  destruct (Z.ltb_spec tmp 0) as [Hneg | Hpos].
  { simpl. unfold sys_socket.
    destruct (Z.ltb_spec tmp 0); [| lia]. by apply emit_Sound, emit_Sound. }
  destruct Hfresh as [Hf | Hf]; [lia |].
  destruct (sys_socket_Sound cfg tmp st1 HS1 Hpos) as [HS2 Ho2].
  set (st2 := sys_socket tmp st1) in *.
  assert (Hm2 : map st2 = map st) by (unfold st2; by rewrite sys_socket_map).
  assert (Hne : forall j s, map st2 !! j = Some s -> in_use s <> 0 ->
                  sock s <> tmp).
  { intros j s. rewrite Hm2. intros Hj Aj E.
    apply Hf. rewrite <- E. by apply (proj2 (proj1 HS) j). }
  assert (Hnb : tmp <> bind_sock cfg).
  { intros E. apply Hf. rewrite E. apply HS. }
  pose proof (um_sockmap_clean_Sound cfg (in_time_reap inp) st2 HS2) as HS3.
  set (st3 := snd (um_sockmap_clean TIME_INVALID cfg (in_time_reap inp) st2))
    in *.
  assert (Hopen3 : tmp ∈ open_fds st3).
  { apply um_sockmap_clean_keeps_open; [| done]. rewrite Ho2. set_solver. }
  assert (Hnew3 : forall j s, map st3 !! j = Some s -> in_use s <> 0 ->
                    sock s <> tmp /\ from s <> in_recvfrom_addr inp).
  { intros j s Hj Aj.
    destruct (um_sockmap_clean_sub cfg (in_time_reap inp) st2 j s Hj Aj)
      as (s0 & Hj0 & A0 & Es & Ef).
    rewrite <- Es, <- Ef. split; [by apply (Hne j) |].
    apply hit_false_from; [| done]. apply (Hmiss j). by rewrite <- Hm2. }
  destruct (um_sockmap_ins_spec tmp (in_recvfrom_addr inp) st3)
    as [[Hr _] | (k & s0 & Hk & Hfree & _ & Hr)]; rewrite Hr.
  - change (0 <=? -1) with false. cbv iota. simpl. by apply emit_Sound.
  - destruct (Z.leb_spec 0 (Z.of_nat k)) as [_ | Hlt]; [| lia]. simpl.
    by apply (register_Sound cfg tmp (in_recvfrom_addr inp) k st3 s0).
Qed.

Lemma forward_upstream_Sound (mode : um_mode) (cfg : um_config)
    (inp : iter_input) (buf : list Byte.byte) (sock_idx : Z)
    (st : um_state) :
  Sound cfg st ->
  Sound cfg
    (forward_upstream TIME_INVALID transform mode cfg inp buf sock_idx st).
Proof.
  intros HS. unfold forward_upstream.
  destruct (0 <=? sock_idx); [| done].
  by apply UPDATE_LAST_USE_Sound, emit_Sound.
Qed.

Lemma dispatch_listen_Sound (mode : um_mode) (cfg : um_config)
    (inp : iter_input) (st : um_state) :
  Sound cfg st -> fresh_sock st inp ->
  Sound cfg (snd (dispatch_listen TIME_INVALID transform mode cfg inp st)).
Proof.
  intros HS Hfresh. unfold dispatch_listen.
  destruct (bool_decide (bind_sock cfg ∈ in_read_fd_set inp)); [| done].
  destruct (0 <? in_recvfrom_ret inp); [| by apply emit_Sound].
  set (st1 := emit (EvRecvfrom (bind_sock cfg) (in_recvfrom_ret inp)) st).
  destruct (start_lookup_spec (in_recvfrom_addr inp) (map st1))
    as [[Hr Hall] | (k & s & Hr & _)]; rewrite Hr.
  - change (-1 <? 0) with true. cbv iota.
    pose proof (new_connection_Sound cfg inp st1) as HN.
    destruct (new_connection TIME_INVALID cfg inp st1) as [[idx trig] st2].
    simpl. apply forward_upstream_Sound.
    apply HN; [by apply emit_Sound | done | done].
  - destruct (Z.ltb_spec (Z.of_nat k) 0) as [Hlt | _]; [lia |].
    simpl. apply forward_upstream_Sound. by apply emit_Sound.
Qed.

Lemma drain_sessions_Sound (mode : um_mode) (cfg : um_config)
    (inp : iter_input) (st : um_state) :
  Sound cfg st ->
  Sound cfg (drain_sessions TIME_INVALID transform mode cfg inp st).
Proof.
  intros HS. unfold drain_sessions.
  apply (for_loop_inv (fun _ t => Sound cfg t)); [done |].
  intros j t _ Ht. unfold drain_body.
  destruct (map t !! j) as [s|]; [| done].
  destruct (active s && bool_decide (sock s ∈ in_read_fd_set inp)); [| done].
  destruct (in_recv inp j) as [ret rbuf].
  destruct (0 <? ret); [| by apply emit_Sound].
  by apply emit_Sound, UPDATE_LAST_USE_Sound, emit_Sound.
Qed.

Lemma loop_body_Sound (mode : um_mode) (cfg : um_config) (inp : iter_input)
    (st : um_state) :
  Sound cfg st -> fresh_sock st inp ->
  Sound cfg (loop_body TIME_INVALID transform mode cfg inp st).
Proof.
  intros HS Hfresh. unfold loop_body.
  destruct (in_select_ret inp <=? 0); [by apply emit_Sound, emit_Sound |].
  pose proof (dispatch_listen_Sound mode cfg inp
    (emit (EvSelect (sock_fd_max st + 1) (in_select_ret inp)) st)) as HD.
  destruct (dispatch_listen TIME_INVALID transform mode cfg inp
    (emit (EvSelect (sock_fd_max st + 1) (in_select_ret inp)) st))
    as [trigged st1].
  unfold maintain. simpl in HD.
  destruct trigged.
  - apply drain_sessions_Sound, HD; [by apply emit_Sound | done].
  - apply um_sockmap_clean_Sound, drain_sessions_Sound, HD;
      [by apply emit_Sound | done].
Qed.

(** The state in which [start] enters its loop is sound. *)
Lemma start_entry_Sound (cfg : um_config) (st : um_state) :
  Forall (fun s => in_use s = 0) (map st) ->
  bind_sock cfg ∈ open_fds st ->
  Sound cfg
    (update_sock_fd_max cfg
       (emit (EvLog (LogTimeout (timeout cfg)))
          (set_active_fd_set {[bind_sock cfg]} st))).
Proof.
  intros Hfree Hbind.
  set (st0 := emit (EvLog (LogTimeout (timeout cfg)))
                (set_active_fd_set {[bind_sock cfg]} st)).
  destruct (update_sock_fd_max_frame cfg st0) as (Hm & Ha & Ho & _).
  assert (Hnone : forall fd, ~ session_sock (update_sock_fd_max cfg st0) fd).
  { intros fd (j & s & Hj & Hin & _). rewrite Hm in Hj. simpl in Hj.
    by apply Hin, (Forall_lookup_1 _ _ _ _ Hfree Hj). }
  split; [apply all_free_Inv; by rewrite Hm |].
  split; [by rewrite Ho |].
  split; [apply Hnone |].
  split; [| apply update_sock_fd_max_exact].
  intros fd. rewrite Ha. simpl. rewrite elem_of_singleton.
  split; [by left |]. intros [H | H]; [done | by apply Hnone in H].
Qed.

Lemma loop_state_at_Sound (mode : um_mode) (cfg : um_config) (n : nat) :
  forall (inputs : list iter_input) (signal_term : Z) (st st' : um_state),
    Sound cfg st ->
    env_fresh mode cfg inputs signal_term st ->
    loop_state_at mode cfg n inputs signal_term st = Some st' ->
    Sound cfg st'.
Proof.
  induction n as [|n IH]; intros inputs sig st st' HS Henv Hat; simpl in Hat.
  - destruct (negb (sig =? 0)); [done |]. by injection Hat as <-.
  - destruct (Z.eqb_spec sig 0) as [E | E]; simpl in Hat; [| done].
    destruct inputs as [|inp rest]; [done |].
    destruct (Henv E) as [Hf Hrest].
    apply (IH rest _ _ st' (loop_body_Sound mode cfg inp st HS Hf) Hrest Hat).
Qed.

(** X1: [update_sock_fd_max] leaves in [sock_fd_max] the largest of
    [bind_sock] and the sockets of the slots in use (it is at least each of
    them and equal to one of them), and changes nothing else. *)
Theorem update_sock_fd_max_is_max (cfg : um_config) (st : um_state) :
  let st' := update_sock_fd_max cfg st in
  bind_sock cfg <= sock_fd_max st' /\
  (forall j s, map st !! j = Some s -> in_use s <> 0 ->
     sock s <= sock_fd_max st') /\
  (sock_fd_max st' = bind_sock cfg \/
   exists j s, map st !! j = Some s /\ in_use s <> 0 /\
               sock s = sock_fd_max st') /\
  map st' = map st /\ active_fd_set st' = active_fd_set st /\
  open_fds st' = open_fds st /\ trace st' = trace st.
Proof.
  intros st'.
  destruct (update_sock_fd_max_exact cfg st) as (M1 & M2 & M3).
  destruct (update_sock_fd_max_frame cfg st) as (Fm & Fa & Fo & Ft).
  fold st' in M1, M2, M3, Fm, Fa, Fo, Ft.
  split; [done |]. split.
  { intros j s Hj Hin. apply M2. exists j, s. by rewrite Fm. }
  split; [| done].
  destruct M3 as [M3 | (j & s & Hj & Hin & Hs)]; [by left |].
  right. exists j, s. by rewrite Fm in Hj.
Qed.

(** X2: at the top of every iteration of the loop of [start], entered from
    a table of free slots with the listening socket open, the descriptor
    set holds exactly the listening socket and the sockets of the sessions
    in use, [sock_fd_max] is the largest of them, so that the first
    argument of [select] is above every descriptor of the set, and the
    sessions in use have distinct addresses and distinct sockets. *)
Theorem start_descriptor_set_exact (mode : um_mode) (cfg : um_config)
    (n : nat) (inputs : list iter_input) (signal_term : Z)
    (st st' : um_state) :
  Forall (fun s => in_use s = 0) (map st) ->
  bind_sock cfg ∈ open_fds st ->
  env_fresh mode cfg inputs signal_term (start_entry cfg st) ->
  loop_state_at mode cfg n inputs signal_term (start_entry cfg st) = Some st' ->
  (forall fd, fd ∈ active_fd_set st' <->
     fd = bind_sock cfg \/
     exists j s, map st' !! j = Some s /\ in_use s <> 0 /\ sock s = fd) /\
  (forall fd, fd ∈ active_fd_set st' -> fd < sock_fd_max st' + 1) /\
  sock_fd_max st' ∈ active_fd_set st' /\
  table_inv (map st') /\
  (forall j s, map st' !! j = Some s -> in_use s <> 0 ->
     sock s ∈ open_fds st' /\ sock s <> bind_sock cfg).
Proof.
  intros Hfree Hbind Henv Hat.
  pose proof (loop_state_at_Sound mode cfg n inputs signal_term _ st'
                (start_entry_Sound cfg st Hfree Hbind) Henv Hat)
    as ((HT & HO) & Hb & Hnb & Hr & M1 & M2 & M3).
  split; [exact Hr |].
  split.
  { intros fd Hfd. apply Hr in Hfd as [-> | Hfd]; [lia |].
    specialize (M2 fd Hfd). lia. }
  split.
  { apply Hr. destruct M3 as [M3 | M3]; [by left | by right]. }
  split; [done |].
  intros j s Hj Hin. split; [by apply (HO j) |].
  intros E. apply Hnb. by exists j, s.
Qed.

(** ** Descriptors the loop leaves alone *)

Lemma Kept_same (K : gset Z) (st st' : um_state) :
  sub_sessions (map st) (map st') ->
  open_fds st' = open_fds st ->
  Kept K st -> Kept K st'.
Proof.
  intros Hsub Ho [K1 K2]. split; [by rewrite Ho |].
  intros fd Hfd. apply K2. by apply (session_sock_sub st st').
Qed.

Lemma emit_Kept (K : gset Z) (e : event) (st : um_state) :
  Kept K st -> Kept K (emit e st).
Proof. apply Kept_same; [apply sub_sessions_refl | done]. Qed.

Lemma UPDATE_LAST_USE_Kept (K : gset Z) (idx : nat) (time_val : Z)
    (st : um_state) :
  Kept K st -> Kept K (UPDATE_LAST_USE TIME_INVALID idx time_val st).
Proof.
  destruct (UPDATE_LAST_USE_frame idx time_val st) as (H1 & _ & _ & Ho & _).
  by apply Kept_same.
Qed.

Lemma um_sockmap_clean_Kept (K : gset Z) (cfg : um_config) (time_val : Z)
    (st : um_state) :
  Kept K st -> Kept K (snd (um_sockmap_clean TIME_INVALID cfg time_val st)).
Proof.
  intros [K1 K2]. split.
  - intros fd Hfd. apply um_sockmap_clean_keeps_open; [by apply K1 |].
    intros j s Hj Hin E. apply (K2 fd); [| done]. by exists j, s.
  - intros fd Hfd. apply K2.
    by apply (session_sock_sub st _ fd (um_sockmap_clean_sub cfg time_val st)).
Qed.

Lemma new_connection_Kept (K : gset Z) (cfg : um_config) (inp : iter_input)
    (st : um_state) :
  Kept K st -> fresh_sock st inp ->
  Kept K (snd (new_connection TIME_INVALID cfg inp st)).
Proof.
  intros HK Hfresh. unfold new_connection, fresh_sock in *.
  remember (in_new_sock inp) as tmp eqn:Etmp.
  set (st1 := emit (EvLog (LogNewConn (in_recvfrom_addr inp))) st).
  destruct (Z.ltb_spec tmp 0) as [Hneg | Hpos].
  { simpl. unfold sys_socket.
    destruct (Z.ltb_spec tmp 0); [| lia]. by apply emit_Kept, emit_Kept. }
  destruct Hfresh as [Hf | Hf]; [lia |].
  set (st2 := sys_socket tmp st1).
  assert (HK2 : Kept K st2).
  { destruct HK as [K1 K2]. unfold st2, sys_socket.
    destruct (Z.ltb_spec tmp 0); [lia |]. split; [simpl; set_solver | done]. }
  pose proof (um_sockmap_clean_Kept K cfg (in_time_reap inp) st2 HK2)
    as [K1 K2].
  set (st3 := snd (um_sockmap_clean TIME_INVALID cfg (in_time_reap inp) st2))
    in *.
  assert (HtK : tmp ∉ K).
  { intros Hin. apply Hf. by apply (proj1 HK). }
  destruct (um_sockmap_ins_cases tmp (in_recvfrom_addr inp) st3)
    as [[Hr _] | (k & Hk & Hr)]; rewrite Hr.
  - change (0 <=? -1) with false. cbv iota. simpl. by apply emit_Kept.
  - destruct (Z.leb_spec 0 (Z.of_nat k)) as [_ | Hlt]; [| lia]. simpl.
    destruct (UPDATE_SOCK_FD_MAX_ADD_frame tmp
      (emit (EvConnect tmp (conn_addr cfg))
         (FD_SET tmp
            (set_map (<[k:=new_slot TIME_INVALID tmp (in_recvfrom_addr inp)]>
                        (map st3)) st3))))
      as (Fm & _ & Fo & _).
    split; [by rewrite Fo |].
    intros fd (j & s & Hj & Hin & Hfd). rewrite Fm in Hj. simpl in Hj.
    destruct (decide (j = k)) as [-> | Hne].
    + rewrite list_lookup_insert_eq in Hj by done. injection Hj as <-.
      simpl in Hfd. by subst fd.
    + rewrite list_lookup_insert_ne in Hj by done.
      apply K2. by exists j, s.
Qed.

Lemma loop_body_Kept (K : gset Z) (mode : um_mode) (cfg : um_config)
    (inp : iter_input) (st : um_state) :
  Kept K st -> fresh_sock st inp ->
  Kept K (loop_body TIME_INVALID transform mode cfg inp st).
Proof.
  intros HK Hfresh. unfold loop_body.
  destruct (in_select_ret inp <=? 0); [by apply emit_Kept, emit_Kept |].
  set (st0 := emit (EvSelect (sock_fd_max st + 1) (in_select_ret inp)) st).
  assert (HD : Kept K
    (snd (dispatch_listen TIME_INVALID transform mode cfg inp st0))).
  { unfold dispatch_listen.
    destruct (bool_decide (bind_sock cfg ∈ in_read_fd_set inp));
      [| by apply emit_Kept].
    destruct (0 <? in_recvfrom_ret inp); [| by apply emit_Kept, emit_Kept].
    set (st1 := emit (EvRecvfrom (bind_sock cfg) (in_recvfrom_ret inp)) st0).
    assert (HK1 : Kept K st1) by (by apply emit_Kept, emit_Kept).
    assert (Hfwd : forall idx t, Kept K t ->
      Kept K (forward_upstream TIME_INVALID transform mode cfg inp
                (take (Z.to_nat (in_recvfrom_ret inp)) (in_recvfrom_buf inp))
                idx t)).
    { intros idx t Ht. unfold forward_upstream.
      destruct (0 <=? idx); [| done].
      by apply UPDATE_LAST_USE_Kept, emit_Kept. }
    destruct (start_lookup (in_recvfrom_addr inp) (map st1) <? 0).
    - pose proof (new_connection_Kept K cfg inp st1 HK1) as HN.
      destruct (new_connection TIME_INVALID cfg inp st1) as [[idx trig] st2].
      simpl. apply Hfwd. by apply HN.
    - simpl. by apply Hfwd. }
  destruct (dispatch_listen TIME_INVALID transform mode cfg inp st0)
    as [trigged st1].
  simpl in HD.
  assert (HDr : Kept K (drain_sessions TIME_INVALID transform mode cfg inp st1)).
  { unfold drain_sessions.
    apply (for_loop_inv (fun _ t => Kept K t)); [done |].
    intros j t _ Ht. unfold drain_body.
    destruct (map t !! j) as [s|]; [| done].
    destruct (active s && bool_decide (sock s ∈ in_read_fd_set inp)); [| done].
    destruct (in_recv inp j) as [ret rbuf].
    destruct (0 <? ret); [| by apply emit_Kept].
    by apply emit_Kept, UPDATE_LAST_USE_Kept, emit_Kept. }
  unfold maintain. destruct trigged; [done |].
  by apply um_sockmap_clean_Kept.
Qed.

Lemma cleanup_Kept (K : gset Z) (st : um_state) :
  Kept K st -> K ⊆ open_fds (cleanup st).
Proof.
  intros [K1 K2]. destruct (cleanup_spec st) as (_ & _ & Ho & _).
  rewrite Ho. intros fd Hfd. apply elem_of_difference. split; [by apply K1 |].
  unfold socks_of. rewrite elem_of_list_to_set, list_elem_of_fmap.
  intros (t & -> & Ht). unfold active_slots in Ht.
  apply list_elem_of_filter in Ht as [Hact Hin].
  apply list_elem_of_lookup in Hin as [k Hk].
  apply (K2 (sock t)); [| done]. exists k, t. split; [done |].
  split; [| done]. unfold active in Hact.
  by destruct (Z.eqb_spec (in_use t) 0).
Qed.

Lemma start_loop_Kept (K : gset Z) (mode : um_mode) (cfg : um_config)
    (inputs : list iter_input) :
  forall (signal_term : Z) (st : um_state) (r : Z) (st' : um_state),
    Kept K st ->
    env_fresh mode cfg inputs signal_term st ->
    start_loop TIME_INVALID transform mode cfg inputs signal_term st =
      Some (r, st') ->
    r = 0 /\ K ⊆ open_fds st' /\
    (forall j s, map st' !! j = Some s -> in_use s = 0).
Proof.
  assert (Hend : forall st, Kept K st ->
            K ⊆ open_fds (cleanup st) /\
            (forall j s, map (cleanup st) !! j = Some s -> in_use s = 0)).
  { intros st HK. split; [by apply cleanup_Kept |].
    intros j s Hj. destruct (cleanup_spec st) as (Hm & _).
    rewrite Hm, list_lookup_fmap in Hj.
    destruct (map st !! j); [| done]. simpl in Hj. injection Hj as <-.
    apply free_slot_in_use. }
  induction inputs as [|inp rest IH]; intros sig st r st' HK Henv Hrun;
    simpl in Hrun.
  - destruct (negb (sig =? 0)); [| done].
    injection Hrun as <- <-. split; [done | by apply Hend].
  - destruct (Z.eqb_spec sig 0) as [E | E]; simpl in Hrun.
    + destruct (Henv E) as [Hf Hrest].
      apply (IH _ _ r st' (loop_body_Kept K mode cfg inp st HK Hf) Hrest Hrun).
    + injection Hrun as <- <-. split; [done | by apply Hend].
Qed.

(** X3: [start], entered from a table of free slots, returns 0, closes no
    descriptor that was open when it was entered, the listening socket
    among them, and leaves no slot in use. *)
Theorem start_closes_sessions_only (mode : um_mode) (cfg : um_config)
    (inputs : list iter_input) (signal_term r : Z) (st st' : um_state) :
  Forall (fun s => in_use s = 0) (map st) ->
  env_fresh mode cfg inputs signal_term (start_entry cfg st) ->
  start TIME_INVALID transform mode cfg inputs signal_term st = Some (r, st') ->
  r = 0 /\
  open_fds st ⊆ open_fds st' /\
  (bind_sock cfg ∈ open_fds st -> bind_sock cfg ∈ open_fds st') /\
  (forall j s, map st' !! j = Some s -> in_use s = 0).
Proof.
  intros Hfree Henv Hrun. unfold start in Hrun. fold (start_entry cfg st) in Hrun.
  assert (HK : Kept (open_fds st) (start_entry cfg st)).
  { unfold start_entry.
    destruct (update_sock_fd_max_frame cfg
      (emit (EvLog (LogTimeout (timeout cfg)))
         (set_active_fd_set {[bind_sock cfg]} st))) as (Hm & _ & Ho & _).
    split; [by rewrite Ho |].
    intros fd (j & s & Hj & Hin & _). rewrite Hm in Hj. simpl in Hj.
    exfalso. by apply Hin, (Forall_lookup_1 _ _ _ _ Hfree Hj). }
  destruct (start_loop_Kept (open_fds st) mode cfg inputs signal_term _ r st'
              HK Henv Hrun) as (Hr & Ho & Hm).
  split; [done |]. split; [done |]. split; [| done].
  intros Hb. by apply Ho.
Qed.

(** ** The value of the comparison *)

Lemma sint32_opp (z : Z) :
  - 2 ^ 31 < z < 2 ^ 31 -> sint32 (- z) = - sint32 z.
Proof.
  intros H. rewrite !sint32_small; [done | |];
    change (2 ^ 31) with 2147483648 in *; lia.
Qed.

(** X4: for addresses within the range of their fields, [sockaddr_in_cmp]
    is the difference of the families when they differ, else the difference
    of the ports when they differ, else the difference of the numeric
    addresses reduced to 32 bits and read as an [int].  Swapping the
    arguments negates the result, except when the numeric addresses are
    2^31 apart: then the result is -2^31 both ways.  The sign follows the
    order of the numeric addresses only when they are less than 2^31
    apart. *)
Theorem sockaddr_in_cmp_value (a b : sockaddr_in) :
  sockaddr_in_wf a -> sockaddr_in_wf b ->
  (sin_family a <> sin_family b ->
     sockaddr_in_cmp a b = sin_family a - sin_family b /\
     sockaddr_in_cmp b a = - sockaddr_in_cmp a b) /\
  (sin_family a = sin_family b -> sin_port a <> sin_port b ->
     sockaddr_in_cmp a b = sin_port a - sin_port b /\
     sockaddr_in_cmp b a = - sockaddr_in_cmp a b) /\
  (sin_family a = sin_family b -> sin_port a = sin_port b ->
     let d := s_addr a - s_addr b in
     sockaddr_in_cmp a b = sint32 (uint32 d) /\
     (Z.abs d <> 2 ^ 31 -> sockaddr_in_cmp b a = - sockaddr_in_cmp a b) /\
     (Z.abs d = 2 ^ 31 ->
        sockaddr_in_cmp a b = - 2 ^ 31 /\ sockaddr_in_cmp b a = - 2 ^ 31) /\
     (Z.abs d < 2 ^ 31 -> sockaddr_in_cmp a b = d) /\
     (2 ^ 31 < d -> sockaddr_in_cmp a b < 0) /\
     (d < - 2 ^ 31 -> 0 < sockaddr_in_cmp a b)).
Proof.
  intros (Hf1 & Hp1 & Ha1) (Hf2 & Hp2 & Ha2).
  assert (Hfam : forall x y, 0 <= x < 2 ^ 16 -> 0 <= y < 2 ^ 16 ->
            sint32 (x - y) = x - y).
  { intros x y Hx Hy. apply sint32_small.
    change (2 ^ 16) with 65536 in *. change (2 ^ 31) with 2147483648. lia. }
  assert (Haddr : forall x y, 0 <= x < 2 ^ 32 -> 0 <= y < 2 ^ 32 ->
            sint64 (uint32 (x - y)) = uint32 (x - y)).
  { intros x y Hx Hy. pose proof (uint32_range (x - y)) as Hr.
    apply sint64_small. change (2 ^ 32) with 4294967296 in *.
    change (2 ^ 63) with 9223372036854775808. lia. }
  assert (Hcmp : forall x y : sockaddr_in,
     sockaddr_in_wf x -> sockaddr_in_wf y ->
     sockaddr_in_cmp x y =
       if negb (sin_family x - sin_family y =? 0)
       then sin_family x - sin_family y
       else if negb (sin_port x - sin_port y =? 0)
            then sin_port x - sin_port y
            else sint32 (uint32 (s_addr x - s_addr y))).
  { intros x y (Xf & Xp & Xa) (Yf & Yp & Ya). unfold sockaddr_in_cmp.
    rewrite (Hfam _ _ Xf Yf), (Hfam _ _ Xp Yp), (Haddr _ _ Xa Ya).
    destruct (negb (sin_family x - sin_family y =? 0)); [done |].
    destruct (negb (sin_port x - sin_port y =? 0)); [done |].
    destruct (Z.eqb_spec (uint32 (s_addr x - s_addr y)) 0) as [E | E];
      simpl; [| done].
    rewrite E. reflexivity. }
  rewrite (Hcmp a b), (Hcmp b a) by done.
  split; [| split].
  - intros Hne.
    destruct (Z.eqb_spec (sin_family a - sin_family b) 0); [lia |].
    destruct (Z.eqb_spec (sin_family b - sin_family a) 0); [lia |].
    simpl. lia.
  - intros Hfe Hne.
    destruct (Z.eqb_spec (sin_family a - sin_family b) 0); [| lia].
    destruct (Z.eqb_spec (sin_family b - sin_family a) 0); [| lia].
    destruct (Z.eqb_spec (sin_port a - sin_port b) 0); [lia |].
    destruct (Z.eqb_spec (sin_port b - sin_port a) 0); [lia |].
    simpl. lia.
  - intros Hfe Hpe d.
    destruct (Z.eqb_spec (sin_family a - sin_family b) 0); [| lia].
    destruct (Z.eqb_spec (sin_family b - sin_family a) 0); [| lia].
    destruct (Z.eqb_spec (sin_port a - sin_port b) 0); [| lia].
    destruct (Z.eqb_spec (sin_port b - sin_port a) 0); [| lia].
    simpl. fold d. replace (s_addr b - s_addr a) with (- d) by (unfold d; lia).
    assert (Hd : - 2 ^ 32 < d < 2 ^ 32)
      by (unfold d; change (2 ^ 32) with 4294967296 in *; lia).
    clearbody d. unfold sint32, uint32.
    change (2 ^ 31) with 2147483648 in *.
    change (2 ^ 32) with 4294967296 in *.
    repeat split; intros; Z.to_euclidean_division_equations; lia.
Qed.

(** ** Signals and the end of the loop *)

Lemma foldl_sighanlder (l : list Z) :
  forall v, foldl sighanlder v l =
            if existsb is_term_signal l then 1 else v.
Proof.
  induction l as [|x l IH]; intros v; [done |].
  simpl. rewrite IH. unfold sighanlder. fold (is_term_signal x).
  destruct (is_term_signal x); simpl; [| done].
  by destruct (existsb is_term_signal l).
Qed.

(** X5: [sighanlder] sets [signal_term] to 1 on [SIGHUP], [SIGINT] and
    [SIGTERM] and leaves it alone on any other signal, and nothing clears
    it.  The loop of [start] is left only through it: [start] returns, and
    then returns 0, exactly when [signal_term] was set at entry or one of
    these signals arrives during one of the iterations. *)
Theorem start_returns_on_signal_only (mode : um_mode) (cfg : um_config)
    (inputs : list iter_input) (signal_term : Z) (st : um_state) :
  (forall v l, foldl sighanlder v l =
               if existsb is_term_signal l then 1 else v) /\
  (start TIME_INVALID transform mode cfg inputs signal_term st = None <->
     signal_term = 0 /\
     forall inp, inp ∈ inputs ->
       existsb is_term_signal (in_signals inp) = false) /\
  (forall r st',
     start TIME_INVALID transform mode cfg inputs signal_term st =
       Some (r, st') -> r = 0).
Proof.
  split; [intros v l; apply foldl_sighanlder |].
  unfold start. generalize (start_entry cfg st). fold (start_entry cfg st).
  intros st0.
  assert (H : forall inputs sig st0,
    (start_loop TIME_INVALID transform mode cfg inputs sig st0 = None <->
       sig = 0 /\
       forall inp, inp ∈ inputs ->
         existsb is_term_signal (in_signals inp) = false) /\
    (forall r st',
       start_loop TIME_INVALID transform mode cfg inputs sig st0 =
         Some (r, st') -> r = 0)).
  { clear. induction inputs as [|inp rest IH]; intros sig st0; simpl.
    - destruct (Z.eqb_spec sig 0) as [E | E]; simpl.
      + split; [| done]. split; [| done]. intros _. split; [done |].
        intros inp Hin. by apply not_elem_of_nil in Hin.
      + split; [| by intros r st' [= <- _]].
        split; [done | by intros [? _]].
    - destruct (Z.eqb_spec sig 0) as [E | E]; simpl.
      + destruct (IH (foldl sighanlder sig (in_signals inp))
                    (loop_body TIME_INVALID transform mode cfg inp st0))
          as [IH1 IH2].
        split; [| exact IH2].
        rewrite IH1, foldl_sighanlder. subst sig. split.
        * intros [Hf Hrest].
          destruct (existsb is_term_signal (in_signals inp)) eqn:Ex;
            [done |].
          split; [done |]. intros inp' Hin.
          apply elem_of_cons in Hin as [-> | Hin]; [done | by apply Hrest].
        * intros [_ Hall].
          rewrite (Hall inp) by apply list_elem_of_here.
          split; [done |]. intros inp' Hin. apply Hall.
          apply elem_of_cons. by right.
      + split; [| by intros r st' [= <- _]].
        split; [done | by intros [? _]]. }
  unfold start_entry in *. apply H.
Qed.

(** ** The drain of the session sockets *)

Lemma drain_events_from_elem (mode : um_mode) (cfg : um_config)
    (inp : iter_input) (e : event) :
  forall (l : list um_sockmap) (i : nat),
    e ∈ drain_events_from mode cfg inp i l ->
    exists k s, l !! k = Some s /\
                e ∈ drain_slot_events mode cfg inp (i + k) s.
Proof.
  induction l as [|s0 l IH]; intros i He; simpl in He.
  - by apply not_elem_of_nil in He.
  - apply elem_of_app in He as [He | He].
    + exists 0%nat, s0. split; [done |]. by rewrite Nat.add_0_r.
    + destruct (IH (Datatypes.S i) He) as (k & s & Hk & Hin).
      exists (Datatypes.S k), s. split; [done |].
      by replace (i + Datatypes.S k)%nat with (Datatypes.S i + k)%nat by lia.
Qed.

Lemma drain_sessions_map (mode : um_mode) (cfg : um_config)
    (inp : iter_input) (st : um_state) :
  let st' := drain_sessions TIME_INVALID transform mode cfg inp st in
  (forall j, map st' !! j = drain_slot inp j <$> map st !! j) /\
  open_fds st' = open_fds st /\ active_fd_set st' = active_fd_set st /\
  sock_fd_max st' = sock_fd_max st.
Proof.
  intros st'. subst st'. unfold drain_sessions.
  set (m := map st).
  pose (P := fun (i : nat) (t : um_state) =>
    (forall j, map t !! j =
       if decide (j < i)%nat then drain_slot inp j <$> m !! j else m !! j) /\
    open_fds t = open_fds st /\ active_fd_set t = active_fd_set st /\
    sock_fd_max t = sock_fd_max st).
  assert (HP : P (0 + length m)%nat
    (for_loop (length m) 0 (drain_body TIME_INVALID transform mode cfg inp) st)).
  { apply (for_loop_inv P).
    - unfold P. split; [| done]. intros j.
      destruct (decide (j < 0)%nat); [lia | done].
    - intros j t Hj (Hmap & Ho & Ha & Hx).
      assert (Hmj : map t !! j = m !! j).
      { rewrite Hmap. destruct (decide (j < j)%nat); [lia | done]. }
      destruct (m !! j) as [s|] eqn:Hs;
        [| apply lookup_ge_None in Hs; unfold m in *; lia].
      assert (Hstep : forall t',
                (map t' = map t /\ drain_slot inp j s = s) \/
                (map t' = alter (with_last_use (in_time_sess inp j)) j (map t)
                 /\ drain_slot inp j s = with_last_use (in_time_sess inp j) s)
                ->
                open_fds t' = open_fds st -> active_fd_set t' = active_fd_set st ->
                sock_fd_max t' = sock_fd_max st -> P (Datatypes.S j) t').
      { intros t' Hm' Ho' Ha' Hx'. split; [| done].
        intros k. destruct (decide (k = j)) as [-> | Hne].
        - destruct (decide (j < Datatypes.S j)%nat); [| lia].
          rewrite Hs. simpl.
          destruct Hm' as [[Hm' Hd] | [Hm' Hd]].
          + rewrite Hm', Hmj, Hd. done.
          + rewrite Hm', list_lookup_alter_eq, Hmj, Hd. done.
        - assert (Hk : map t' !! k = map t !! k).
          { destruct Hm' as [[Hm' _] | [Hm' _]]; rewrite Hm'; [done |].
            by rewrite list_lookup_alter_ne. }
          rewrite Hk, Hmap.
          destruct (decide (k < j)%nat), (decide (k < Datatypes.S j)%nat);
            try done; lia. }
      unfold drain_body. rewrite Hmj.
      unfold drain_slot in Hstep.
      destruct (active s && bool_decide (sock s ∈ in_read_fd_set inp)).
      2: { apply Hstep; try done. by left. }
      destruct (in_recv inp j) as [ret rbuf]. simpl in Hstep.
      destruct (0 <? ret); simpl in Hstep.
      2: { apply Hstep; try done. by left. }
      unfold UPDATE_LAST_USE.
      destruct (negb (in_time_sess inp j =? TIME_INVALID)); simpl.
      + apply Hstep; try done. by right.
      + apply Hstep; try done. by left. }
  destruct HP as (Hmap & Ho & Ha & Hx).
  split; [| done].
  intros j. rewrite Hmap.
  destruct (decide (j < 0 + length m)%nat) as [Hlt | Hge]; [done |].
  rewrite lookup_ge_None_2 by lia. done.
Qed.

(** X6: the drain of the session sockets goes through the table in slot
    order.  For each slot in use whose socket is readable it receives once;
    when bytes arrived it asks for the time and sends their transform on
    the listening socket to the client address stored in that same slot.
    It sends to no other address, sends nothing upstream, opens and closes
    nothing, and in the table changes only [last_use], of the slots that
    received bytes while the clock was valid. *)
Theorem drain_sessions_isolated (mode : um_mode) (cfg : um_config)
    (inp : iter_input) (st : um_state) :
  let st' := drain_sessions TIME_INVALID transform mode cfg inp st in
  let new := drain_events_from mode cfg inp 0 (map st) in
  trace st' = trace st ++ new /\
  (forall e, e ∈ new ->
     exists i s, map st !! i = Some s /\ in_use s <> 0 /\
       sock s ∈ in_read_fd_set inp /\
       (e = EvRecv (sock s) (fst (in_recv inp i)) \/
        (0 < fst (in_recv inp i) /\
         (e = EvTime (in_time_sess inp i) \/
          e = EvSendto (bind_sock cfg)
                (transform mode
                   (take (Z.to_nat (fst (in_recv inp i))) (snd (in_recv inp i)))
                   (tlimit cfg))
                (from s))))) /\
  (forall j, map st' !! j = drain_slot inp j <$> map st !! j) /\
  (forall j s, map st !! j = Some s ->
     in_use (drain_slot inp j s) = in_use s /\
     sock (drain_slot inp j s) = sock s /\
     from (drain_slot inp j s) = from s) /\
  open_fds st' = open_fds st /\ active_fd_set st' = active_fd_set st /\
  sock_fd_max st' = sock_fd_max st.
Proof.
  intros st' new.
  destruct (drain_sessions_map mode cfg inp st) as (Hm & Ho & Ha & Hx).
  split; [apply drain_sessions_trace |].
  split.
  { intros e He.
    apply drain_events_from_elem in He as (k & s & Hk & He).
    simpl in He. unfold drain_slot_events in He.
    destruct (active s) eqn:Hact; simpl in He;
      [| by apply not_elem_of_nil in He].
    destruct (bool_decide (sock s ∈ in_read_fd_set inp)) eqn:Hrd;
      [| by apply not_elem_of_nil in He].
    apply bool_decide_eq_true_1 in Hrd.
    exists k, s. split; [done |].
    split. { unfold active in Hact. by destruct (Z.eqb_spec (in_use s) 0). }
    split; [done |].
    destruct (in_recv inp k) as [ret rbuf]. simpl.
    apply elem_of_cons in He as [-> | He]; [by left |].
    destruct (Z.ltb_spec 0 ret) as [Hpos | Hle];
      [| by apply not_elem_of_nil in He].
    right. split; [done |].
    apply elem_of_cons in He as [-> | He]; [by left |].
    apply elem_of_cons in He as [-> | He]; [by right |].
    by apply not_elem_of_nil in He. }
  split; [done |]. split; [| done].
  intros j s _. unfold drain_slot.
  destruct (active s && bool_decide (sock s ∈ in_read_fd_set inp)); [| done].
  by destruct ((0 <? fst (in_recv inp j)) &&
               negb (in_time_sess inp j =? TIME_INVALID)).
Qed.

(** ** Lookup, insertion and the reaper together *)

Lemma start_lookup_found (a : sockaddr_in) (m : list um_sockmap) (k : nat)
    (s : um_sockmap) :
  m !! k = Some s -> hit a s = true ->
  (forall j s', (j < k)%nat -> m !! j = Some s' -> hit a s' = false) ->
  start_lookup a m = Z.of_nat k.
Proof.
  intros Hk Hh Hfirst.
  destruct (start_lookup_spec a m)
    as [[_ Hall] | (k' & s' & Hr & Hk' & Hh' & Hfirst')].
  - rewrite (Hall k s Hk) in Hh. done.
  - rewrite Hr. f_equal.
    destruct (Nat.lt_trichotomy k' k) as [H | [H | H]]; [| done |].
    + rewrite (Hfirst k' s' H Hk') in Hh'. done.
    + rewrite (Hfirst' k s H Hk) in Hh. done.
Qed.

Lemma start_lookup_none (a : sockaddr_in) (m : list um_sockmap) :
  (forall j s, m !! j = Some s -> hit a s = false) ->
  start_lookup a m = -1.
Proof.
  intros Hall.
  destruct (start_lookup_spec a m) as [[Hr _] | (k & s & _ & Hk & Hh & _)];
    [done |].
  rewrite (Hall k s Hk) in Hh. done.
Qed.

Lemma hit_in_use (a : sockaddr_in) (s : um_sockmap) :
  hit a s = true -> in_use s <> 0.
Proof.
  unfold hit, active. destruct (Z.eqb_spec (in_use s) 0); [done | done].
Qed.

Lemma hit_free (a : sockaddr_in) (s : um_sockmap) :
  in_use s = 0 -> hit a s = false.
Proof. unfold hit, active. by intros ->. Qed.

Lemma hit_other (a : sockaddr_in) (s : um_sockmap) :
  sockaddr_in_wf a -> sockaddr_in_wf (from s) -> from s <> a ->
  hit a s = false.
Proof.
  intros Wa Ws Hne. apply hit_false_matches; [done | done |].
  intros [_ Hsame]. apply same_addr_eq in Hsame. congruence.
Qed.

(** X7: insertion and lookup round trip.  After a session for an address
    that had none is inserted, the lookup of that address returns the slot
    that [um_sockmap_ins] returned, and the lookup of every other address
    returns what it returned before. *)
Theorem lookup_after_insert (fd : Z) (addr : sockaddr_in) (k : nat)
    (st st' : um_state) :
  start_lookup addr (map st) = -1 ->
  um_sockmap_ins TIME_INVALID fd addr st = (Z.of_nat k, st') ->
  start_lookup addr (map st') = Z.of_nat k /\
  (forall b, sockaddr_in_wf b -> sockaddr_in_wf addr -> b <> addr ->
     start_lookup b (map st') = start_lookup b (map st)).
Proof.
  intros Hmiss Hins.
  destruct (um_sockmap_ins_spec fd addr st)
    as [[Hr _] | (k' & s0 & Hk & Hfree & Hfirst & Hr)];
    rewrite Hr in Hins; [injection Hins as E _; lia |].
  injection Hins as E <-. apply Nat2Z.inj in E. subst k'. simpl.
  assert (Hlt : (k < length (map st))%nat) by (by apply lookup_lt_Some in Hk).
  assert (Hold : forall j s, map st !! j = Some s -> hit addr s = false).
  { destruct (start_lookup_spec addr (map st))
      as [[_ Hall] | (k0 & s & Hr0 & _)]; [done | lia]. }
  split.
  - apply (start_lookup_found addr _ k (new_slot TIME_INVALID fd addr)).
    + by apply list_lookup_insert_eq.
    + unfold hit. simpl. by rewrite sockaddr_in_cmp_refl.
    + intros j s' Hj Hs'. rewrite list_lookup_insert_ne in Hs' by lia.
      by apply (Hold j).
  - intros b Wb Wa Hne.
    assert (Hnew : hit b (new_slot TIME_INVALID fd addr) = false).
    { apply hit_other; [done | done |]. simpl. congruence. }
    destruct (start_lookup_spec b (map st))
      as [[Hr0 Hall] | (k0 & s & Hr0 & Hk0 & Hh & Hfirst0)]; rewrite Hr0.
    + apply start_lookup_none. intros j s Hj.
      destruct (decide (j = k)) as [-> | Hjk].
      * rewrite list_lookup_insert_eq in Hj by done. by injection Hj as <-.
      * rewrite list_lookup_insert_ne in Hj by done. by apply (Hall j).
    + assert (k0 <> k).
      { intros ->. assert (s = s0) as -> by congruence.
        by rewrite (hit_free b s0 Hfree) in Hh. }
      apply (start_lookup_found b _ k0 s).
      * by rewrite list_lookup_insert_ne.
      * done.
      * intros j s' Hj Hs'.
        destruct (decide (j = k)) as [-> | Hjk].
        -- rewrite list_lookup_insert_eq in Hs' by done.
           by injection Hs' as <-.
        -- rewrite list_lookup_insert_ne in Hs' by done.
           by apply (Hfirst0 j).
Qed.

(** X8: the reaper and the lookup.  With a positive timeout and distinct
    sessions, an address whose session the reaper purges is not found any
    more, and an address whose session the reaper keeps is found in the
    same slot. *)
Theorem lookup_after_reap (cfg : um_config) (time_val : Z) (a : sockaddr_in)
    (k : nat) (s : um_sockmap) (st : um_state) :
  0 < timeout cfg ->
  table_inv (map st) ->
  sockaddr_in_wf a ->
  Forall (fun s => sockaddr_in_wf (from s)) (map st) ->
  start_lookup a (map st) = Z.of_nat k ->
  map st !! k = Some s ->
  start_lookup a
    (map (snd (um_sockmap_clean TIME_INVALID cfg time_val st))) =
    if stale TIME_INVALID cfg time_val s then -1 else Z.of_nat k.
Proof.
  intros Hpos HT Wa Wm Hfound Hk.
  destruct (um_sockmap_clean_on cfg time_val st Hpos) as (Hm & _).
  rewrite Hm.
  destruct (start_lookup_spec a (map st))
    as [[Hr _] | (k0 & s0 & Hr & Hk0 & Hh & Hfirst)]; [lia |].
  assert (k0 = k) as -> by lia.
  assert (s0 = s) as -> by congruence.
  assert (Hreap_miss : forall j s', map st !! j = Some s' ->
            hit a s' = false -> hit a (reap_slot cfg time_val s') = false).
  { intros j s' _ Hh'. unfold reap_slot.
    destruct (stale TIME_INVALID cfg time_val s'); [by apply hit_free | done]. }
  destruct (stale TIME_INVALID cfg time_val s) eqn:Hst.
  - apply start_lookup_none. intros j s' Hj.
    rewrite list_lookup_fmap in Hj.
    destruct (map st !! j) as [sj|] eqn:Hsj; [| done].
    simpl in Hj. injection Hj as <-.
    destruct (decide (j = k)) as [-> | Hjk].
    + assert (sj = s) as -> by congruence. unfold reap_slot.
      rewrite Hst. by apply hit_free.
    + apply (Hreap_miss j sj Hsj).
      destruct (hit a sj) eqn:Hhj; [| done]. exfalso.
      pose proof (proj1 (hit_matches a sj Wa
                    (Forall_lookup_1 _ _ _ _ Wm Hsj)) Hhj) as [_ E1].
      pose proof (proj1 (hit_matches a s Wa
                    (Forall_lookup_1 _ _ _ _ Wm Hk)) Hh) as [_ E2].
      apply same_addr_eq in E1, E2.
      destruct (HT j k sj s Hsj Hk (hit_in_use a sj Hhj) (hit_in_use a s Hh))
        as [_ Heq].
      apply Hjk, Heq. congruence.
  - apply (start_lookup_found a _ k s).
    + rewrite list_lookup_fmap, Hk. simpl. unfold reap_slot. by rewrite Hst.
    + done.
    + intros j s' Hj Hs'. rewrite list_lookup_fmap in Hs'.
      destruct (map st !! j) as [sj|] eqn:Hsj; [| done].
      simpl in Hs'. injection Hs' as <-.
      apply (Hreap_miss j sj Hsj). by apply (Hfirst j).
Qed.

(** ** A datagram on the listening socket *)

(** X9: a datagram from a client that has a session in use is sent on the
    socket of the lowest slot in use holding its address; no socket is
    created, the reaper is not run by the listening branch, and the table
    changes only in [last_use] of that slot (and not at all when the clock
    is invalid). *)
Theorem known_client_reuses_session (mode : um_mode) (cfg : um_config)
    (inp : iter_input) (st : um_state) (j : nat) (s0 : um_sockmap) :
  bind_sock cfg ∈ in_read_fd_set inp ->
  0 < in_recvfrom_ret inp ->
  map st !! j = Some s0 -> in_use s0 <> 0 ->
  from s0 = in_recvfrom_addr inp ->
  let p := take (Z.to_nat (in_recvfrom_ret inp)) (in_recvfrom_buf inp) in
  let t := in_time_listen inp in
  let r := dispatch_listen TIME_INVALID transform mode cfg inp st in
  exists k s,
    start_lookup (in_recvfrom_addr inp) (map st) = Z.of_nat k /\
    (k <= j)%nat /\ map st !! k = Some s /\ in_use s <> 0 /\
    (table_inv (map st) -> sockaddr_in_wf (in_recvfrom_addr inp) ->
     sockaddr_in_wf (from s) -> k = j) /\
    fst r = false /\
    trace (snd r) =
      trace st ++ [EvRecvfrom (bind_sock cfg) (in_recvfrom_ret inp);
                   EvSend (sock s) (transform mode p (tlimit cfg));
                   EvTime t] /\
    map (snd r) =
      (if t =? TIME_INVALID then map st
       else alter (with_last_use t) k (map st)) /\
    open_fds (snd r) = open_fds st /\
    active_fd_set (snd r) = active_fd_set st /\
    sock_fd_max (snd r) = sock_fd_max st.
Proof.
  intros Hbind Hret Hj Hin Hfrom p t r.
  assert (Hhit0 : hit (in_recvfrom_addr inp) s0 = true).
  { unfold hit, active. rewrite <- Hfrom, sockaddr_in_cmp_refl.
    by destruct (Z.eqb_spec (in_use s0) 0). }
  destruct (start_lookup_spec (in_recvfrom_addr inp) (map st))
    as [[_ Hall] | (k & s & Hr & Hk & Hh & Hfirst)].
  { by rewrite (Hall j s0 Hj) in Hhit0. }
  exists k, s. split; [done |].
  assert (Hkj : (k <= j)%nat).
  { destruct (Nat.le_gt_cases k j) as [H | H]; [done |].
    by rewrite (Hfirst j s0 H Hj) in Hhit0. }
  split; [done |]. split; [done |].
  split; [by apply (hit_in_use (in_recvfrom_addr inp)) |].
  split.
  { intros HT Wa Ws.
    pose proof (proj1 (hit_matches _ s Wa Ws) Hh) as [_ E].
    apply same_addr_eq in E.
    destruct (HT k j s s0 Hk Hj (hit_in_use _ s Hh) Hin) as [_ Heq].
    apply Heq. congruence. }
  subst r. unfold dispatch_listen.
  rewrite bool_decide_eq_true_2 by done.
  destruct (Z.ltb_spec 0 (in_recvfrom_ret inp)) as [_ | Hle]; [| lia].
  change (map (emit (EvRecvfrom (bind_sock cfg) (in_recvfrom_ret inp)) st))
    with (map st).
  rewrite Hr.
  destruct (Z.ltb_spec (Z.of_nat k) 0) as [Hlt | _]; [lia |].
  cbv iota. cbn [fst snd]. fold p.
  unfold forward_upstream.
  destruct (Z.leb_spec 0 (Z.of_nat k)) as [_ | Hlt]; [| lia].
  rewrite Nat2Z.id. unfold slot_sock. simpl. rewrite Hk.
  unfold UPDATE_LAST_USE. fold t.
  destruct (Z.eqb_spec t TIME_INVALID) as [E | E]; simpl;
    rewrite <- ?app_assoc; done.
Qed.

(** X10: a datagram from an address without a session, with the socket
    created: the session is refused exactly when every slot of the table is
    still in use after the reaper has run; otherwise it takes the first free
    slot of that table.  So a slot that was free, or (with a positive
    timeout) held a stale session, guarantees acceptance at or before that
    slot. *)
Theorem accept_iff_free_after_reap (cfg : um_config) (inp : iter_input)
    (st : um_state) :
  0 <= in_new_sock inp ->
  let r := new_connection TIME_INVALID cfg inp st in
  let reaped := reap_table cfg (in_time_reap inp) (map st) in
  (fst (fst r) = -1 <->
     forall j s, reaped !! j = Some s -> in_use s <> 0) /\
  (forall k : nat,
     fst (fst r) = Z.of_nat k <->
       (exists s, reaped !! k = Some s /\ in_use s = 0) /\
       (forall j s', (j < k)%nat -> reaped !! j = Some s' -> in_use s' <> 0)) /\
  (forall k : nat, fst (fst r) = Z.of_nat k ->
     map (snd r) = <[k := new_slot TIME_INVALID (in_new_sock inp)
                           (in_recvfrom_addr inp)]> reaped) /\
  (forall j s, map st !! j = Some s ->
     in_use s = 0 \/
     (0 < timeout cfg /\
      stale TIME_INVALID cfg (in_time_reap inp) s = true) ->
     0 <= fst (fst r) <= Z.of_nat j).
Proof.
  intros Hpos r reaped.
  destruct (new_connection_spec cfg inp st) as (_ & Hi & _ & Hm).
  fold r reaped in Hi, Hm.
  destruct (Z.ltb_spec (in_new_sock inp) 0) as [Hneg | _]; [lia |].
  rewrite Hi, Hm.
  destruct (ins_table_spec (in_new_sock inp) (in_recvfrom_addr inp) reaped)
    as [(H1 & H2 & Hfull) | (k & s & Hk & Hfree & Hfirst & H1 & H2)];
    rewrite H1.
  - split; [done |].
    split.
    { intros k. split; [lia |]. intros [(s & Hk & Hs) _].
      by destruct (Hfull k s Hk). }
    split; [intros k; lia |].
    intros j s Hj Hcase. exfalso.
    assert (Hrj : exists s', reaped !! j = Some s' /\ in_use s' = 0).
    { unfold reaped, reap_table.
      destruct (Z.leb_spec (timeout cfg) 0) as [Hoff | Hon].
      - destruct Hcase as [Hf | [Hp _]]; [by exists s | lia].
      - rewrite list_lookup_fmap, Hj. simpl. unfold reap_slot.
        destruct Hcase as [Hf | [_ Hst]].
        + exists (if stale TIME_INVALID cfg (in_time_reap inp) s
                  then with_in_use 0 s else s).
          split; [done |].
          by destruct (stale TIME_INVALID cfg (in_time_reap inp) s).
        + rewrite Hst. by eexists. }
    destruct Hrj as (s' & Hs' & Hf'). by destruct (Hfull j s' Hs').
  - split.
    { split; [lia |]. intros Hfull. by destruct (Hfull k s Hk). }
    split.
    { intros k'. split.
      - intros E. apply Nat2Z.inj in E. subst k'.
        split; [by exists s | done].
      - intros [(s' & Hk' & Hs') Hfirst'].
        f_equal.
        destruct (Nat.lt_trichotomy k k') as [H | [H | H]]; [| done |].
        + by destruct (Hfirst' k s H Hk).
        + by destruct (Hfirst k' s' H Hk'). }
    split.
    { intros k' E. apply Nat2Z.inj in E. by subst k'. }
    intros j s' Hj Hcase.
    assert (Hrj : exists s'', reaped !! j = Some s'' /\ in_use s'' = 0).
    { unfold reaped, reap_table.
      destruct (Z.leb_spec (timeout cfg) 0) as [Hoff | Hon].
      - destruct Hcase as [Hf | [Hp _]]; [by exists s' | lia].
      - rewrite list_lookup_fmap, Hj. simpl. unfold reap_slot.
        destruct Hcase as [Hf | [_ Hst]].
        + exists (if stale TIME_INVALID cfg (in_time_reap inp) s'
                  then with_in_use 0 s' else s').
          split; [done |].
          by destruct (stale TIME_INVALID cfg (in_time_reap inp) s').
        + rewrite Hst. by eexists. }
    destruct Hrj as (s'' & Hs'' & Hf'').
    split; [lia |].
    destruct (Nat.le_gt_cases k j) as [H | H]; [lia |].
    by destruct (Hfirst j s'' H Hs'').
Qed.

(** ** Every close is of an open descriptor *)

Lemma replay_app (tr1 tr2 : list event) :
  forall O, replay O (tr1 ++ tr2) = replay O tr1 ≫= fun O' => replay O' tr2.
Proof.
  induction tr1 as [|e tr1 IH]; intros O; [done |].
  destruct e; simpl; try apply IH.
  destruct (bool_decide (fd ∈ O)); [apply IH | done].
Qed.

Lemma replay_neutral (tr : list event) (O : gset Z) :
  Forall (fun e => is_fd_event e = false) tr -> replay O tr = Some O.
Proof.
  induction 1 as [|e tr He _ IH]; [done |]. by destruct e.
Qed.

Lemma follows_refl (st : um_state) : follows st st.
Proof. exists []. by rewrite app_nil_r. Qed.

Lemma follows_trans (st1 st2 st3 : um_state) :
  follows st1 st2 -> follows st2 st3 -> follows st1 st3.
Proof.
  intros (n1 & T1 & R1) (n2 & T2 & R2). exists (n1 ++ n2).
  split; [by rewrite T2, T1, app_assoc |].
  rewrite replay_app, R1. exact R2.
Qed.

Lemma follows_neutral (st st' : um_state) (new : list event) :
  trace st' = trace st ++ new -> open_fds st' = open_fds st ->
  Forall (fun e => is_fd_event e = false) new ->
  follows st st'.
Proof.
  intros Ht Ho Hn. exists new. split; [done |].
  rewrite Ho. by apply replay_neutral.
Qed.

Lemma emit_follows (e : event) (st : um_state) :
  is_fd_event e = false -> follows st (emit e st).
Proof.
  intros He. apply (follows_neutral st _ [e]); [done | done |].
  by apply Forall_singleton.
Qed.

Lemma UPDATE_LAST_USE_follows (idx : nat) (time_val : Z) (st : um_state) :
  follows st (UPDATE_LAST_USE TIME_INVALID idx time_val st).
Proof.
  destruct (UPDATE_LAST_USE_frame idx time_val st)
    as (_ & _ & _ & Ho & _ & Ht).
  apply (follows_neutral st _ [EvTime time_val]); [done | done |].
  by apply Forall_singleton.
Qed.

(** The sockets of slots in use selected from a table of distinct sessions
    are pairwise different. *)
Lemma distinct_socks_NoDup (P : um_sockmap -> Prop)
    `{!forall s, Decision (P s)} (m : list um_sockmap) :
  (forall s, P s -> in_use s <> 0) ->
  sessions_distinct m ->
  NoDup (sock <$> filter P m).
Proof.
  intros HP. induction m as [|s m IH]; intros Hd; [constructor |].
  assert (Hd' : sessions_distinct m).
  { intros i j si sj Hi Hj Ai Aj Hne.
    apply (Hd (Datatypes.S i) (Datatypes.S j)); [done | done | done | done | lia]. }
  destruct (decide (P s)) as [Hs | Hs].
  - rewrite filter_cons_True by done. simpl. constructor; [| by apply IH].
    rewrite list_elem_of_fmap. intros (t & Est & Ht).
    apply list_elem_of_filter in Ht as [HPt Hin].
    apply list_elem_of_lookup in Hin as [k Hk].
    destruct (Hd 0%nat (Datatypes.S k) s t) as [_ Hne];
      [done | done | by apply HP | by apply HP | lia |]. done.
  - rewrite filter_cons_False by done. by apply IH.
Qed.

Lemma replay_closes (l : list Z) :
  forall O, NoDup l -> (forall fd, fd ∈ l -> fd ∈ O) ->
    replay O (EvClose <$> l) = Some (O ∖ list_to_set l).
Proof.
  induction l as [|fd l IH]; intros O Hnd Hin; simpl.
  - f_equal. set_solver.
  - apply NoDup_cons in Hnd as [Hfd Hnd].
    rewrite bool_decide_eq_true_2 by (apply Hin, list_elem_of_here).
    rewrite IH; [f_equal; set_solver | done |].
    intros fd' Hfd'. apply elem_of_difference. split.
    + apply Hin. apply elem_of_cons. by right.
    + apply not_elem_of_singleton. intros ->. done.
Qed.

Lemma replay_purge_events (l : list um_sockmap) :
  forall O, NoDup (sock <$> l) -> (forall s, s ∈ l -> sock s ∈ O) ->
    replay O (purge_events l) = Some (O ∖ socks_of l).
Proof.
  unfold socks_of.
  induction l as [|s l IH]; intros O Hnd Hin; simpl.
  - f_equal. set_solver.
  - apply NoDup_cons in Hnd as [Hfd Hnd].
    rewrite bool_decide_eq_true_2 by (apply Hin, list_elem_of_here).
    fold (purge_events l).
    rewrite IH; [f_equal; set_solver | done |].
    intros s' Hs'. apply elem_of_difference. split.
    + apply Hin. apply elem_of_cons. by right.
    + apply not_elem_of_singleton. intros E. apply Hfd.
      rewrite <- E. apply list_elem_of_fmap. by exists s'.
Qed.

(** The reaper closes open descriptors only, each once. *)
Lemma um_sockmap_clean_follows (cfg : um_config) (time_val : Z)
    (st : um_state) :
  Inv st -> follows st (snd (um_sockmap_clean TIME_INVALID cfg time_val st)).
Proof.
  intros [HT HO].
  destruct (Z.leb_spec (timeout cfg) 0) as [Hoff | Hon].
  { rewrite um_sockmap_clean_off by done. apply follows_refl. }
  destruct (um_sockmap_clean_on cfg time_val st Hon) as (_ & Ht & Ho & _).
  eexists. split; [exact Ht |]. simpl. rewrite Ho.
  apply replay_purge_events.
  - unfold stale_slots. apply distinct_socks_NoDup.
    + intros s Hs. apply stale_iff in Hs. tauto.
    + by apply table_inv_distinct.
  - intros s Hs. apply elem_of_stale_slots in Hs as (Hin & Ha & _).
    apply list_elem_of_lookup in Hin as [k Hk]. by apply (HO k).
Qed.

(** The clean up at shutdown closes open descriptors only, each once. *)
Lemma cleanup_follows (st : um_state) : Inv st -> follows st (cleanup st).
Proof.
  intros [HT HO]. destruct (cleanup_spec st) as (_ & Ht & Ho & _).
  eexists. split; [exact Ht |]. rewrite Ho. unfold socks_of.
  apply replay_closes.
  - unfold active_slots. apply distinct_socks_NoDup.
    + intros s Hs. unfold active in Hs.
      by destruct (Z.eqb_spec (in_use s) 0).
    + by apply table_inv_distinct.
  - intros fd Hfd. apply list_elem_of_fmap in Hfd as (s & -> & Hs).
    unfold active_slots in Hs. apply list_elem_of_filter in Hs as [Ha Hin].
    apply list_elem_of_lookup in Hin as [k Hk]. apply (HO k s Hk).
    unfold active in Ha. by destruct (Z.eqb_spec (in_use s) 0).
Qed.

Lemma sys_socket_follows (r : Z) (st : um_state) :
  follows st (sys_socket r st).
Proof.
  exists [EvSocket r]. unfold sys_socket. simpl.
  by destruct (r <? 0).
Qed.

Lemma new_connection_follows (cfg : um_config) (inp : iter_input)
    (st : um_state) :
  Inv st -> fresh_sock st inp ->
  follows st (snd (new_connection TIME_INVALID cfg inp st)).
Proof.
  intros HI Hfresh. unfold new_connection, fresh_sock in *.
  remember (in_new_sock inp) as tmp eqn:Etmp.
  set (st1 := emit (EvLog (LogNewConn (in_recvfrom_addr inp))) st).
  assert (F1 : follows st st1) by (by apply emit_follows).
  assert (F2 : follows st (sys_socket tmp st1)).
  { eapply follows_trans; [exact F1 | apply sys_socket_follows]. }
  destruct (Z.ltb_spec tmp 0) as [Hneg | Hpos].
  { simpl. eapply follows_trans; [exact F2 | by apply emit_follows]. }
  destruct Hfresh as [Hf | Hf]; [lia |].
  set (st2 := sys_socket tmp st1) in *.
  assert (HI2 : Inv st2).
  { destruct HI as [HT HO]. unfold st2, sys_socket.
    destruct (Z.ltb_spec tmp 0); [lia |]. split; [done |].
    intros j s Hj Hin. simpl. apply elem_of_union. right. by apply (HO j). }
  assert (F3 : follows st
    (snd (um_sockmap_clean TIME_INVALID cfg (in_time_reap inp) st2))).
  { eapply follows_trans; [exact F2 | by apply um_sockmap_clean_follows]. }
  set (st3 := snd (um_sockmap_clean TIME_INVALID cfg (in_time_reap inp) st2))
    in *.
  destruct (um_sockmap_ins_cases tmp (in_recvfrom_addr inp) st3)
    as [[Hr _] | (k & Hk & Hr)]; rewrite Hr.
  - change (0 <=? -1) with false. cbv iota. simpl.
    eapply follows_trans; [exact F3 | by apply emit_follows].
  - destruct (Z.leb_spec 0 (Z.of_nat k)) as [_ | Hlt]; [| lia]. simpl.
    eapply follows_trans; [exact F3 |].
    destruct (UPDATE_SOCK_FD_MAX_ADD_frame tmp
      (emit (EvConnect tmp (conn_addr cfg))
         (FD_SET tmp
            (set_map (<[k:=new_slot TIME_INVALID tmp (in_recvfrom_addr inp)]>
                        (map st3)) st3))))
      as (_ & _ & Fo & Ft).
    apply (follows_neutral st3 _ [EvConnect tmp (conn_addr cfg)]);
      [by rewrite Ft | by rewrite Fo | by apply Forall_singleton].
Qed.

Lemma loop_body_follows (mode : um_mode) (cfg : um_config) (inp : iter_input)
    (st : um_state) :
  Inv st -> fresh_sock st inp ->
  follows st (loop_body TIME_INVALID transform mode cfg inp st).
Proof.
  intros HI Hfresh. unfold loop_body.
  set (st0 := emit (EvSelect (sock_fd_max st + 1) (in_select_ret inp)) st).
  assert (F0 : follows st st0) by (by apply emit_follows).
  destruct (in_select_ret inp <=? 0).
  { eapply follows_trans; [exact F0 | by apply emit_follows]. }
  assert (HI0 : Inv st0) by (by apply emit_Inv).
  assert (FD : follows st
    (snd (dispatch_listen TIME_INVALID transform mode cfg inp st0))).
  { eapply follows_trans; [exact F0 |]. unfold dispatch_listen.
    destruct (bool_decide (bind_sock cfg ∈ in_read_fd_set inp));
      [| apply follows_refl].
    set (st1 := emit (EvRecvfrom (bind_sock cfg) (in_recvfrom_ret inp)) st0).
    assert (F1 : follows st0 st1) by (by apply emit_follows).
    destruct (0 <? in_recvfrom_ret inp); [| exact F1].
    assert (Hfwd : forall idx t, follows st0 t ->
      follows st0 (forward_upstream TIME_INVALID transform mode cfg inp
                (take (Z.to_nat (in_recvfrom_ret inp)) (in_recvfrom_buf inp))
                idx t)).
    { intros idx t Ht. unfold forward_upstream.
      destruct (0 <=? idx); [| done].
      eapply follows_trans; [exact Ht |].
      eapply follows_trans; [| apply UPDATE_LAST_USE_follows].
      by apply emit_follows. }
    destruct (start_lookup (in_recvfrom_addr inp) (map st1) <? 0).
    - pose proof (new_connection_follows cfg inp st1) as HN.
      destruct (new_connection TIME_INVALID cfg inp st1) as [[idx trig] st2].
      simpl. apply Hfwd. eapply follows_trans; [exact F1 |].
      apply HN; [by apply emit_Inv | done].
    - simpl. by apply Hfwd. }
  pose proof (dispatch_listen_Inv mode cfg inp st0 HI0 Hfresh) as HID.
  destruct (dispatch_listen TIME_INVALID transform mode cfg inp st0)
    as [trigged st1].
  simpl in FD, HID.
  assert (FDr : follows st
    (drain_sessions TIME_INVALID transform mode cfg inp st1)).
  { eapply follows_trans; [exact FD |].
    destruct (drain_sessions_map mode cfg inp st1) as (_ & Ho & _).
    eapply follows_neutral; [apply drain_sessions_trace | exact Ho |].
    apply Forall_forall. intros e He.
    apply drain_events_from_elem in He as (k & s & _ & He).
    unfold drain_slot_events in He.
    destruct (active s && bool_decide (sock s ∈ in_read_fd_set inp));
      [| by apply not_elem_of_nil in He].
    destruct (in_recv inp (0 + k)) as [ret rbuf].
    apply elem_of_cons in He as [-> | He]; [done |].
    destruct (0 <? ret); [| by apply not_elem_of_nil in He].
    apply elem_of_cons in He as [-> | He]; [done |].
    apply elem_of_cons in He as [-> | He]; [done |].
    by apply not_elem_of_nil in He. }
  unfold maintain. destruct trigged; [done |].
  eapply follows_trans; [exact FDr |].
  by apply um_sockmap_clean_follows, drain_sessions_Inv.
Qed.

(** X11: in a run of [start] from a table of free slots, with [NEW_SOCK()]
    returning errors or descriptors that were not open, every [close] is of
    a descriptor that is open when it is closed: no descriptor is closed
    twice and none that was never opened.  The open descriptors kept for
    the run are those that the [NEW_SOCK()] and [close] calls of the trace
    leave. *)
Theorem start_closes_open_descriptors_only (mode : um_mode) (cfg : um_config)
    (inputs : list iter_input) (signal_term r : Z) (st st' : um_state) :
  Forall (fun s => in_use s = 0) (map st) ->
  env_fresh mode cfg inputs signal_term (start_entry cfg st) ->
  start TIME_INVALID transform mode cfg inputs signal_term st = Some (r, st') ->
  exists new, trace st' = trace st ++ new /\
              replay (open_fds st) new = Some (open_fds st').
Proof.
  intros Hfree Henv Hrun. unfold start in Hrun.
  fold (start_entry cfg st) in Hrun.
  assert (F0 : follows st (start_entry cfg st)).
  { unfold start_entry.
    destruct (update_sock_fd_max_frame cfg
      (emit (EvLog (LogTimeout (timeout cfg)))
         (set_active_fd_set {[bind_sock cfg]} st))) as (_ & _ & Ho & Ht).
    apply (follows_neutral st _ [EvLog (LogTimeout (timeout cfg))]);
      [by rewrite Ht | by rewrite Ho | by apply Forall_singleton]. }
  assert (HI0 : Inv (start_entry cfg st)).
  { apply all_free_Inv. unfold start_entry.
    by destruct (update_sock_fd_max_frame cfg
      (emit (EvLog (LogTimeout (timeout cfg)))
         (set_active_fd_set {[bind_sock cfg]} st))) as (-> & _). }
  cut (follows (start_entry cfg st) st').
  { intros F. exact (follows_trans _ _ _ F0 F). }
  revert Henv Hrun HI0. generalize (start_entry cfg st). clear F0.
  revert signal_term.
  induction inputs as [|inp rest IH]; intros sig st0 Henv Hrun HI0;
    simpl in Hrun.
  - destruct (negb (sig =? 0)); [| done].
    injection Hrun as _ <-. by apply cleanup_follows.
  - destruct (Z.eqb_spec sig 0) as [E | E]; simpl in Hrun.
    + destruct (Henv E) as [Hf Hrest].
      eapply follows_trans; [by apply (loop_body_follows mode cfg inp) |].
      apply (IH _ _ Hrest Hrun). by apply loop_body_Inv.
    + injection Hrun as _ <-. by apply cleanup_follows.
Qed.

(** X12: a session created for a datagram from a new address leaves the
    listening branch with [last_use] equal to what [time()] returned after
    the send: the time, or still the sentinel when the clock is
    unavailable.  With a positive timeout, the reaper called at time [t']
    on the state the branch leaves purges that session when the clock was
    unavailable or [t'] is at least [timeout] later: it returns 1, frees the
    slot, closes the socket of the session and takes it out of the
    descriptor set.  Otherwise the reaper leaves the slot as it is. *)
Theorem new_session_last_use (mode : um_mode) (cfg : um_config)
    (inp : iter_input) (st : um_state) (k : nat) :
  bind_sock cfg ∈ in_read_fd_set inp ->
  0 < in_recvfrom_ret inp ->
  start_lookup (in_recvfrom_addr inp) (map st) = -1 ->
  0 <= in_new_sock inp ->
  fst (ins_table (in_new_sock inp) (in_recvfrom_addr inp)
         (reap_table cfg (in_time_reap inp) (map st))) = Z.of_nat k ->
  let r := dispatch_listen TIME_INVALID transform mode cfg inp st in
  let s := {| in_use := 1; sock := in_new_sock inp;
              last_use := in_time_listen inp;
              from := in_recvfrom_addr inp |} in
  fst r = true /\
  map (snd r) !! k = Some s /\
  (forall t', 0 < timeout cfg ->
     let c := um_sockmap_clean TIME_INVALID cfg t' (snd r) in
     (in_time_listen inp = TIME_INVALID \/
      t' - in_time_listen inp >= timeout cfg ->
        fst c = 1 /\
        map (snd c) !! k = Some (with_in_use 0 s) /\
        (exists new, trace (snd c) = trace (snd r) ++ new /\
                     EvClose (in_new_sock inp) ∈ new) /\
        (in_new_sock inp ∉ open_fds (snd c)) /\
        (in_new_sock inp ∉ active_fd_set (snd c))) /\
     (in_time_listen inp <> TIME_INVALID ->
      t' - in_time_listen inp < timeout cfg ->
        map (snd c) !! k = Some s)).
Proof.
  intros Hbind Hret Hmiss Hpos Hacc r s.
  assert (Hnew : fst r = true /\ map (snd r) !! k = Some s).
  { subst r. unfold dispatch_listen.
    rewrite bool_decide_eq_true_2 by done.
    destruct (Z.ltb_spec 0 (in_recvfrom_ret inp)) as [_ | Hle]; [| lia].
    set (st1 := emit (EvRecvfrom (bind_sock cfg) (in_recvfrom_ret inp)) st).
    change (map st1) with (map st). rewrite Hmiss.
    change (-1 <? 0) with true. cbv iota.
    destruct (new_connection_spec cfg inp st1) as (_ & Hi & Hg & Hm).
    change (map st1) with (map st) in Hi, Hm.
    destruct (new_connection TIME_INVALID cfg inp st1) as [[idx trig] st2].
    simpl in Hi, Hg, Hm |- *.
    destruct (Z.ltb_spec (in_new_sock inp) 0) as [Hneg | _]; [lia |].
    simpl in Hg. subst trig. split; [done |].
    rewrite Hacc in Hi. subst idx.
    destruct (ins_table_cases (in_new_sock inp) (in_recvfrom_addr inp)
                (reap_table cfg (in_time_reap inp) (map st)))
      as [[H1 _] | (k' & Hk' & H1 & H2)]; rewrite H1 in Hacc; [lia |].
    apply Nat2Z.inj in Hacc. subst k'.
    assert (Hslot : map st2 !! k =
              Some (new_slot TIME_INVALID (in_new_sock inp)
                      (in_recvfrom_addr inp))).
    { rewrite Hm, H2. by apply list_lookup_insert_eq. }
    unfold forward_upstream.
    destruct (Z.leb_spec 0 (Z.of_nat k)) as [_ | Hlt]; [| lia].
    rewrite Nat2Z.id. unfold UPDATE_LAST_USE.
    destruct (Z.eqb_spec (in_time_listen inp) TIME_INVALID) as [E | E]; simpl.
    - rewrite Hslot. unfold new_slot, s. by rewrite E.
    - rewrite list_lookup_alter_eq, Hslot. done. }
  destruct Hnew as [Htrig Hslot].
  split; [done |]. split; [done |].
  intros t' Hto c. subst c.
  destruct (um_sockmap_clean_on cfg t' (snd r) Hto)
    as (Hm & Ht & Ho & Ha & Hf).
  split.
  - intros Hexp.
    assert (Hst : s ∈ stale_slots cfg t' (map (snd r))).
    { apply elem_of_stale_slots.
      split; [by apply (list_elem_of_lookup_2 _ k) |]. by split. }
    assert (Hsock : in_new_sock inp ∈
                      socks_of (stale_slots cfg t' (map (snd r)))).
    { unfold socks_of. apply elem_of_list_to_set.
      by apply (list_elem_of_fmap_2 sock _ s). }
    split; [rewrite Hf; apply purged_flag_one; by exists s |].
    split.
    { rewrite Hm, list_lookup_fmap, Hslot. simpl. unfold reap_slot.
      by rewrite (proj2 (stale_iff cfg t' s)). }
    split.
    { eexists. split; [exact Ht |].
      apply elem_of_cons. right. unfold purge_events.
      apply list_elem_of_bind. exists s.
      split; [apply list_elem_of_here | done]. }
    split.
    + rewrite Ho. intros Hin. by apply elem_of_difference in Hin as [_ Hn].
    + rewrite Ha. intros Hin. by apply elem_of_difference in Hin as [_ Hn].
  - intros Hne Hlt.
    rewrite Hm, list_lookup_fmap, Hslot. simpl. unfold reap_slot.
    destruct (stale TIME_INVALID cfg t' s) eqn:E; [| done].
    apply stale_iff in E as [_ [E | E]]; simpl in E; [done | lia].
Qed.

Lemma start_loop_ret (mode : um_mode) (cfg : um_config)
    (inputs : list iter_input) :
  forall (signal_term : Z) (st : um_state) (r : Z) (st' : um_state),
    start_loop TIME_INVALID transform mode cfg inputs signal_term st =
      Some (r, st') -> r = 0.
Proof.
  induction inputs as [|inp rest IH]; intros sig st r st' H; simpl in H.
  - destruct (negb (sig =? 0)); [| done]. by injection H as <- _.
  - destruct (negb (sig =? 0)); [by injection H as <- _ |].
    by apply IH in H.
Qed.

End Properties.

(** * Properties of the entry point *)

Section MainProperties.

Variable TIME_INVALID : Z.
Variable transform : um_mode -> list Byte.byte -> Z -> list Byte.byte.
Variables UM_TIMEOUT UM_SERVER_PORT UM_CLIENT_PORT AF_INET INADDR_ANY : Z.
Variable UM_MAX_CLIENT : nat.
Variable atoi : string -> Z.
Variable htons : Z -> Z.

Local Abbreviation main_init' := (main_init UM_TIMEOUT INADDR_ANY).
Local Abbreviation getopt_loop' := (getopt_loop atoi).
Local Abbreviation main' :=
  (main TIME_INVALID transform UM_TIMEOUT UM_SERVER_PORT UM_CLIENT_PORT
        AF_INET INADDR_ANY UM_MAX_CLIENT atoi htons).

Lemma getopt_loop_app (pre post : list getopt_result) :
  forall v,
    getopt_loop' (pre ++ post) v =
    match getopt_loop' pre v with
    | inl v1 => getopt_loop' post v1
    | inr e => inr e
    end.
Proof.
  induction pre as [|o pre IH]; intros v; simpl; [done |].
  destruct (main_option atoi o v); [apply IH | done].
Qed.

Lemma getopt_loop_accepted (opts : list getopt_result) :
  forall v v',
    getopt_loop' opts v = inl v' -> m_show_usage v' = 0 ->
    m_show_usage v = 0 /\ Forall (fun o => opt_accepted o = true) opts.
Proof.
  induction opts as [|o rest IH]; intros v v' H Hu; simpl in H.
  - injection H as <-. by split.
  - destruct (main_option atoi o v) as [v1 |] eqn:E; [| done].
    destruct (IH _ _ H Hu) as [Hu1 Hf].
    assert (m_show_usage v = 0 /\ opt_accepted o = true) as [H1 H2].
    { unfold main_option in E.
      destruct o; simpl; repeat case_match; simplify_eq; simpl in *;
        try done; try lia; split; try done; try lia.
      all: try (apply bool_decide_eq_true_2; by eexists). }
    split; [done | by constructor].
Qed.

Lemma getopt_loop_mode (opts : list getopt_result) :
  forall v v',
    getopt_loop' opts v = inl v' ->
    m_mode v' = m_mode v \/
    (m_mode v' = UM_MODE_SERVER /\ Opt_m "server" ∈ opts) \/
    (m_mode v' = UM_MODE_CLIENT /\ Opt_m "client" ∈ opts).
Proof.
  induction opts as [|o rest IH]; intros v v' H; simpl in H.
  - injection H as <-. by left.
  - destruct (main_option atoi o v) as [v1 |] eqn:E; [| done].
    destruct (IH _ _ H) as [H1 | [[H1 H2] | [H1 H2]]].
    + rewrite H1. unfold main_option in E.
      destruct o; repeat case_match; simplify_eq; simpl; try by left.
      * right; left. split; [done |].
        match goal with Hs : String.eqb _ _ = true |- _ =>
          apply String.eqb_eq in Hs; subst end.
        apply list_elem_of_here.
      * right; right. split; [done |].
        match goal with Hs : String.eqb _ "client" = true |- _ =>
          apply String.eqb_eq in Hs; subst end.
        apply list_elem_of_here.
    + right; left. split; [done | by apply list_elem_of_further].
    + right; right. split; [done | by apply list_elem_of_further].
Qed.

Lemma getopt_loop_port_conn (opts : list getopt_result) :
  forall v v',
    getopt_loop' opts v = inl v' ->
    m_port_conn v' = m_port_conn v \/
    exists s, Opt_o s ∈ opts /\ m_port_conn v' = uint16 (atoi s).
Proof.
  induction opts as [|o rest IH]; intros v v' H; simpl in H.
  - injection H as <-. by left.
  - destruct (main_option atoi o v) as [v1 |] eqn:E; [| done].
    destruct (IH _ _ H) as [H1 | (s & H1 & H2)].
    + rewrite H1. unfold main_option in E.
      destruct o; repeat case_match; simplify_eq; simpl; try by left.
      right. eexists. split; [apply list_elem_of_here | done].
    + right. exists s. split; [by apply list_elem_of_further | done].
Qed.

Lemma getopt_loop_addr_conn (opts : list getopt_result) :
  forall v v',
    getopt_loop' opts v = inl v' ->
    m_addr_conn v' = m_addr_conn v \/
    exists s, Opt_c s (Some (m_addr_conn v')) ∈ opts.
Proof.
  induction opts as [|o rest IH]; intros v v' H; simpl in H.
  - injection H as <-. by left.
  - destruct (main_option atoi o v) as [v1 |] eqn:E; [| done].
    destruct (IH _ _ H) as [H1 | (s & H1)].
    + rewrite H1. unfold main_option in E.
      destruct o; repeat case_match; simplify_eq; simpl; try by left.
      right. eexists. apply list_elem_of_here.
    + right. exists s. by apply list_elem_of_further.
Qed.

Lemma getopt_loop_daemonize (opts : list getopt_result) :
  forall v v',
    getopt_loop' opts v = inl v' ->
    m_daemonize v' = m_daemonize v \/ Opt_d ∈ opts.
Proof.
  induction opts as [|o rest IH]; intros v v' H; simpl in H.
  - injection H as <-. by left.
  - destruct (main_option atoi o v) as [v1 |] eqn:E; [| done].
    destruct (IH _ _ H) as [H1 | H1].
    + rewrite H1. unfold main_option in E.
      destruct o; repeat case_match; simplify_eq; simpl; try by left.
      right. apply list_elem_of_here.
    + right. by apply list_elem_of_further.
Qed.

Lemma getopt_loop_timeout_kept (opts : list getopt_result) :
  forall v v',
    getopt_loop' opts v = inl v' ->
    (forall s, Opt_t s ∈ opts -> atoi s < 0) ->
    m_timeout v' = m_timeout v.
Proof.
  induction opts as [|o rest IH]; intros v v' H Hneg; simpl in H.
  - by injection H as <-.
  - destruct (main_option atoi o v) as [v1 |] eqn:E; [| done].
    rewrite (IH _ _ H).
    + unfold main_option in E.
      destruct o; repeat case_match; simplify_eq; simpl; try done.
      match goal with Hs : (0 <=? atoi ?s) = true |- _ =>
        apply Z.leb_le in Hs;
        specialize (Hneg s (list_elem_of_here _ _)); lia end.
    + intros s Hs. apply Hneg. by apply list_elem_of_further.
Qed.

Lemma getopt_loop_timeout_set (pre post : list getopt_result) (s : string) :
  forall v v',
    getopt_loop' (pre ++ Opt_t s :: post) v = inl v' ->
    0 <= atoi s ->
    (forall s', Opt_t s' ∈ post -> atoi s' < 0) ->
    m_timeout v' = atoi s.
Proof.
  intros v v' H Hs Hpost. rewrite getopt_loop_app in H.
  destruct (getopt_loop' pre v) as [v1 |]; [| done].
  simpl in H. destruct (Z.leb_spec 0 (atoi s)) as [_ | Hlt]; [| lia].
  by rewrite (getopt_loop_timeout_kept _ _ _ H Hpost).
Qed.

Lemma getopt_loop_timeout_nonneg (opts : list getopt_result) :
  forall v v',
    getopt_loop' opts v = inl v' -> 0 <= m_timeout v -> 0 <= m_timeout v'.
Proof.
  induction opts as [|o rest IH]; intros v v' H Hv; simpl in H.
  - by injection H as <-.
  - destruct (main_option atoi o v) as [v1 |] eqn:E; [| done].
    apply (IH _ _ H). unfold main_option in E.
    destruct o; repeat case_match; simplify_eq; simpl; try done.
    by apply Z.leb_le.
Qed.

Lemma getopt_loop_exit (opts : list getopt_result) :
  forall v e,
    getopt_loop' opts v = inr e ->
    e = MPerror "inet_pton()" \/ e = MHerror "gethostbyname2()".
Proof.
  induction opts as [|o rest IH]; intros v e H; simpl in H; [done |].
  destruct (main_option atoi o v) as [v1 |] eqn:E; [by apply (IH v1) |].
  injection H as <-. unfold main_option in E.
  destruct o; repeat case_match; simplify_eq; (by left) || (by right).
Qed.

Lemma main_daemonize_cases (inp : main_input) (v : main_vars)
    (open open' : gset Z) (tr tr' : list main_event) :
  main_daemonize inp v open tr = inl (open', tr') ->
  (m_daemonize v = 0 /\ open' = open) \/
  (m_daemonize v <> 0 /\ open' = open ∖ std_fds).
Proof.
  unfold main_daemonize. intros H.
  destruct (Z.eqb_spec (m_daemonize v) 0) as [E | E].
  - left. by injection H as <- _.
  - right. repeat case_match; simplify_eq; (split; [done |]);
      unfold std_fds; set_solver.
Qed.

Lemma main_daemonize_exit (inp : main_input) (v : main_vars)
    (open : gset Z) (tr tr' : list main_event) (ret : Z) :
  main_daemonize inp v open tr = inr (ret, tr') ->
  m_daemonize v <> 0 /\
  (exists l, tr' = tr ++ l) /\
  (ret = 1 \/ (ret = 0 /\ 0 < in_fork inp /\ MFork (in_fork inp) ∈ tr')).
Proof.
  unfold main_daemonize. intros H.
  destruct (Z.eqb_spec (m_daemonize v) 0) as [E | E]; [done |].
  split; [done |].
  repeat case_match; simplify_eq;
    (split; [rewrite <- ? app_assoc; by eexists |]); try by left.
  right. split; [done |]. split; [by apply Z.ltb_lt |].
  apply elem_of_app. right. apply list_elem_of_here.
Qed.

Lemma main_daemonize_trace (inp : main_input) (v : main_vars)
    (open open' : gset Z) (tr tr' : list main_event) :
  main_daemonize inp v open tr = inl (open', tr') ->
  exists l, tr' = tr ++ l.
Proof.
  unfold main_daemonize. intros H.
  repeat case_match; simplify_eq; rewrite <- ? app_assoc;
    try (by eexists).
  exists []. by rewrite app_nil_r.
Qed.

Lemma main_started (inp : main_input) (res : main_result) (c : start_call) :
  main' inp = Some res -> res_start res = Some c ->
  exists v open tr,
    getopt_loop' (in_getopt inp) main_init' = inl v /\
    in_mask_loaded inp <> 0 /\ m_port_conn v <> 0 /\ m_addr_conn v <> 0 /\
    m_show_usage v = 0 /\ m_mode v <> UM_MODE_NONE /\
    0 <= in_bind_sock inp /\ in_bind inp = 0 /\
    main_daemonize inp v (in_open inp ∪ {[in_bind_sock inp]})
      [MSocket (in_bind_sock inp); MSignal SIGHUP; MSignal SIGINT;
       MSignal SIGTERM] = inl (open, tr) /\
    sc_mode c = m_mode v /\
    sc_cfg c =
      {| bind_sock := in_bind_sock inp;
         conn_addr := {| sin_family := AF_INET;
                         sin_port := htons (m_port_conn v);
                         s_addr := m_addr_conn v |};
         timeout := m_timeout v;
         tlimit := m_tlimit v |} /\
    sc_signal_term c = foldl sighanlder 0 (in_pending inp) /\
    sc_entry c =
      {| map := replicate UM_MAX_CLIENT zero_slot; sock_fd_max := -1;
         active_fd_set := ∅; open_fds := open; trace := [] |} /\
    start TIME_INVALID transform (sc_mode c) (sc_cfg c) (in_loop inp)
      (sc_signal_term c) (sc_entry c) = Some (res_ret res, sc_exit c) /\
    res_open res = open_fds (sc_exit c) ∖ {[in_bind_sock inp]}.
Proof.
  intros H Hc. unfold main in H.
  repeat case_match; simplify_eq; simpl in Hc; simplify_eq.
  all: simpl.
  all: repeat match goal with
       | Hx : negb _ = false |- _ => apply negb_false_iff in Hx
       | Hx : _ || _ = false |- _ => apply orb_false_iff in Hx as [? ?]
       | Hx : (_ =? _) = true |- _ => apply Z.eqb_eq in Hx
       | Hx : (_ =? _) = false |- _ => apply Z.eqb_neq in Hx
       | Hx : (_ <? _) = false |- _ => apply Z.ltb_ge in Hx
       end.
  all: eexists _, _, _; split_and!; try done; congruence.
Qed.

Lemma main_cases (inp : main_input) (res : main_result) :
  main' inp = Some res ->
  (exists e,
     getopt_loop' (in_getopt inp) main_init' = inr e /\
     res = main_exit 1 (-1) (in_open inp) [e] None) \/
  (exists v ret open tr call,
     getopt_loop' (in_getopt inp) main_init' = inl v /\
     res = main_exit ret (in_bind_sock inp) open
             (MSocket (in_bind_sock inp) :: tr) call /\
     ((ret = 1 /\ call = None) \/
      (ret = 0 /\ call = None /\ m_daemonize v <> 0 /\ 0 < in_fork inp /\
       MFork (in_fork inp) ∈ tr) \/
      (ret = 0 /\ is_Some call))).
Proof.
  intros H. unfold main in H.
  destruct (getopt_loop' (in_getopt inp) main_init') as [v | e] eqn:Eg.
  2: { left. exists e. split; [done | by injection H as <-]. }
  right. exists v.
  repeat case_match; simplify_eq.
  all: repeat match goal with
       | Hd : main_daemonize _ _ _ _ = inr _ |- _ =>
           apply main_daemonize_exit in Hd as (? & [? ->] & ?)
       | Hd : main_daemonize _ _ _ _ = inl _ |- _ =>
           apply main_daemonize_trace in Hd as [? ->]
       | Hs : start _ _ _ _ _ _ _ = Some _ |- _ =>
           unfold start in Hs; apply start_loop_ret in Hs; subst
       end.
  all: simpl; rewrite <- ? app_assoc; simpl.
  all: eexists _, _, _, _; (split; [reflexivity |]); (split; [reflexivity |]).
  all: try (left; by split).
  all: try (right; right; split; [done | by eexists]).
  all: match goal with
       | Hr : _ = 1 \/ _ |- _ => destruct Hr as [-> | (-> & ? & Hin)]
       end; [left; by split | right; left; split_and!; try done].
  all: simpl in Hin; apply elem_of_cons in Hin as [? | Hin];
    [done | exact Hin].
Qed.

(** X13: [main] calls [start] only when every option was accepted, the
    mode was given as [server] or [client], a mask is loaded, the remote
    port given with [-o] is not 0 as a [uint16_t], the remote host given
    with [-c] resolved to an address other than 0, [NEW_SOCK] gave a
    descriptor and [bind] returned 0.  [start] then finds the table zeroed
    and [sock_fd_max] at -1. *)
Theorem main_start_requirements (inp : main_input) (res : main_result)
    (c : start_call) :
  main' inp = Some res -> res_start res = Some c ->
  Forall (fun o => opt_accepted o = true) (in_getopt inp) /\
  ((sc_mode c = UM_MODE_SERVER /\ Opt_m "server" ∈ in_getopt inp) \/
   (sc_mode c = UM_MODE_CLIENT /\ Opt_m "client" ∈ in_getopt inp)) /\
  in_mask_loaded inp <> 0 /\
  (exists s, Opt_o s ∈ in_getopt inp /\ uint16 (atoi s) <> 0 /\
     sin_port (conn_addr (sc_cfg c)) = htons (uint16 (atoi s))) /\
  (exists s, Opt_c s (Some (s_addr (conn_addr (sc_cfg c)))) ∈ in_getopt inp) /\
  s_addr (conn_addr (sc_cfg c)) <> 0 /\
  bind_sock (sc_cfg c) = in_bind_sock inp /\
  0 <= in_bind_sock inp /\
  in_bind inp = 0 /\
  map (sc_entry c) = replicate UM_MAX_CLIENT zero_slot /\
  sock_fd_max (sc_entry c) = -1.
Proof.
  intros H Hc.
  destruct (main_started inp res c H Hc)
    as (v & open & tr & Hg & Hmask & Hport & Haddr & Hu & Hmode & Hb & Hbind &
        _ & Hm & Hcfg & _ & Hentry & _).
  rewrite Hcfg, Hentry, Hm. simpl.
  split; [by apply (getopt_loop_accepted _ _ _ Hg) |].
  split.
  { destruct (getopt_loop_mode _ _ _ Hg) as [H1 | [H1 | H1]];
      [by rewrite H1 in Hmode | by left | by right]. }
  split; [done |]. split.
  { destruct (getopt_loop_port_conn _ _ _ Hg) as [H1 | (s & H1 & H2)];
      [by rewrite H1 in Hport |].
    exists s. rewrite <- H2. done. }
  split.
  { destruct (getopt_loop_addr_conn _ _ _ Hg) as [H1 | H1];
      [by rewrite H1 in Haddr | done]. }
  done.
Qed.

(** X14: the timeout [start] runs with is the value of the last [-t]
    option whose number is not negative, and [UM_TIMEOUT] when there is
    none; a negative [-t] changes nothing and is no error.  So the timeout
    is never negative unless [UM_TIMEOUT] is. *)
Theorem main_timeout_option (inp : main_input) (res : main_result)
    (c : start_call) :
  main' inp = Some res -> res_start res = Some c ->
  (0 <= UM_TIMEOUT -> 0 <= timeout (sc_cfg c)) /\
  ((forall s, Opt_t s ∈ in_getopt inp -> atoi s < 0) ->
   timeout (sc_cfg c) = UM_TIMEOUT) /\
  (forall pre s post,
     in_getopt inp = pre ++ Opt_t s :: post ->
     0 <= atoi s ->
     (forall s', Opt_t s' ∈ post -> atoi s' < 0) ->
     timeout (sc_cfg c) = atoi s).
Proof.
  intros H Hc.
  destruct (main_started inp res c H Hc)
    as (v & open & tr & Hg & _ & _ & _ & _ & _ & _ & _ & _ & _ & Hcfg & _).
  rewrite Hcfg. simpl. split_and!.
  - intros Hd. by apply (getopt_loop_timeout_nonneg _ _ _ Hg).
  - intros Hneg. by rewrite (getopt_loop_timeout_kept _ _ _ Hg Hneg).
  - intros pre s post Hopts Hs Hpost. rewrite Hopts in Hg.
    by apply (getopt_loop_timeout_set _ _ _ _ _ Hg).
Qed.

(** X15: [main] returns 0 or 1, and on every path its last two calls are
    [close(bind_sock)] and [endlog()].  The descriptor closed is the one
    [NEW_SOCK] returned, or -1 when [inet_pton] or [gethostbyname2] failed
    during option parsing, before any socket was asked for.  It returns 0
    only after [start] has returned, or in the parent of the daemon's
    [fork]. *)
Theorem main_exit_code (inp : main_input) (res : main_result) :
  main' inp = Some res ->
  (res_ret res = 0 \/ res_ret res = 1) /\
  (exists tr b,
     res_trace res = tr ++ [MClose b; MEndlog] /\
     (b ∉ res_open res) /\
     ((b = in_bind_sock inp /\ MSocket b ∈ tr) \/
      (b = -1 /\
       (tr = [MPerror "inet_pton()"] \/
        tr = [MHerror "gethostbyname2()"])))) /\
  (res_ret res = 0 ->
   is_Some (res_start res) \/
   (Opt_d ∈ in_getopt inp /\ 0 < in_fork inp /\
    MFork (in_fork inp) ∈ res_trace res)) /\
  (is_Some (res_start res) -> res_ret res = 0).
Proof.
  intros H.
  destruct (main_cases inp res H)
    as [(e & Hg & ->) | (v & ret & open & tr & call & Hg & -> & Hc)]; simpl.
  - split; [by right |]. split.
    + exists [e], (-1). split; [done |]. split; [set_solver |]. right.
      split; [done |].
      by destruct (getopt_loop_exit _ _ _ Hg) as [-> | ->]; [left | right].
    + split; [done |]. by intros [? ?].
  - split;
      [destruct Hc as [[-> _] | [(-> & _) | [-> _]]];
       (by left) || (by right) |].
    split.
    + exists (MSocket (in_bind_sock inp) :: tr), (in_bind_sock inp).
      split; [done |]. split; [set_solver |]. left.
      split; [done | apply list_elem_of_here].
    + split.
      * intros ->.
        destruct Hc as [[? _] | [(_ & -> & Hd & Hf & Hin) | [_ Hs]]];
          [done | | by left].
        right. split.
        { destruct (getopt_loop_daemonize _ _ _ Hg) as [H1 | H1]; [| done].
          by rewrite H1 in Hd. }
        split; [done |]. apply list_elem_of_further, elem_of_app. by left.
      * intros [x Hx]. destruct Hc as [[_ ->] | [(_ & -> & _) | [-> _]]];
          done.
Qed.

(** X16: a run of [main] that reaches [start], with a fresh listening
    socket, the standard descriptors open at entry and fresh sockets from
    the system during the loop, gives [start] a table of free slots and an
    open listening socket.  When [main] returns every slot is free again,
    the listening socket is closed, and every descriptor that was open at
    entry is still open, the standard three apart; without [-d] these too. *)
Theorem main_keeps_descriptors (inp : main_input) (res : main_result)
    (c : start_call) :
  main' inp = Some res -> res_start res = Some c ->
  in_bind_sock inp ∉ in_open inp ->
  std_fds ⊆ in_open inp ->
  env_fresh TIME_INVALID transform (sc_mode c) (sc_cfg c) (in_loop inp)
    (sc_signal_term c) (start_entry (sc_cfg c) (sc_entry c)) ->
  Forall (fun s => in_use s = 0) (map (sc_entry c)) /\
  bind_sock (sc_cfg c) ∈ open_fds (sc_entry c) /\
  (forall j s, map (sc_exit c) !! j = Some s -> in_use s = 0) /\
  (in_bind_sock inp ∉ res_open res) /\
  in_open inp ∖ std_fds ⊆ res_open res /\
  (Opt_d ∉ in_getopt inp -> in_open inp ⊆ res_open res).
Proof.
  intros H Hc Hfresh Hstd Henv.
  destruct (main_started inp res c H Hc)
    as (v & open & tr & Hg & _ & _ & _ & _ & _ & _ & _ & Hd & _ & Hcfg & _ &
        Hentry & Hrun & Hopen).
  assert (Hfree : Forall (fun s => in_use s = 0) (map (sc_entry c))).
  { rewrite Hentry. simpl. apply Forall_forall. intros s Hs.
    by apply elem_of_replicate in Hs as [-> _]. }
  assert (Hb : bind_sock (sc_cfg c) = in_bind_sock inp) by by rewrite Hcfg.
  assert (Ho : open_fds (sc_entry c) = open) by by rewrite Hentry.
  assert (Hkeep : open ⊆ open_fds (sc_exit c) /\
            forall j s, map (sc_exit c) !! j = Some s -> in_use s = 0).
  { unfold start in Hrun. fold (start_entry (sc_cfg c) (sc_entry c)) in Hrun.
    assert (HK : Kept open (start_entry (sc_cfg c) (sc_entry c))).
    { unfold start_entry.
      destruct (update_sock_fd_max_frame (sc_cfg c)
        (emit (EvLog (LogTimeout (timeout (sc_cfg c))))
           (set_active_fd_set {[bind_sock (sc_cfg c)]} (sc_entry c))))
        as (Hm & _ & Ho' & _).
      split; [rewrite Ho'; simpl; by rewrite Ho |].
      intros fd (j & s & Hj & Hin & _). rewrite Hm in Hj. simpl in Hj.
      exfalso. by apply Hin, (Forall_lookup_1 _ _ _ _ Hfree Hj). }
    destruct (start_loop_Kept TIME_INVALID transform open _ _ _ _ _ _ _
                HK Henv Hrun) as (_ & H1 & H2).
    by split. }
  destruct Hkeep as [Hk1 Hk2].
  assert (Hnstd : in_bind_sock inp ∉ std_fds) by set_solver.
  split; [done |]. rewrite Hb, Ho, Hopen.
  destruct (main_daemonize_cases _ _ _ _ _ _ Hd) as [[Hz ->] | [Hz ->]].
  - split; [set_solver |]. split; [done |]. split; [set_solver |].
    split; set_solver.
  - split; [set_solver |]. split; [done |]. split; [set_solver |].
    split; [set_solver |].
    intros Hnd. destruct (getopt_loop_daemonize _ _ _ Hg) as [H1 | H1];
      [by rewrite H1 in Hz | done].
Qed.

Lemma getopt_loop_port_kept (opts : list getopt_result) :
  forall v v',
    getopt_loop' opts v = inl v' ->
    (forall s, Opt_p s ∉ opts) ->
    m_port v' = m_port v.
Proof.
  induction opts as [|o rest IH]; intros v v' H Hno; simpl in H.
  - by injection H as <-.
  - destruct (main_option atoi o v) as [v1 |] eqn:E; [| done].
    rewrite (IH _ _ H).
    + unfold main_option in E.
      destruct o; repeat case_match; simplify_eq; simpl; try done.
      exfalso. eapply Hno, list_elem_of_here.
    + intros s Hs. apply (Hno s). by apply list_elem_of_further.
Qed.

Lemma getopt_loop_port_set (pre post : list getopt_result) (s : string) :
  forall v v',
    getopt_loop' (pre ++ Opt_p s :: post) v = inl v' ->
    (forall s', Opt_p s' ∉ post) ->
    m_port v' = uint16 (atoi s).
Proof.
  intros v v' H Hpost. rewrite getopt_loop_app in H.
  destruct (getopt_loop' pre v) as [v1 |]; [| done].
  simpl in H. by rewrite (getopt_loop_port_kept _ _ _ H Hpost).
Qed.

Lemma getopt_loop_addr_kept (opts : list getopt_result) :
  forall v v',
    getopt_loop' opts v = inl v' ->
    (forall s r a, Opt_l s r a ∉ opts) ->
    m_addr v' = m_addr v.
Proof.
  induction opts as [|o rest IH]; intros v v' H Hno; simpl in H.
  - by injection H as <-.
  - destruct (main_option atoi o v) as [v1 |] eqn:E; [| done].
    rewrite (IH _ _ H).
    + unfold main_option in E.
      destruct o; repeat case_match; simplify_eq; simpl; try done.
      exfalso. eapply Hno, list_elem_of_here.
    + intros s r a Hs. apply (Hno s r a). by apply list_elem_of_further.
Qed.

Lemma main_started_trace (inp : main_input) (res : main_result)
    (c : start_call) :
  main' inp = Some res -> res_start res = Some c ->
  exists v tr,
    getopt_loop' (in_getopt inp) main_init' = inl v /\
    sc_mode c = m_mode v /\
    let port :=
      if m_port v =? 0
      then default_port UM_SERVER_PORT UM_CLIENT_PORT (m_mode v)
      else m_port v in
    res_trace res =
      tr ++ [MStartlog; MLogBind (m_addr v) port;
             MBind (in_bind_sock inp)
               {| sin_family := AF_INET; sin_port := htons port;
                  s_addr := m_addr v |} 0;
             MLogRemote (m_addr_conn v) (m_port_conn v);
             MStart (sc_mode c) (sc_cfg c); MUnloadMask;
             MClose (in_bind_sock inp); MEndlog].
Proof.
  intros H Hc. unfold main in H.
  repeat case_match; simplify_eq; simpl in Hc; simplify_eq.
  all: repeat match goal with
       | Hx : negb (in_bind _ =? 0) = false |- _ =>
           apply negb_false_iff, Z.eqb_eq in Hx; rewrite Hx
       end.
  all: match goal with
       | Hg : getopt_loop _ _ _ = inl ?v,
         Hd : main_daemonize _ _ _ _ = inl (_, ?l) |- _ => exists v, l
       end; split; [done |]; split; [done |].
  all: simpl;
    repeat match goal with
    | Hx : m_mode _ = _ |- _ => rewrite Hx
    | Hx : (m_port _ =? 0) = _ |- _ => rewrite Hx
    end; simpl; rewrite <- ? app_assoc; simpl; reflexivity.
Qed.

(** X17: on the way to [start], [main] binds the listening socket once,
    with family [AF_INET], before the remote address is logged and [start]
    is called, and the trace ends with [unload_mask], [close(bind_sock)]
    and [endlog].  The port bound is the number of the last [-p] option
    reduced to 16 bits, and the default port of the mode when that is 0 or
    no [-p] was given: [-p 65536] selects the default.  Without [-l] the
    address is [INADDR_ANY]. *)
Theorem main_bind_address (inp : main_input) (res : main_result)
    (c : start_call) :
  main' inp = Some res -> res_start res = Some c ->
  let default := default_port UM_SERVER_PORT UM_CLIENT_PORT (sc_mode c) in
  exists tr a port pc,
    res_trace res =
      tr ++ [MStartlog; MLogBind (s_addr a) port;
             MBind (in_bind_sock inp) a 0;
             MLogRemote (s_addr (conn_addr (sc_cfg c))) pc;
             MStart (sc_mode c) (sc_cfg c); MUnloadMask;
             MClose (in_bind_sock inp); MEndlog] /\
    sin_family a = AF_INET /\ sin_port a = htons port /\
    sin_port (conn_addr (sc_cfg c)) = htons pc /\
    ((forall s, Opt_p s ∉ in_getopt inp) -> port = default) /\
    (forall pre s post,
       in_getopt inp = pre ++ Opt_p s :: post ->
       (forall s', Opt_p s' ∉ post) ->
       port = if uint16 (atoi s) =? 0 then default else uint16 (atoi s)) /\
    ((forall s r x, Opt_l s r x ∉ in_getopt inp) -> s_addr a = INADDR_ANY).
Proof.
  intros H Hc default.
  destruct (main_started_trace inp res c H Hc) as (v & tr & Hg & Hm & Htr).
  destruct (main_started inp res c H Hc)
    as (v' & _ & _ & Hg' & _ & _ & _ & _ & _ & _ & _ & _ & _ & Hcfg & _).
  rewrite Hg in Hg'. injection Hg' as <-.
  simpl in Htr.
  exists tr,
    {| sin_family := AF_INET;
       sin_port :=
         htons (if m_port v =? 0
                then default_port UM_SERVER_PORT UM_CLIENT_PORT (m_mode v)
                else m_port v);
       s_addr := m_addr v |},
    (if m_port v =? 0
     then default_port UM_SERVER_PORT UM_CLIENT_PORT (m_mode v)
     else m_port v),
    (m_port_conn v).
  split.
  { rewrite Htr, Hcfg. reflexivity. }
  unfold default. rewrite Hm. simpl.
  split; [done |]. split; [done |].
  split; [by rewrite Hcfg |]. split_and!.
  - intros Hno. by rewrite (getopt_loop_port_kept _ _ _ Hg Hno).
  - intros pre s post Hopts Hpost. rewrite Hopts in Hg.
    by rewrite (getopt_loop_port_set _ _ _ _ _ Hg Hpost).
  - intros Hno. by rewrite (getopt_loop_addr_kept _ _ _ Hg Hno).
Qed.

End MainProperties.

(** * The properties on a concrete relay *)

Lemma ex_addr_wf :
  sockaddr_in_wf ex_c1 /\ sockaddr_in_wf ex_c2 /\ sockaddr_in_wf ex_c3 /\
  sockaddr_in_wf (from ex_free).
Proof. unfold sockaddr_in_wf. simpl. repeat split; done. Qed.




Lemma ex_st_Inv : table_inv (map ex_st) /\ socks_open ex_st.
Proof.
  split.
  - apply table_inv_distinct.
    intros [|[|[|i]]] [|[|[|j]]] si sj Hi Hj Ai Aj Hne; simpl in Hi, Hj;
      try done; simplify_eq; try done.
  - intros [|[|[|i]]] s Hi Ai; simpl in Hi; try done; simplify_eq;
      try done; simpl; set_solver.
Qed.

Lemma ex_full_Inv : Inv ex_full.
Proof.
  split.
  - apply table_inv_distinct.
    intros [|i] [|j] si sj Hi Hj Ai Aj Hne; simpl in Hi, Hj; done.
  - intros [|i] s Hi Ai; simpl in Hi; [| done]. simplify_eq. simpl.
    set_solver.
Qed.

Lemma ex_full_Frame : Frame ∅ ex_full.
Proof.
  split; [simpl; set_solver |]. split; [set_solver |].
  split; [set_solver |]. intros j s _. set_solver.
Qed.

(** The reaper on [ex_st] at time 100: off with timeout 0; with timeout 5
    it frees slot 0 and keeps slot 1; a session inserted just before is
    freed as well. *)
Lemma reap_purges_exactly_stale_witness :
  um_sockmap_clean ex_TIME_INVALID ex_cfg_off 100 ex_st = (0, ex_st) /\
  map (snd (um_sockmap_clean ex_TIME_INVALID ex_cfg 100 ex_st)) !! 0%nat =
    Some {| in_use := 0; sock := 5; last_use := 10; from := ex_c1 |} /\
  map (snd (um_sockmap_clean ex_TIME_INVALID ex_cfg 100 ex_st)) !! 1%nat =
    Some ex_recent /\
  fst (um_sockmap_clean ex_TIME_INVALID ex_cfg 100 ex_st) = 1 /\
  map (snd (um_sockmap_clean ex_TIME_INVALID ex_cfg 100
              (snd (um_sockmap_ins ex_TIME_INVALID 7 ex_c3 ex_st)))) !! 2%nat =
    Some {| in_use := 0; sock := 7; last_use := ex_TIME_INVALID;
            from := ex_c3 |}.
Proof.
  destruct (reap_purges_exactly_stale ex_TIME_INVALID ex_cfg_off 100 ex_st)
    as (Hoff & _).
  destruct (reap_purges_exactly_stale ex_TIME_INVALID ex_cfg 100 ex_st)
    as (_ & Hon & Hnew).
  assert (Hpos : 0 < timeout ex_cfg) by reflexivity.
  split.
  { apply Hoff. discriminate. }
  destruct (Hon Hpos) as (Hslots & _ & _ & _ & _ & _ & Hret & _).
  split.
  { apply (Hslots 0%nat ex_old); [reflexivity |].
    split; [discriminate | right; discriminate]. }
  split.
  { apply (Hslots 1%nat ex_recent); [reflexivity |].
    intros [_ [H | H]]; [discriminate | by apply H]. }
  split.
  { apply Hret. exists ex_old. split; [apply list_elem_of_here |].
    split; [discriminate | right; discriminate]. }
  apply (Hnew Hpos 7 ex_c3 2%nat
           (snd (um_sockmap_ins ex_TIME_INVALID 7 ex_c3 ex_st))).
  reflexivity.
Defined.

(** Three insertions into a table of two free slots. *)
Lemma ins_first_free_or_full_witness :
  ins_all ex_TIME_INVALID [(7, ex_c1); (8, ex_c2); (9, ex_c3)]
    (set_map [ex_free; ex_free] ex_st) =
  ([0; 1; -1],
   set_map [new_slot ex_TIME_INVALID 7 ex_c1;
            new_slot ex_TIME_INVALID 8 ex_c2] ex_st).
Proof.
  destruct (ins_first_free_or_full ex_TIME_INVALID) as [_ Hseq].
  apply (Hseq 2%nat [(7, ex_c1); (8, ex_c2); (9, ex_c3)]
           (set_map [ex_free; ex_free] ex_st)).
  - reflexivity.
  - repeat constructor.
  - reflexivity.
Defined.

(** The lookup of [ex_c2] in [ex_st] finds slot 1 and that of [ex_c3],
    which differs from [ex_c2] in the numeric address only, finds nothing. *)
Lemma lookup_first_exact_match_witness :
  start_lookup ex_c2 (map ex_st) = 1 /\
  start_lookup ex_c3 (map ex_st) = -1 /\
  sockaddr_in_cmp ex_c3 ex_c2 <> 0.
Proof.
  destruct ex_addr_wf as (W1 & W2 & W3 & W0).
  assert (Wm : Forall (fun s => sockaddr_in_wf (from s)) (map ex_st))
    by (repeat constructor; done).
  destruct (lookup_first_exact_match ex_c2 (map ex_st) W2 Wm)
    as (_ & _ & Hfound & _).
  destruct (lookup_first_exact_match ex_c3 (map ex_st) W3 Wm)
    as (Hcmp & Hnone & _).
  split.
  { apply (Hfound 1%nat). split.
    - exists ex_recent. split; [reflexivity |]. split; reflexivity || done.
    - intros [|j] s' Hj Hs' [_ (_ & Hp & _)]; [| lia].
      injection Hs' as <-. discriminate. }
  split.
  { apply Hnone.
    intros [|[|[|j]]] s Hs [Ha (_ & Hp & Haddr)]; simpl in Hs;
      [| | | done]; injection Hs as <-; discriminate. }
  intros H0. apply (Hcmp ex_c2 W2) in H0.
  destruct H0 as (_ & _ & Haddr). discriminate.
Defined.

(** A touch of slot 1 of [ex_st] at time 100, and one with the clock
    unavailable. *)
Lemma touch_sets_last_use_only_witness :
  map (UPDATE_LAST_USE ex_TIME_INVALID 1 100 ex_st) !! 1%nat =
    Some {| in_use := 1; sock := 6; last_use := 100; from := ex_c2 |} /\
  map (UPDATE_LAST_USE ex_TIME_INVALID 1 ex_TIME_INVALID ex_st) = map ex_st.
Proof.
  destruct (touch_sets_last_use_only ex_TIME_INVALID 1 100 ex_st ex_recent
              eq_refl) as (Hvalid & _).
  destruct (touch_sets_last_use_only ex_TIME_INVALID 1 ex_TIME_INVALID ex_st
              ex_recent eq_refl) as (_ & Hinvalid & _).
  split.
  - apply Hvalid. discriminate.
  - apply Hinvalid. reflexivity.
Defined.

(** [SIGTERM] seen at the top of an iteration of a relay in state [ex_st]. *)
Lemma shutdown_closes_all_returns_zero_witness :
  start_loop ex_TIME_INVALID ex_transform UM_MODE_SERVER ex_cfg [ex_inp] 1
    ex_st = Some (0, cleanup ex_st) /\
  trace (cleanup ex_st) = [EvClose 5; EvClose 6].
Proof.
  destruct (shutdown_closes_all_returns_zero ex_TIME_INVALID ex_transform
              UM_MODE_SERVER ex_cfg [ex_inp] 1 ex_st)
    as (Hret & _ & _ & Htrace & _).
  - discriminate.
  - split; [exact Hret | exact Htrace].
Defined.

(** An iteration on [ex_st]: the datagram of [ex_c3] arrives, the session of
    [ex_c1] is purged and the new session takes its slot. *)
Lemma distinct_sessions_preserved_witness :
  table_inv
    (map (loop_body ex_TIME_INVALID ex_transform UM_MODE_SERVER ex_cfg
            ex_inp ex_st)) /\
  map (loop_body ex_TIME_INVALID ex_transform UM_MODE_SERVER ex_cfg
         ex_inp ex_st) =
    [{| in_use := 1; sock := 7; last_use := 100; from := ex_c3 |};
     ex_recent; ex_free].
Proof.
  destruct (distinct_sessions_preserved ex_TIME_INVALID ex_transform
              UM_MODE_SERVER ex_cfg ex_inp ex_st)
    as (_ & _ & _ & _ & Hiter & _).
  - apply ex_st_Inv.
  - apply ex_st_Inv.
  - right. simpl. set_solver.
  - split; [exact Hiter | reflexivity].
Defined.

(** An iteration on [ex_full]: the table is full and its session is not
    stale, so descriptor 7 is created and left behind, up to the return of
    [start]. *)
Lemma rejected_socket_leaks_witness :
  let st' := loop_body ex_TIME_INVALID ex_transform UM_MODE_SERVER ex_cfg
               ex_inp ex_full in
  7 ∈ open_fds st' /\ (7 ∉ active_fd_set st') /\
  (forall j s, map st' !! j = Some s -> sock s <> 7) /\
  7 ∈ open_fds (cleanup st').
Proof.
  intros st'.
  destruct (rejected_socket_leaks ex_TIME_INVALID ex_transform ∅
              UM_MODE_SERVER ex_cfg ex_inp ex_full)
    as ((Hopen & Hact & Hmap) & _ & _ & _ & _ & Hrun).
  - apply ex_full_Inv.
  - apply ex_full_Frame.
  - reflexivity.
  - simpl. set_solver.
  - reflexivity.
  - reflexivity.
  - discriminate.
  - simpl. set_solver.
  - intros [|j] s Hs; [| done]. vm_compute in Hs. injection Hs as <-.
    discriminate.
  - split; [exact Hopen |]. split; [exact Hact |]. split; [exact Hmap |].
    destruct (Hrun [] 1 0 (cleanup st')) as (Hend & _); [done | done |].
    exact Hend.
Defined.

(** The iteration on [ex_full_old]: the session of [ex_c1] is stale, and
    the trace shows [NEW_SOCK()] before the purge. *)
Lemma reaper_first_counterexample :
  trace (loop_body ex_TIME_INVALID ex_transform UM_MODE_SERVER ex_cfg
           ex_inp ex_full_old) =
    [EvSelect 6 1; EvRecvfrom 3 3; EvLog (LogNewConn ex_c3); EvSocket 7;
     EvTime 100; EvClose 5; EvLog (LogPurged ex_c1);
     EvConnect 7 ex_remote;
     EvSend 7 [Byte.x69; Byte.x6a; Byte.x00]; EvTime 100] /\
  ~ purge_before_socket
      (trace (loop_body ex_TIME_INVALID ex_transform UM_MODE_SERVER ex_cfg
                ex_inp ex_full_old)).
Proof.
  split; [reflexivity |].
  intros H.
  specialize (H 3%nat 5%nat (EvSocket 7) (EvClose 5)
                eq_refl eq_refl eq_refl eq_refl).
  lia.
Qed.

Lemma socket_then_reap_then_insert_witness :
  dispatch_listen ex_TIME_INVALID ex_transform UM_MODE_SERVER ex_cfg
    ex_inp ex_full_old =
  (true,
   forward_upstream ex_TIME_INVALID ex_transform UM_MODE_SERVER ex_cfg
     ex_inp ex_payload 0
     (snd (new_connection ex_TIME_INVALID ex_cfg ex_inp
             (emit (EvRecvfrom 3 3) ex_full_old)))) /\
  trace (snd (new_connection ex_TIME_INVALID ex_cfg ex_inp ex_full_old)) =
    [EvLog (LogNewConn ex_c3); EvSocket 7; EvTime 100; EvClose 5;
     EvLog (LogPurged ex_c1); EvConnect 7 ex_remote].
Proof.
  destruct (socket_then_reap_then_insert ex_TIME_INVALID ex_transform
              UM_MODE_SERVER ex_cfg ex_inp ex_full_old)
    as (Htrace & _ & _ & _ & Hlisten).
  split.
  - apply Hlisten.
    + simpl. set_solver.
    + reflexivity.
    + reflexivity.
  - exact Htrace.
Defined.


(** ** Runs of the loop *)

Lemma ex_init_free : Forall (fun s => in_use s = 0) (map ex_init).
Proof. by repeat constructor. Qed.

(** In [ex_run] the system hands out descriptor 7, which is not open. *)
Lemma ex_run_fresh :
  env_fresh ex_TIME_INVALID ex_transform UM_MODE_SERVER ex_cfg ex_run 0
    (start_entry ex_cfg ex_init).
Proof.
  unfold ex_run. cbn [env_fresh]. intros _. split.
  { right. vm_compute. set_solver. }
  intros _. split; [by left |].
  intros _. split; [by left |]. exact I.
Qed.

(** The state at the top of the third iteration of [ex_run]: the descriptor
    set holds 3 and 7, and [select] is given 8. *)
Lemma start_descriptor_set_exact_witness :
  let st' :=
    loop_body ex_TIME_INVALID ex_transform UM_MODE_SERVER ex_cfg ex_inp_echo
      (loop_body ex_TIME_INVALID ex_transform UM_MODE_SERVER ex_cfg ex_inp
         (start_entry ex_cfg ex_init)) in
  (forall fd, fd ∈ active_fd_set st' -> fd < sock_fd_max st' + 1) /\
  sock_fd_max st' ∈ active_fd_set st' /\
  sock_fd_max st' = 7.
Proof.
  intros st'.
  destruct (start_descriptor_set_exact ex_TIME_INVALID ex_transform
              UM_MODE_SERVER ex_cfg 2 ex_run 0 ex_init st')
    as (_ & Hlt & Hmax & _).
  - apply ex_init_free.
  - simpl. set_solver.
  - apply ex_run_fresh.
  - reflexivity.
  - split; [exact Hlt |]. split; [exact Hmax | reflexivity].
Defined.

(** [ex_run] from [ex_init]: [start] returns 0 with descriptors 0 to 3
    still open and both slots free. *)
Lemma start_closes_sessions_only_witness :
  exists st',
    start ex_TIME_INVALID ex_transform UM_MODE_SERVER ex_cfg ex_run 0 ex_init =
      Some (0, st') /\
    open_fds ex_init ⊆ open_fds st' /\
    (forall j s, map st' !! j = Some s -> in_use s = 0).
Proof.
  eexists. split; [reflexivity |].
  destruct (start_closes_sessions_only ex_TIME_INVALID ex_transform
              UM_MODE_SERVER ex_cfg ex_run 0 0 ex_init _
              ex_init_free ex_run_fresh eq_refl)
    as (_ & Hopen & _ & Hfree).
  split; [exact Hopen | exact Hfree].
Defined.

(** The trace of the same run, replayed from descriptors 0 to 3, ends with
    the descriptors the run leaves open. *)
Lemma start_closes_open_descriptors_only_witness :
  exists st' new,
    start ex_TIME_INVALID ex_transform UM_MODE_SERVER ex_cfg ex_run 0 ex_init =
      Some (0, st') /\
    trace st' = trace ex_init ++ new /\
    replay (open_fds ex_init) new = Some (open_fds st').
Proof.
  destruct (start_closes_open_descriptors_only ex_TIME_INVALID ex_transform
              UM_MODE_SERVER ex_cfg ex_run 0 0 ex_init _
              ex_init_free ex_run_fresh eq_refl)
    as (new & Htrace & Hreplay).
  eexists _, new. split; [reflexivity |]. split; [exact Htrace | exact Hreplay].
Defined.

(** ** Comparison, lookup, insertion, reaper *)

(** Two addresses 2^31 apart compare as -2^31 in both orders. *)
Lemma sockaddr_in_cmp_value_witness :
  sockaddr_in_cmp ex_far ex_near = - 2 ^ 31 /\
  sockaddr_in_cmp ex_near ex_far = - 2 ^ 31.
Proof.
  destruct (sockaddr_in_cmp_value ex_far ex_near) as (_ & _ & H).
  - unfold sockaddr_in_wf. simpl. lia.
  - unfold sockaddr_in_wf. simpl. lia.
  - destruct (H eq_refl eq_refl) as (_ & _ & Hedge & _).
    apply Hedge. reflexivity.
Defined.

(** [ex_c3] is inserted with socket 7 into slot 2 of [ex_st] and found
    there. *)
Lemma lookup_after_insert_witness :
  start_lookup ex_c3
    (map (snd (um_sockmap_ins ex_TIME_INVALID 7 ex_c3 ex_st))) = 2.
Proof.
  destruct (lookup_after_insert ex_TIME_INVALID 7 ex_c3 2 ex_st
              (snd (um_sockmap_ins ex_TIME_INVALID 7 ex_c3 ex_st)))
    as [H _].
  - reflexivity.
  - reflexivity.
  - exact H.
Defined.

(** At time 100 the session of [ex_c1], idle since time 10, is purged and
    [ex_c1] is not found any more. *)
Lemma lookup_after_reap_witness :
  start_lookup ex_c1
    (map (snd (um_sockmap_clean ex_TIME_INVALID ex_cfg 100 ex_st))) = -1.
Proof.
  rewrite (lookup_after_reap ex_TIME_INVALID ex_cfg 100 ex_c1 0 ex_old ex_st).
  - reflexivity.
  - simpl. lia.
  - apply ex_st_Inv.
  - apply ex_addr_wf.
  - repeat constructor; apply ex_addr_wf.
  - reflexivity.
  - reflexivity.
Defined.

(** A datagram of [ex_c2] on [ex_st] goes out on socket 6 and creates
    nothing. *)
Lemma known_client_reuses_session_witness :
  let r := dispatch_listen ex_TIME_INVALID ex_transform UM_MODE_SERVER ex_cfg
             ex_inp_known ex_st in
  fst r = false /\ open_fds (snd r) = open_fds ex_st /\
  start_lookup ex_c2 (map ex_st) = 1.
Proof.
  intros r.
  destruct (known_client_reuses_session ex_TIME_INVALID ex_transform
              UM_MODE_SERVER ex_cfg ex_inp_known ex_st 1 ex_recent)
    as (k & s & _ & _ & _ & _ & _ & Hr & _ & _ & Ho & _).
  - simpl. set_solver.
  - simpl. lia.
  - reflexivity.
  - discriminate.
  - reflexivity.
  - split; [exact Hr |]. split; [exact Ho | reflexivity].
Defined.

(** On [ex_full], whose one session is recent, the datagram of [ex_c3] is
    refused; on [ex_full_old], whose session is stale, it is accepted in
    slot 0. *)
Lemma accept_iff_free_after_reap_witness :
  fst (fst (new_connection ex_TIME_INVALID ex_cfg ex_inp ex_full)) = -1 /\
  0 <= fst (fst (new_connection ex_TIME_INVALID ex_cfg ex_inp ex_full_old))
    <= 0.
Proof.
  split.
  - destruct (accept_iff_free_after_reap ex_TIME_INVALID ex_cfg ex_inp
                ex_full) as ([_ Hfull] & _).
    + simpl. lia.
    + apply Hfull. intros [|j] s Hs; [| done].
      vm_compute in Hs. by injection Hs as <-.
  - destruct (accept_iff_free_after_reap ex_TIME_INVALID ex_cfg ex_inp
                ex_full_old) as (_ & _ & _ & Hstale).
    + simpl. lia.
    + apply (Hstale 0%nat ex_old); [reflexivity |].
      right. split; [simpl; lia | reflexivity].
Defined.

(** The session of [ex_c3] created on [ex_st] at time 100 takes slot 0 with
    [last_use] 100.  The reaper at time 105 purges it and closes socket 7;
    the reaper at time 104 leaves it in place. *)
Lemma new_session_last_use_witness :
  let st' := snd (dispatch_listen ex_TIME_INVALID ex_transform UM_MODE_SERVER
                    ex_cfg ex_inp ex_st) in
  let s := {| in_use := 1; sock := 7; last_use := 100; from := ex_c3 |} in
  map st' !! 0%nat = Some s /\
  fst (um_sockmap_clean ex_TIME_INVALID ex_cfg 105 st') = 1 /\
  map (snd (um_sockmap_clean ex_TIME_INVALID ex_cfg 105 st')) !! 0%nat =
    Some (with_in_use 0 s) /\
  map (snd (um_sockmap_clean ex_TIME_INVALID ex_cfg 104 st')) !! 0%nat =
    Some s.
Proof.
  intros st' s.
  destruct (new_session_last_use ex_TIME_INVALID ex_transform UM_MODE_SERVER
              ex_cfg ex_inp ex_st 0) as (_ & H & Hreap).
  - simpl. set_solver.
  - simpl. lia.
  - reflexivity.
  - simpl. lia.
  - reflexivity.
  - split; [exact H |].
    destruct (Hreap 105) as [Hpurge _]; [simpl; lia |].
    destruct Hpurge as (Hret & Hfree & _); [right; simpl; lia |].
    destruct (Hreap 104) as [_ Hkeep]; [simpl; lia |].
    split; [exact Hret |]. split; [exact Hfree |].
    apply Hkeep; [discriminate | simpl; lia].
Defined.

(** ** Runs of [main] *)

Lemma ex_main_fresh (cfg : um_config) (st : um_state) :
  cfg = {| bind_sock := 3;
           conn_addr := {| sin_family := 2; sin_port := ex_htons 51194;
                           s_addr := 167772260 |};
           timeout := 5; tlimit := -1 |} ->
  map st = [zero_slot; zero_slot] ->
  open_fds st = {[0; 1; 2]} ∪ {[3]} ->
  env_fresh ex_TIME_INVALID ex_transform UM_MODE_SERVER cfg ex_run 0
    (start_entry cfg st).
Proof.
  intros -> Hm Ho. destruct st as [m fdmax act open tr].
  simpl in Hm, Ho. subst m open.
  unfold ex_run. cbn [env_fresh]. intros _. split.
  { right. vm_compute. set_solver. }
  intros _. split; [by left |].
  intros _. split; [by left |]. exact I.
Qed.

(** The command line of [ex_main_inp] reaches [start] in server mode with
    the remote port 51194 in network byte order. *)
Lemma main_start_requirements_witness :
  exists res c,
    ex_main ex_main_inp = Some res /\ res_start res = Some c /\
    sc_mode c = UM_MODE_SERVER /\
    sin_port (conn_addr (sc_cfg c)) = 64199 /\
    map (sc_entry c) = [zero_slot; zero_slot].
Proof.
  eexists _, _. split; [reflexivity |]. split; [reflexivity |].
  match goal with |- sc_mode ?c = _ /\ _ =>
    destruct (main_start_requirements ex_TIME_INVALID ex_transform
                300 51194 61194 2 0 2 ex_atoi ex_htons ex_main_inp _ c
                eq_refl eq_refl)
      as (_ & _ & _ & _ & _ & _ & _ & _ & _ & Hmap & _)
  end.
  split; [reflexivity |]. split; [reflexivity | exact Hmap].
Defined.

(** With [-t -3 -t 5] the relay runs with a timeout of 5. *)
Lemma main_timeout_option_witness :
  exists res c,
    ex_main ex_main_inp = Some res /\ res_start res = Some c /\
    timeout (sc_cfg c) = 5.
Proof.
  eexists _, _. split; [reflexivity |]. split; [reflexivity |].
  match goal with |- timeout (sc_cfg ?c) = _ =>
    destruct (main_timeout_option ex_TIME_INVALID ex_transform
                300 51194 61194 2 0 2 ex_atoi ex_htons ex_main_inp _ c
                eq_refl eq_refl)
      as (_ & _ & Hset)
  end.
  apply (Hset [Opt_m "server"; Opt_s "secret" 0;
               Opt_c "10.0.0.100" (Some 167772260); Opt_o "51194";
               Opt_t "-3"] "5"%string []).
  - reflexivity.
  - by vm_compute.
  - intros s' Hs'. by apply not_elem_of_nil in Hs'.
Defined.

(** With [-h] added [main] prints the usage text and returns 1, after
    having created and before closing descriptor 3. *)
Lemma main_exit_code_witness :
  exists res,
    ex_main ex_main_inp_help = Some res /\
    res_ret res = 1 /\
    res_trace res = [MSocket 3; MUsage; MClose 3; MEndlog] /\
    (res_ret res = 0 \/ res_ret res = 1).
Proof.
  eexists. split; [reflexivity |].
  match goal with |- res_ret ?r = _ /\ _ =>
    destruct (main_exit_code ex_TIME_INVALID ex_transform
                300 51194 61194 2 0 2 ex_atoi ex_htons ex_main_inp_help r
                eq_refl) as (Hret & _)
  end.
  split; [reflexivity |]. split; [reflexivity | exact Hret].
Defined.

(** The run of [ex_main_inp] returns with descriptors 0, 1 and 2 open and
    descriptor 3 closed. *)
Lemma main_keeps_descriptors_witness :
  exists res c,
    ex_main ex_main_inp = Some res /\ res_start res = Some c /\
    (3 ∉ res_open res) /\ {[0; 1; 2]} ⊆ res_open res.
Proof.
  eexists _, _. split; [reflexivity |]. split; [reflexivity |].
  match goal with |- (_ ∉ res_open ?r) /\ _ =>
    destruct (main_keeps_descriptors ex_TIME_INVALID ex_transform
                300 51194 61194 2 0 2 ex_atoi ex_htons ex_main_inp r _
                eq_refl eq_refl)
      as (_ & _ & _ & Hclosed & _ & Hkept)
  end.
  - simpl. set_solver.
  - unfold std_fds. simpl. set_solver.
  - by apply ex_main_fresh.
  - split; [exact Hclosed |]. apply Hkept.
    simpl. intros Hd. repeat (apply elem_of_cons in Hd as [Hd | Hd]; [done |]).
    by apply not_elem_of_nil in Hd.
Defined.

(** With [-p 65536] the server binds its default port, 51194. *)
Lemma main_bind_address_witness :
  exists res c a,
    ex_main ex_main_inp_port = Some res /\ res_start res = Some c /\
    MBind 3 a 0 ∈ res_trace res /\ sin_port a = ex_htons 51194.
Proof.
  assert (Hrun : exists res c,
            ex_main ex_main_inp_port = Some res /\ res_start res = Some c).
  { eexists _, _. split; reflexivity. }
  destruct Hrun as (res & c & Hres & Hc).
  destruct (main_bind_address ex_TIME_INVALID ex_transform
              300 51194 61194 2 0 2 ex_atoi ex_htons ex_main_inp_port res c
              Hres Hc)
    as (tr & a & port & pc & Htr & _ & Hport & _ & _ & Hset & _).
  exists res, c, a. split; [exact Hres |]. split; [exact Hc |]. split.
  - rewrite Htr. apply elem_of_app. right.
    apply list_elem_of_further, list_elem_of_further, list_elem_of_here.
  - rewrite Hport.
    rewrite (Hset [] "65536"%string (in_getopt ex_main_inp)).
    + assert (Hmode : sc_mode c = UM_MODE_SERVER).
      { vm_compute in Hres. injection Hres as <-. simpl in Hc.
        by injection Hc as <-. }
      rewrite Hmode. reflexivity.
    + reflexivity.
    + intros s' Hs'. simpl in Hs'.
      repeat (apply elem_of_cons in Hs' as [Hs' | Hs']; [done |]).
      by apply not_elem_of_nil in Hs'.
Defined.
